(** * GroqAPIALMTranslate.process_translation_request

    A shallow embedding of [nodes/groq_api_alm_translate.py]: the handler
    that validates an audio file path, posts the audio to the translation
    endpoint with a bounded retry loop, and reshapes the answer.

    Python values are modelled as follows.
    - [str] is a list of Unicode code points ([pystr]); [u "..."] turns a
      literal into one.  Case mapping is modelled on U+0000..U+00FF and is
      the identity above (no code point above U+00FF lowercases to a
      string of the letters used by the supported extensions).
    - [int] is [Z]; [float] is the IEEE binary64 type [float], with
      [//], [%], [int()], [float()] and [repr] written after CPython.
    - A parsed JSON document is a [json] value; a [dict] is a list of
      pairs in insertion order.  [json.loads] and [json.dumps] with
      [indent=4] are written out in full ([loads], [dumps]).  Two limits
      of the interpreter are left out: the recursion limit on deeply
      nested documents and the limit on the number of digits of an [int].
    - The file system, the preset lookup and the HTTP transport are
      parameters of the handler: what they answer is part of the input.
      An exception is the answer [None] (or [PostRaises]).
    - [print] calls are left out; every other effect (opening the file,
      POST, sleep) is recorded in a trace, in order. *)

From Stdlib Require Import String Ascii ZArith NArith List Bool Lia.
From Stdlib Require Import Floats.PrimFloat Floats.FloatOps Floats.SpecFloat.
Import ListNotations.
Local Open Scope list_scope.
#[local] Set Warnings "-inexact-float,-register-all".

(** ** Python strings *)

Module PyStr.
Local Open Scope N_scope.

Definition pystr := list N.

Definition u (s : string) : pystr :=
  map N_of_ascii (list_ascii_of_string s).

Definition eqb (a b : pystr) : bool :=
  if list_eq_dec N.eq_dec a b then true else false.

(** [x in [a, b, ...]] on strings. *)
Definition mem (x : pystr) (l : list pystr) : bool := existsb (eqb x) l.

(** [s.split(c)] for a one-character separator: never empty. *)
Fixpoint split (c : N) (s : pystr) : list pystr :=
  match s with
  | [] => [[]]
  | x :: r =>
      if N.eqb x c then [] :: split c r
      else match split c r with
           | p :: ps => (x :: p) :: ps
           | [] => [[x]]
           end
  end.

(** [l[-1]] on a list of strings. *)
Definition last_piece (l : list pystr) : pystr := last l [].

(** [str.lower], per code point. *)
Definition lower_char (c : N) : N :=
  if (65 <=? c) && (c <=? 90) then c + 32
  else if (192 <=? c) && (c <=? 222) && negb (c =? 215) then c + 32
  else c.

Definition lower (s : pystr) : pystr := map lower_char s.

(** [str.isspace] on one code point: the Unicode white space set. *)
Definition isspace (c : N) : bool :=
  ((9 <=? c) && (c <=? 13)) || ((28 <=? c) && (c <=? 32))
  || (c =? 133) || (c =? 160) || (c =? 5760)
  || ((8192 <=? c) && (c <=? 8202))
  || (c =? 8232) || (c =? 8233) || (c =? 8239) || (c =? 8287)
  || (c =? 12288).

Fixpoint lstrip (s : pystr) : pystr :=
  match s with
  | [] => []
  | c :: r => if isspace c then lstrip r else s
  end.

Definition rstrip (s : pystr) : pystr := rev (lstrip (rev s)).

(** [s.strip()]: white space removed at both ends. *)
Definition strip (s : pystr) : pystr := lstrip (rstrip s).

Fixpoint startswith (p s : pystr) : bool :=
  match p, s with
  | [], _ => true
  | _ :: _, [] => false
  | a :: p', b :: s' => N.eqb a b && startswith p' s'
  end.

(** [s.replace(old, new)] for a non-empty [old]: every occurrence, left
    to right, without overlap.  [skip] counts the characters of a match
    still to be dropped. *)
Fixpoint replace_from (old new : pystr) (skip : nat) (s : pystr) : pystr :=
  match s with
  | [] => []
  | c :: r =>
      match skip with
      | S k => replace_from old new k r
      | O =>
          if startswith old s
          then new ++ replace_from old new (List.length old - 1)%nat r
          else c :: replace_from old new 0 r
      end
  end.

Definition replace (old new s : pystr) : pystr := replace_from old new 0 s.

(** Decimal digits of a natural number, most significant first. *)
Fixpoint digits_fuel (fuel : nat) (n : N) (acc : pystr) : pystr :=
  match fuel with
  | O => acc
  | S k =>
      let acc' := (48 + n mod 10)%N :: acc in
      if (n <? 10)%N then acc' else digits_fuel k (n / 10)%N acc'
  end.

Definition str_of_N (n : N) : pystr := digits_fuel (S (N.to_nat (N.log2 n))) n [].

(** [str(z)] for an [int]. *)
Definition str_of_Z (z : Z) : pystr :=
  if (z <? 0)%Z then 45%N :: str_of_N (Z.abs_N z) else str_of_N (Z.abs_N z).

(** [f"{z:0<w>d}"]: zero padding to width [w], the sign counted in it. *)
Definition format_0d (w : nat) (z : Z) : pystr :=
  let ds := str_of_N (Z.abs_N z) in
  if (z <? 0)%Z
  then 45%N :: repeat 48%N (w - 1 - List.length ds)%nat ++ ds
  else repeat 48%N (w - List.length ds)%nat ++ ds.

(** Literals with a quotation mark are written with another character
    in its place. *)
Definition subst_char (a b : N) (s : pystr) : pystr :=
  map (fun c => if N.eqb c a then b else c) s.

(** Truth value of a string: non-empty. *)
Definition truthy (s : pystr) : bool :=
  match s with [] => false | _ => true end.

End PyStr.
Import PyStr.
Notation "s /. a ~> b" := (subst_char a b s) (at level 60, a at next level, b at next level).

(** ** Python floats (IEEE binary64) *)

Module PyFloat.
Local Open Scope Z_scope.

(** Rounding of the integer [m] times two to the [e], to nearest even. *)
Definition round_ZE (m e : Z) : float :=
  SF2Prim (binary_normalize prec emax m e false).

(** [float(z)] for an [int]: [None] is [OverflowError]. *)
Definition float_of_Z (z : Z) : option float :=
  let f := round_ZE z 0 in
  if is_infinity f then None else Some f.

(** [int(f)]: truncation toward zero; [None] is the [ValueError] on nan
    and the [OverflowError] on the infinities. *)
Definition trunc_to_Z (f : float) : option Z :=
  match Prim2SF f with
  | S754_zero _ => Some 0
  | S754_finite s m e =>
      let v := if 0 <=? e then Z.pos m * 2 ^ e
               else Z.quot (Z.pos m) (2 ^ (- e)) in
      Some (if s then - v else v)
  | S754_infinity _ | S754_nan => None
  end.

(** C [fmod]: exact, the sign of the result is the sign of [x]. *)
Definition c_fmod (x y : float) : float :=
  match Prim2SF x, Prim2SF y with
  | S754_nan, _ | _, S754_nan => nan
  | S754_infinity _, _ => nan
  | _, S754_zero _ => nan
  | _, S754_infinity _ => x
  | S754_zero _, _ => x
  | S754_finite sx mx ex, S754_finite _ my ey =>
      let e := Z.min ex ey in
      let r := Z.rem (Z.pos mx * 2 ^ (ex - e)) (Z.pos my * 2 ^ (ey - e)) in
      if r =? 0 then (if sx then neg_zero else zero)
      else round_ZE (if sx then - r else r) e
  end.

(** C [floor]. *)
Definition c_floor (x : float) : float :=
  match Prim2SF x with
  | S754_finite s m e =>
      if 0 <=? e then x
      else
        let q := Z.div (if s then Z.neg m else Z.pos m) (2 ^ (- e)) in
        if q =? 0 then zero else round_ZE q 0
  | _ => x
  end.

Definition copysign_zero (w : float) : float :=
  if get_sign w then neg_zero else zero.

(** [float.__floordiv__], after CPython's [_float_div_mod]; [None] is
    [ZeroDivisionError]. *)
Definition float_floordiv (vx wx : float) : option float :=
  if (wx =? zero)%float then None
  else
    let m := c_fmod vx wx in
    let d := ((vx - m) / wx)%float in
    let d := if negb (m =? zero)%float
             then (if xorb (wx <? zero)%float (m <? zero)%float
                   then (d - one)%float else d)
             else d in
    if negb (d =? zero)%float
    then let fl := c_floor d in
         Some (if (0.5 <? d - fl)%float then (fl + one)%float else fl)
    else Some (copysign_zero (vx / wx)%float).

(** [float.__mod__], after CPython's [float_rem]. *)
Definition float_rem (vx wx : float) : option float :=
  if (wx =? zero)%float then None
  else
    let m := c_fmod vx wx in
    if negb (m =? zero)%float
    then Some (if xorb (wx <? zero)%float (m <? zero)%float
               then (m + wx)%float else m)
    else Some (copysign_zero wx).

(** *** [float(literal)] and [repr(float)] *)

(** The double nearest to [m] times ten to the [e], for [m >= 0]
    (round half to even; overflow gives infinity as [float()] does). *)
Definition float_of_decimal (m e : Z) : float :=
  if m =? 0 then zero
  else if 0 <=? e then round_ZE (m * 10 ^ e) 0
  else
    let d := 10 ^ (- e) in
    let s := Z.max 0 (64 + Z.log2 d - Z.log2 m) in
    let q := (m * 2 ^ s) / d in
    let r := (m * 2 ^ s) mod d in
    round_ZE (2 * q + (if r =? 0 then 0 else 1)) (- s - 1).

(** The decimal point position of a positive rational [n/d]: the [k]
    with [10^(k-1) <= n/d < 10^k]. *)
Fixpoint decpt_up (fuel : nat) (n d k : Z) : Z :=
  match fuel with
  | O => k
  | S f =>
      let below := if 0 <=? k then n <? d * 10 ^ k else n * 10 ^ (- k) <? d in
      if below then k else decpt_up f n d (k + 1)
  end.

Fixpoint decpt_down (fuel : nat) (n d k : Z) : Z :=
  match fuel with
  | O => k
  | S f =>
      let k' := k - 1 in
      let below := if 0 <=? k' then n <? d * 10 ^ k' else n * 10 ^ (- k') <? d in
      if below then decpt_down f n d k' else k
  end.

Definition decpt_of (n d : Z) : Z :=
  let est := ((Z.log2 n - Z.log2 d) * 30103) / 100000 in
  decpt_down 4 n d (decpt_up 4 n d est).

(** The candidate with [p] significant digits nearest to [n/d] that
    reads back as [x], if there is one: its digits and the power of ten
    they are scaled by. *)
Definition digits_at (x : float) (n d k : Z) (p : Z) : option (Z * Z) :=
  let t := k - p in
  let num := if 0 <=? t then n else n * 10 ^ (- t) in
  let den := if 0 <=? t then d * 10 ^ t else d in
  let lo := num / den in
  let r := num mod den in
  let back c := (float_of_decimal c t =? x)%float in
  if r =? 0 then (if back lo then Some (lo, t) else None)
  else
    let hi := lo + 1 in
    let lo_first := (2 * r <? den) || ((2 * r =? den) && Z.even lo) in
    let a := if lo_first then lo else hi in
    let b := if lo_first then hi else lo in
    if back a then Some (a, t) else if back b then Some (b, t) else None.

Fixpoint shortest_from (fuel : nat) (x : float) (n d k p : Z) : Z * Z :=
  match fuel with
  | O => let t := k - 17 in
         ((if 0 <=? t then n / (d * 10 ^ t) else (n * 10 ^ (- t)) / d), t)
  | S f =>
      match digits_at x n d k p with
      | Some c => c
      | None => shortest_from f x n d k (p + 1)
      end
  end.

Fixpoint strip_zeros (fuel : nat) (c t : Z) : Z * Z :=
  match fuel with
  | O => (c, t)
  | S f => if (c mod 10 =? 0) && negb (c =? 0)
           then strip_zeros f (c / 10) (t + 1) else (c, t)
  end.

(** Shortest digits of a positive finite double [m * 2^e], and the
    position of the decimal point in front of which they stand. *)
Definition shortest_digits (x : float) (m : positive) (e : Z) : pystr * Z :=
  let n := if 0 <=? e then Z.pos m * 2 ^ e else Z.pos m in
  let d := if 0 <=? e then 1 else 2 ^ (- e) in
  let k := decpt_of n d in
  let '(c, t) := shortest_from 17 x n d k 1 in
  let '(c, t) := strip_zeros 20 c t in
  let ds := str_of_N (Z.to_N c) in
  (ds, t + Z.of_nat (List.length ds)).

Definition zeros (n : Z) : pystr := repeat 48%N (Z.to_nat n).

(** [float.__repr__] of a positive finite double. *)
Definition repr_digits (ds : pystr) (dp : Z) : pystr :=
  let n := Z.of_nat (List.length ds) in
  if (dp <=? -4) || (16 <? dp) then
    let ex := dp - 1 in
    let mant := match ds with
                | [] => []
                | [c] => [c]
                | c :: r => c :: 46%N :: r
                end in
    mant ++ [101%N; (if ex <? 0 then 45%N else 43%N)] ++ format_0d 2 (Z.abs ex)
  else if dp <=? 0 then u "0." ++ zeros (- dp) ++ ds
  else if n <=? dp then ds ++ zeros (dp - n) ++ u ".0"
  else firstn (Z.to_nat dp) ds ++ 46%N :: skipn (Z.to_nat dp) ds.

(** [repr(f)], which is also [str(f)]. *)
Definition float_repr (f : float) : pystr :=
  match Prim2SF f with
  | S754_nan => u "nan"
  | S754_infinity s => if s then u "-inf" else u "inf"
  | S754_zero s => if s then u "-0.0" else u "0.0"
  | S754_finite s m e =>
      let '(ds, dp) := shortest_digits (abs f) m e in
      (if s then [45%N] else []) ++ repr_digits ds dp
  end.

End PyFloat.
Import PyFloat.

(** ** JSON values, [json.dumps(v, indent=4)] and [json.loads] *)

Module Json.
Local Open Scope N_scope.

Inductive json : Type :=
| JNull
| JBool (b : bool)
| JInt (z : Z)
| JFloat (f : float)
| JStr (s : pystr)
| JArr (l : list json)
| JObj (kvs : list (pystr * json)).

(** A [dict] with string keys keeps insertion order; assigning to a key
    already present replaces the value in place. *)
Fixpoint dict_get {A} (k : pystr) (d : list (pystr * A)) : option A :=
  match d with
  | [] => None
  | (k', v) :: r => if eqb k k' then Some v else dict_get k r
  end.

Fixpoint dict_set {A} (k : pystr) (v : A) (d : list (pystr * A))
  : list (pystr * A) :=
  match d with
  | [] => [(k, v)]
  | (k', v') :: r =>
      if eqb k k' then (k', v) :: r else (k', v') :: dict_set k v r
  end.

(** *** Serialisation *)

Definition hex_digit (n : N) : N := if n <? 10 then 48 + n else 87 + n.

Definition hex4 (c : N) : pystr :=
  [hex_digit (c / 4096 mod 16); hex_digit (c / 256 mod 16);
   hex_digit (c / 16 mod 16); hex_digit (c mod 16)].

(** One character of a string under [ensure_ascii]. *)
Definition escape_char (c : N) : pystr :=
  if c =? 34 then [92; 34]
  else if c =? 92 then [92; 92]
  else if c =? 10 then [92; 110]
  else if c =? 13 then [92; 114]
  else if c =? 9 then [92; 116]
  else if c =? 12 then [92; 102]
  else if c =? 8 then [92; 98]
  else if (32 <=? c) && (c <=? 126) then [c]
  else if c <? 65536 then 92 :: 117 :: hex4 c
  else
    let v := c - 65536 in
    (92 :: 117 :: hex4 (55296 + v / 1024 mod 1024))
      ++ (92 :: 117 :: hex4 (56320 + v mod 1024)).

Definition dump_string (s : pystr) : pystr :=
  34 :: flat_map escape_char s ++ [34].

Definition dump_float (f : float) : pystr :=
  if is_nan f then u "NaN"
  else if (f =? infinity)%float then u "Infinity"
  else if (f =? neg_infinity)%float then u "-Infinity"
  else float_repr f.

Definition newline_indent (level : nat) : pystr :=
  10 :: repeat 32 (4 * level)%nat.

(** [sep.join(parts)] *)
Fixpoint join (sep : pystr) (parts : list pystr) : pystr :=
  match parts with
  | [] => []
  | p :: r =>
      match r with
      | [] => p
      | _ :: _ => p ++ sep ++ join sep r
      end
  end.

(** The encoder at nesting depth [level]: the items of a container
    stand on lines of their own, indented by four more spaces, and are
    separated by a comma; keys and values by a colon and a space. *)
Fixpoint dumps_at (level : nat) (v : json) : pystr :=
  match v with
  | JNull => u "null"
  | JBool true => u "true"
  | JBool false => u "false"
  | JInt z => str_of_Z z
  | JFloat f => dump_float f
  | JStr s => dump_string s
  | JArr [] => u "[]"
  | JArr l =>
      [91] ++ newline_indent (S level)
        ++ join (44 :: newline_indent (S level)) (map (dumps_at (S level)) l)
        ++ newline_indent level ++ [93]
  | JObj [] => u "{}"
  | JObj kvs =>
      [123] ++ newline_indent (S level)
        ++ join (44 :: newline_indent (S level))
             (map (fun '(k, x) => dump_string k ++ [58; 32] ++ dumps_at (S level) x)
                kvs)
        ++ newline_indent level ++ [125]
  end.

(** [json.dumps(v, indent=4)]. *)
Definition dumps (v : json) : pystr := dumps_at 0 v.

(** *** Parsing *)

Definition is_ws (c : N) : bool :=
  (c =? 32) || (c =? 9) || (c =? 10) || (c =? 13).

Fixpoint skip_ws (s : pystr) : pystr :=
  match s with
  | c :: r => if is_ws c then skip_ws r else s
  | [] => []
  end.

Definition is_digit (c : N) : bool := (48 <=? c) && (c <=? 57).

Fixpoint span_digits (s : pystr) : pystr * pystr :=
  match s with
  | c :: r =>
      if is_digit c then let '(d, t) := span_digits r in (c :: d, t)
      else ([], s)
  | [] => ([], [])
  end.

(** [int(ds)] for a string of decimal digits. *)
Definition digits_val (ds : pystr) : N :=
  fold_left (fun a c => 10 * a + (c - 48)) ds 0.

Definition hex_val (c : N) : option N :=
  if (48 <=? c) && (c <=? 57) then Some (c - 48)
  else if (97 <=? c) && (c <=? 102) then Some (c - 87)
  else if (65 <=? c) && (c <=? 70) then Some (c - 55)
  else None.

Definition hex4_val (a b c d : N) : option N :=
  match hex_val a, hex_val b, hex_val c, hex_val d with
  | Some x, Some y, Some z, Some w => Some (((x * 16 + y) * 16 + z) * 16 + w)
  | _, _, _, _ => None
  end.

Definition is_high (c : N) : bool := (55296 <=? c) && (c <=? 56319).
Definition is_low (c : N) : bool := (56320 <=? c) && (c <=? 57343).
Definition join_surrogates (h l : N) : N :=
  65536 + (h - 55296) * 1024 + (l - 56320).

Definition simple_escape (e : N) : option N :=
  if e =? 34 then Some 34
  else if e =? 92 then Some 92
  else if e =? 47 then Some 47
  else if e =? 98 then Some 8
  else if e =? 102 then Some 12
  else if e =? 110 then Some 10
  else if e =? 114 then Some 13
  else if e =? 116 then Some 9
  else None.

(** The scanner of string bodies (strict mode), entered after the
    opening quotation mark; [acc] holds the characters read, reversed. *)
Fixpoint scan_string (s : pystr) (acc : pystr) : option (pystr * pystr) :=
  match s with
  | [] => None
  | c :: r =>
      if c =? 34 then Some (rev acc, r)
      else if c =? 92 then
        match r with
        | [] => None
        | e :: r1 =>
            if e =? 117 then
              match r1 with
              | h1 :: h2 :: h3 :: h4 :: r2 =>
                  match hex4_val h1 h2 h3 h4 with
                  | None => None
                  | Some c1 =>
                      match r2 with
                      | b :: v :: l1 :: l2 :: l3 :: l4 :: r3 =>
                          match hex4_val l1 l2 l3 l4 with
                          | Some c2 =>
                              if is_high c1 && (b =? 92) && (v =? 117)
                                 && is_low c2
                              then scan_string r3 (join_surrogates c1 c2 :: acc)
                              else scan_string r2 (c1 :: acc)
                          | None => scan_string r2 (c1 :: acc)
                          end
                      | _ => scan_string r2 (c1 :: acc)
                      end
                  end
              | _ => None
              end
            else
              match simple_escape e with
              | Some x => scan_string r1 (x :: acc)
              | None => None
              end
        end
      else if c <? 32 then None
      else scan_string r (c :: acc)
  end.

(** The number literal at the head of [s]: an optional minus sign, then
    a zero or a digit run that starts with a non-zero digit, then an
    optional fraction (a dot and at least one digit), then an optional
    exponent (e or E, an optional sign, at least one digit).  The value
    is an [int] without fraction and exponent, a [float] otherwise. *)
Definition sign_part (s : pystr) : bool * pystr :=
  match s with
  | c :: r => if c =? 45 then (true, r) else (false, s)
  | [] => (false, s)
  end.

Definition int_part (s : pystr) : option (pystr * pystr) :=
  match s with
  | c :: r =>
      if c =? 48 then Some ([48], r)
      else if is_digit c then Some (span_digits s)
      else None
  | [] => None
  end.

Definition frac_part (s : pystr) : option pystr * pystr :=
  match s with
  | c :: d :: r =>
      if (c =? 46) && is_digit d
      then let '(f, t) := span_digits (d :: r) in (Some f, t)
      else (None, s)
  | _ => (None, s)
  end.

Definition exp_sign (r : pystr) : bool * pystr :=
  match r with
  | c :: t =>
      if c =? 45 then (true, t) else if c =? 43 then (false, t) else (false, r)
  | [] => (false, r)
  end.

Definition exp_part (s : pystr) : option Z * pystr :=
  match s with
  | e :: r =>
      if (e =? 101) || (e =? 69) then
        let '(eneg, r1) := exp_sign r in
        match span_digits r1 with
        | ([], _) => (None, s)
        | (ds, t) =>
            (Some (if eneg then (- Z.of_N (digits_val ds))%Z
                   else Z.of_N (digits_val ds)), t)
        end
      else (None, s)
  | [] => (None, s)
  end.

(** [int(literal)] or [float(literal)]. *)
Definition number_value (neg : bool) (ip : pystr) (frac : option pystr)
  (ex : option Z) : json :=
  match frac, ex with
  | None, None =>
      let v := Z.of_N (digits_val ip) in
      JInt (if neg then (- v)%Z else v)
  | _, _ =>
      let f := match frac with Some f => f | None => [] end in
      let x := match ex with Some x => x | None => 0%Z end in
      let v := float_of_decimal (Z.of_N (digits_val (ip ++ f)))
                 (x - Z.of_nat (List.length f)) in
      JFloat (if neg then (- v)%float else v)
  end.

Definition scan_number (s : pystr) : option (json * pystr) :=
  let '(neg, s1) := sign_part s in
  match int_part s1 with
  | None => None
  | Some (ip, s2) =>
      let '(frac, s3) := frac_part s2 in
      let '(ex, s4) := exp_part s3 in
      Some (number_value neg ip frac ex, s4)
  end.

Definition expect (lit : pystr) (v : json) (s : pystr) : option (json * pystr) :=
  if startswith lit s then Some (v, skipn (List.length lit) s) else None.

Definition head_is (c : N) (s : pystr) : bool :=
  match s with
  | x :: _ => x =? c
  | [] => false
  end.

(** The value at the head of [s]; [fuel] bounds the nesting and the
    number of members read. *)
Fixpoint parse_value (fuel : nat) (s : pystr) : option (json * pystr) :=
  match fuel with
  | O => None
  | S k =>
      match s with
      | [] => None
      | c :: r =>
          if c =? 34 then
            match scan_string r [] with
            | Some (x, t) => Some (JStr x, t)
            | None => None
            end
          else if c =? 123 then
            let t := skip_ws r in
            if head_is 125 t then Some (JObj [], tl t)
            else parse_members k t []
          else if c =? 91 then
            let t := skip_ws r in
            if head_is 93 t then Some (JArr [], tl t)
            else parse_elements k t []
          else if c =? 110 then expect (u "null") JNull s
          else if c =? 116 then expect (u "true") (JBool true) s
          else if c =? 102 then expect (u "false") (JBool false) s
          else if c =? 78 then expect (u "NaN") (JFloat nan) s
          else if c =? 73 then expect (u "Infinity") (JFloat infinity) s
          else if (c =? 45) && startswith (u "-Infinity") s
          then expect (u "-Infinity") (JFloat neg_infinity) s
          else scan_number s
      end
  end
with parse_elements (fuel : nat) (s : pystr) (acc : list json)
  : option (json * pystr) :=
  match fuel with
  | O => None
  | S k =>
      match parse_value k s with
      | None => None
      | Some (v, t) =>
          let t1 := skip_ws t in
          if head_is 93 t1 then Some (JArr (rev (v :: acc)), tl t1)
          else if head_is 44 t1
          then parse_elements k (skip_ws (tl t1)) (v :: acc)
          else None
      end
  end
with parse_members (fuel : nat) (s : pystr) (acc : list (pystr * json))
  : option (json * pystr) :=
  match fuel with
  | O => None
  | S k =>
      if head_is 34 s then
        match scan_string (tl s) [] with
        | None => None
        | Some (key, t) =>
            let t1 := skip_ws t in
            if head_is 58 t1 then
              match parse_value k (skip_ws (tl t1)) with
              | None => None
              | Some (v, t2) =>
                  let t3 := skip_ws t2 in
                  if head_is 125 t3
                  then Some (JObj (dict_set key v acc), tl t3)
                  else if head_is 44 t3
                  then parse_members k (skip_ws (tl t3)) (dict_set key v acc)
                  else None
              end
            else None
        end
      else None
  end.

(** [json.loads(s)]; [None] stands for the exception it raises. *)
Definition loads (s : pystr) : option json :=
  match parse_value (S (List.length s)) (skip_ws s) with
  | Some (v, t) => match skip_ws t with [] => Some v | _ => None end
  | None => None
  end.

End Json.
Import Json.

(** ** Values that survive encoding *)

Module Wf.
Local Open Scope N_scope.










(** What may follow a run of digits, and a number literal, without
    changing how they read. *)
Definition ends_digits (rest : pystr) : Prop :=
  match rest with
  | [] => True
  | c :: _ => is_digit c = false
  end.

Definition ends_number (rest : pystr) : Prop :=
  match rest with
  | [] => True
  | c :: _ => is_digit c = false /\ c <> 46 /\ c <> 101 /\ c <> 69
  end.

(** The text after a single escape does not complete a surrogate pair. *)
Definition no_join (c1 : N) (t : pystr) : Prop :=
  is_high c1 = true ->
  forall b v l1 l2 l3 l4 r3 c2,
    t = b :: v :: l1 :: l2 :: l3 :: l4 :: r3 ->
    hex4_val l1 l2 l3 l4 = Some c2 ->
    (b =? 92) && (v =? 117) && is_low c2 = false.







(** [t] is what is left of [s] after some of it was read. *)
Definition suffix (s t : pystr) : Prop := exists p, s = p ++ t.

End Wf.
Import Wf.

(** ** The handler *)

(** What a call may produce: the result triple, or an exception that
    leaves the method. *)
Inductive outcome : Type :=
| Returned (translation_result : pystr) (success : bool) (status : pystr)
| Raised.

(** [requests.Response], as far as the handler reads it. *)
Record response : Type := mkResponse {
  status_code : Z;
  reason : pystr;
  text : pystr
}.

(** What [requests.post] does: raise, or hand back a response. *)
Inductive post_result : Type :=
| PostRaises
| PostResponse (r : response).

(** The arguments of [requests.post]. *)
Record request : Type := mkRequest {
  url : pystr;
  headers : list (pystr * pystr);
  data : list (pystr * pystr);
  files : list (pystr * (pystr * list N))
}.

Inductive event : Type :=
| EvOpen (path : pystr)
| EvPost (req : request)
| EvSleep (seconds : Z).

(** The surroundings of one call: the file system and the answers of the
    endpoint, the [n]-th call of [requests.post] counted from zero. *)
Record world : Type := mkWorld {
  isfile : pystr -> bool;
  read_file : pystr -> option (list N);
  post : nat -> request -> post_result
}.

(** The attributes of [self] the method reads. *)
Record self_t : Type := mkSelf {
  api_key : pystr;
  prompt_options : list (pystr * pystr)
}.

Definition DEFAULT_PROMPT : pystr :=
  u "Translate the audio file using the style and guidance of [user_input]".

Definition SUPPORTED_AUDIO_FORMATS : list pystr :=
  map u ["mp3"; "mp4"; "mpeg"; "mpga"; "m4a"; "wav"; "webm"]%string.

(** [os.path.basename] (POSIX). *)
Definition basename (path : pystr) : pystr := last_piece (split 47 path).

(** *** Response shaping *)

Inductive pynum : Type :=
| PInt (z : Z)
| PFloat (f : float).

(** The operand of the arithmetic on [start_time]: [bool] is an [int];
    anything but a number raises [TypeError]. *)
Definition as_number (v : json) : option pynum :=
  match v with
  | JInt z => Some (PInt z)
  | JBool b => Some (PInt (if b then 1 else 0))
  | JFloat f => Some (PFloat f)
  | _ => None
  end.

Definition bind {A B} (x : option A) (f : A -> option B) : option B :=
  match x with Some a => f a | None => None end.

(** [int(start_time // 60)] *)
Definition minutes_of (n : pynum) : option Z :=
  match n with
  | PInt z => Some (z / 60)%Z
  | PFloat f => bind (float_floordiv f 60) trunc_to_Z
  end.

(** [int(start_time % 60)] *)
Definition seconds_of (n : pynum) : option Z :=
  match n with
  | PInt z => Some (z mod 60)%Z
  | PFloat f => bind (float_rem f 60) trunc_to_Z
  end.

(** [int((start_time - int(start_time)) * 1000)] *)
Definition milliseconds_of (n : pynum) : option Z :=
  match n with
  | PInt z => Some ((z - z) * 1000)%Z
  | PFloat f =>
      bind (trunc_to_Z f) (fun i =>
      bind (float_of_Z i) (fun fi =>
      trunc_to_Z ((f - fi) * 1000)%float))
  end.

(** [f"[{minutes:02d}:{seconds:02d}.{milliseconds:03d}]"] *)
Definition timestamp (mi se ms : Z) : pystr :=
  [91%N] ++ format_0d 2 mi ++ [58%N] ++ format_0d 2 se ++ [46%N]
    ++ format_0d 3 ms ++ [93%N].

(** [d.get(key, default)] on a parsed value: only a [dict] has [get]. *)
Definition json_get (v : json) (key : pystr) (default : json) : option json :=
  match v with
  | JObj kvs => Some (match dict_get key kvs with Some x => x | None => default end)
  | _ => None
  end.

(** [x.strip()] on a parsed value: only a [str] has [strip]. *)
Definition json_strip (v : json) : option pystr :=
  match v with
  | JStr s => Some (strip s)
  | _ => None
  end.

(** The values [for segment in segments] runs through; [None] where the
    value is not iterable. *)
Definition iterate (v : json) : option (list json) :=
  match v with
  | JArr l => Some l
  | JObj kvs => Some (map (fun kv => JStr (fst kv)) kvs)
  | JStr s => Some (map (fun c => JStr [c]) s)
  | _ => None
  end.

(** One turn of the loop of lines 154-162: the line added to
    [translation_text]. *)
Definition timestamp_line (segment : json) : option pystr :=
  bind (json_get segment (u "start") (JInt 0)) (fun start_time =>
  bind (as_number start_time) (fun n =>
  bind (minutes_of n) (fun mi =>
  bind (seconds_of n) (fun se =>
  bind (milliseconds_of n) (fun ms =>
  bind (json_get segment (u "text") (JStr [])) (fun t =>
  bind (json_strip t) (fun txt =>
  Some (timestamp mi se ms ++ txt ++ [10%N])))))))).

(** One turn of the loop of lines 168-170. *)
Definition linebreak_line (segment : json) : option pystr :=
  bind (json_get segment (u "text") (JStr [])) (fun t =>
  bind (json_strip t) (fun txt => Some (txt ++ [10%N]))).

(** [translation_text += line] over the segments, from [acc]. *)
Fixpoint accumulate (line : json -> option pystr) (segments : list json)
  (translation_text : pystr) : option pystr :=
  match segments with
  | [] => Some translation_text
  | segment :: rest =>
      match line segment with
      | Some l => accumulate line rest (translation_text ++ l)
      | None => None
      end
  end.

Definition segments_text (line : json -> option pystr) (response_json : json)
  : option pystr :=
  bind (json_get response_json (u "segments") (JArr [])) (fun segments =>
  bind (iterate segments) (fun l =>
  bind (accumulate line l []) (fun translation_text =>
  Some (strip translation_text)))).

(** What the body of the [if response.status_code == 200] branch does:
    return a triple, raise, or reach its end without returning. *)
Inductive shaped : Type :=
| ShReturn (translation_result : pystr) (success : bool) (status : pystr)
| ShRaise
| ShFallThrough.

Definition shape_response (response_format api_response_format body : pystr)
  : shaped :=
  if eqb api_response_format (u "text") then
    if eqb response_format (u "text") then ShReturn body true (u "200 OK")
    else ShFallThrough
  else if mem api_response_format [u "json"; u "verbose_json"] then
    match loads body with
    | None => ShReturn (u "Error parsing JSON response.") false
                (u "200 OK but failed to parse JSON")
    | Some response_json =>
        if eqb response_format (u "json")
        then ShReturn (dumps response_json) true (u "200 OK")
        else if eqb response_format (u "verbose_json")
        then ShReturn (dumps response_json) true (u "200 OK")
        else if eqb response_format (u "text_with_timestamps") then
          match segments_text timestamp_line response_json with
          | Some t => ShReturn t true (u "200 OK")
          | None => ShRaise
          end
        else if eqb response_format (u "text_with_linebreaks") then
          match segments_text linebreak_line response_json with
          | Some t => ShReturn t true (u "200 OK")
          | None => ShRaise
          end
        else ShFallThrough
    end
  else ShReturn (u "Unknown api_response_format.") false (u "400 Bad Request").

(** *** The retry loop and the method *)

Definition FAILED : outcome :=
  Returned (u "Failed after all retries.") false (u "Failed after all retries").

Definition after (tr : list event) (r : list event * outcome)
  : list event * outcome := (tr ++ fst r, snd r).

(** [for attempt in range(max_retries)], with [n] turns left and
    [attempt] calls of [requests.post] made so far. *)
Fixpoint retry_loop (w : world) (req : request)
  (response_format api_response_format : pystr) (n attempt : nat)
  : list event * outcome :=
  match n with
  | O => ([], FAILED)
  | S k =>
      let next := retry_loop w req response_format api_response_format k
                    (S attempt) in
      match post w attempt req with
      | PostRaises => after [EvPost req; EvSleep 2] next
      | PostResponse r =>
          if (status_code r =? 200)%Z then
            match shape_response response_format api_response_format (text r) with
            | ShReturn t ok st => ([EvPost req], Returned t ok st)
            | ShRaise => after [EvPost req; EvSleep 2] next
            | ShFallThrough => after [EvPost req] next
            end
          else
            ([EvPost req],
             Returned (text r) false
               (str_of_Z (status_code r) ++ [32%N] ++ reason r))
      end
  end.

(** Lines 108-113. *)
Definition wire_format (response_format : pystr) : option pystr :=
  if mem response_format [u "json"; u "verbose_json"; u "text"]
  then Some response_format
  else if mem response_format [u "text_with_timestamps"; u "text_with_linebreaks"]
  then Some (u "verbose_json")
  else None.

(** Reading a trace: the attempts in it, and the events of [k] attempts
    that raised one after the other. *)
Definition count_posts (tr : list event) : nat :=
  List.length (filter (fun e => match e with EvPost _ => true | _ => false end) tr).

Definition raised_attempts (req : request) (k : nat) : list event :=
  concat (repeat [EvPost req; EvSleep 2] k).

(** Attempt [i] ends in the [except] clause: [requests.post] raised, or
    the shaping of a 200 answer did. *)
Definition attempt_raises (w : world) (req : request)
  (response_format api_response_format : pystr) (i : nat) : Prop :=
  post w i req = PostRaises
  \/ exists r, post w i req = PostResponse r /\ status_code r = 200%Z
       /\ shape_response response_format api_response_format (text r) = ShRaise.

Section Method.

(** [get_prompt_content] is imported from [utils.api_utils]; its answer
    is an input here.  [None] stands for a call that raises, or that
    yields a value without a [replace] method, on which line 101 raises. *)
Variable get_prompt_content : list (pystr * pystr) -> pystr -> option pystr.

(** Lines 97-101: [None] when an exception leaves them, else the value
    of [prompt], [None] of Python being [Some None]. *)
Definition build_prompt (self : self_t) (preset user_input : pystr)
  : option (option pystr) :=
  if eqb preset DEFAULT_PROMPT then
    Some (if truthy user_input
          then Some (replace (u "[user_input]") (strip user_input) DEFAULT_PROMPT)
          else None)
  else
    match get_prompt_content (prompt_options self) preset with
    | Some prompt_template =>
        Some (Some (replace (u "[user_input]") (strip user_input) prompt_template))
    | None => None
    end.

(** Lines 115-124. *)
Definition build_request (self : self_t) (model file_path : pystr)
  (audio_data : list N) (api_response_format : pystr) (temperature : float)
  (prompt : option pystr) : request :=
  {| url := u "https://api.groq.com/openai/v1/audio/translations";
     headers := [(u "Authorization", u "Bearer " ++ api_key self)];
     files := [(u "file", (basename file_path, audio_data))];
     data := [(u "model", model);
              (u "response_format", api_response_format);
              (u "temperature", float_repr temperature)]
             ++ match prompt with
                | Some p => if truthy p then [(u "prompt", p)] else []
                | None => []
                end |}.

Definition process_translation_request (self : self_t) (w : world)
  (model file_path preset user_input response_format : pystr)
  (temperature : float) (max_retries : Z) : list event * outcome :=
  if negb (isfile w file_path) then
    ([], Returned (u "File not found.") false (u "400 Bad Request"))
  else
    let file_extension := lower (last_piece (split 46 file_path)) in
    if negb (mem file_extension SUPPORTED_AUDIO_FORMATS) then
      ([], Returned (u "Unsupported audio format '" ++ file_extension ++ u "'.")
             false (u "400 Bad Request"))
    else
      match read_file w file_path with
      | None =>
          ([EvOpen file_path],
           Returned (u "Error reading audio file.") false (u "400 Bad Request"))
      | Some audio_data =>
          match build_prompt self preset user_input with
          | None => ([EvOpen file_path], Raised)
          | Some prompt =>
              match wire_format response_format with
              | None =>
                  ([EvOpen file_path],
                   Returned (u "Unknown response format.") false
                     (u "400 Bad Request"))
              | Some api_response_format =>
                  let req := build_request self model file_path audio_data
                               api_response_format temperature prompt in
                  after [EvOpen file_path]
                    (retry_loop w req response_format api_response_format
                       (Z.to_nat max_retries) 0)
              end
          end
      end.

(** The request and the wire format the method enters the loop with,
    when lines 78-113 let it come that far. *)
Definition prepared (self : self_t) (w : world)
  (model file_path preset user_input response_format : pystr)
  (temperature : float) : option (request * pystr) :=
  if isfile w file_path
     && mem (lower (last_piece (split 46 file_path))) SUPPORTED_AUDIO_FORMATS
  then
    match read_file w file_path,
          build_prompt self preset user_input,
          wire_format response_format with
    | Some audio_data, Some prompt, Some api_response_format =>
        Some (build_request self model file_path audio_data
                api_response_format temperature prompt, api_response_format)
    | _, _, _ => None
    end
  else None.

End Method.

(** ** Reading a verbose_json answer *)

(** [segs] is the [segments] array of the parsed body, the empty list
    when the key is absent. *)
Definition segments_of (response_json : json) (segs : list json) : Prop :=
  exists top, response_json = JObj top
    /\ match dict_get (u "segments") top with
       | Some v => v = JArr segs
       | None => segs = []
       end.

(** [seg] is an object whose [text] is the string [t], the empty string
    when the key is absent. *)
Definition text_segment (seg : json) (t : pystr) : Prop :=
  exists kvs, seg = JObj kvs
    /\ match dict_get (u "text") kvs with
       | Some v => v = JStr t
       | None => t = []
       end.

(** [seg] is moreover an object whose [start] is a number (zero when the
    key is absent) that lines 157-159 turn into the minutes [mi], the
    seconds [se] and the milliseconds [ms]. *)
Definition stamped_segment (seg : json) (v : Z * Z * Z * pystr) : Prop :=
  let '(mi, se, ms, t) := v in
  text_segment seg t
  /\ exists start_time n,
       json_get seg (u "start") (JInt 0) = Some start_time
       /\ as_number start_time = Some n
       /\ minutes_of n = Some mi
       /\ seconds_of n = Some se
       /\ milliseconds_of n = Some ms.

(** The texts as the specification words them: the lines one after the
    other, white space trimmed at the end of the whole. *)
Definition linebreaks_as_specified (texts : list pystr) : pystr :=
  rstrip (concat (map (fun t => strip t ++ [10%N]) texts)).


(** The seconds slept in a trace. *)
Definition total_sleep (tr : list event) : Z :=
  fold_right (fun e s => match e with EvSleep z => (z + s)%Z | _ => s end) 0%Z tr.

(** [old] stands somewhere in [s]. *)
Definition occurs (old s : pystr) : Prop := exists a b, s = a ++ old ++ b.

(** [old in s] on strings. *)
Fixpoint contains (old s : pystr) : bool :=
  startswith old s
  || match s with
     | [] => false
     | _ :: r => contains old r
     end.

(** No white space at either end. *)
Definition trimmed (s : pystr) : Prop :=
  match s with
  | [] => True
  | c :: _ => isspace c = false /\ isspace (last s 0%N) = false
  end.

(** [segs] are the values the loop over [segments] runs through: the
    items of the array, the keys of a [dict], the characters of a
    [str]; nothing when the key is absent. *)
Definition iterated_segments (response_json : json) (segs : list json) : Prop :=
  exists top, response_json = JObj top
    /\ iterate (match dict_get (u "segments") top with
                | Some v => v
                | None => JArr []
                end) = Some segs.

(** Printable ASCII characters: with the space, and without it. *)
Definition visible (c : N) : bool := ((32 <=? c) && (c <=? 126))%N.

Definition graphic (c : N) : bool := ((33 <=? c) && (c <=? 126))%N.

(** A printable ASCII character, or a line feed. *)
Definition printable (c : N) : bool := ((c =? 10) || visible c)%N.

(** No object of the value has two members with the same key. *)
Fixpoint distinct_keys (v : json) : Prop :=
  match v with
  | JArr l =>
      (fix all (l : list json) : Prop :=
         match l with
         | [] => True
         | x :: r => distinct_keys x /\ all r
         end) l
  | JObj kvs =>
      NoDup (map fst kvs)
      /\ (fix all (l : list (pystr * json)) : Prop :=
            match l with
            | [] => True
            | (_, x) :: r => distinct_keys x /\ all r
            end) kvs
  | _ => True
  end.

(** ** The class besides the handler *)

Definition TRANSLATION_MODELS : list pystr := [u "whisper-large-v3"].

(** [os.path.join] (POSIX) of two components. *)
Definition path_join (a b : pystr) : pystr :=
  if head_is 47 b then b
  else match a with
       | [] => b
       | _ :: _ => if N.eqb (last a 0%N) 47 then a ++ b else a ++ [47%N] ++ b
       end.

(** A value in the options of an input. *)
Inductive setting : Type :=
| SStr (s : pystr)
| SBool (b : bool)
| SInt (z : Z)
| SFloat (f : float).

(** What an input is: one of the listed choices, or a value of the
    named type. *)
Inductive input_kind : Type :=
| Choices (l : list pystr)
| TypeName (name : pystr).

Definition input_spec : Type := input_kind * list (pystr * setting).

Section Class.

(** [load_prompt_options] is imported from [utils.api_utils]: the
    [dict] it builds from the files is an input here, [None] when it
    raises.  So are what [ConfigParser] finds in the configuration file
    ([None] when reading it or [get] raises) and whether the [Groq]
    client can be built from the key. *)
Variable load_prompt_options : list pystr -> option (list (pystr * pystr)).
Variable config_get : pystr -> pystr -> pystr -> option pystr.
Variable Groq : pystr -> bool.

(** Lines 26-40; [current_directory] is the directory of the module.
    [None] when an exception leaves the constructor.  Of the attributes
    set, the handler reads [api_key] and [prompt_options]. *)
Definition __init__ (current_directory : pystr) : option self_t :=
  let groq_directory := path_join current_directory (u "groq") in
  let config_path := path_join groq_directory (u "GroqConfig.ini") in
  bind (config_get config_path (u "API") (u "key")) (fun api_key =>
  if Groq api_key then
    let prompt_files :=
      [path_join groq_directory (u "DefaultPrompts_ALM_Translate.json");
       path_join groq_directory (u "UserPrompts_ALM_Translate.json")] in
    bind (load_prompt_options prompt_files) (fun prompt_options =>
    Some {| api_key := api_key; prompt_options := prompt_options |})
  else None).

(** Lines 42-66. *)
Definition INPUT_TYPES (current_directory : pystr)
  : list (pystr * list (pystr * input_spec)) :=
  let prompt_options :=
    let groq_directory := path_join current_directory (u "groq") in
    let prompt_files :=
      [path_join groq_directory (u "DefaultPrompts_ALM_Translate.json");
       path_join groq_directory (u "UserPrompts_ALM_Translate.json")] in
    match load_prompt_options prompt_files with
    | Some prompt_options => prompt_options
    | None => []
    end in
  [(u "required",
    [(u "model",
      (Choices TRANSLATION_MODELS,
       [(u "tooltip", SStr (u "Select the translation model to use."))]));
     (u "file_path",
      (TypeName (u "STRING"),
       [(u "label", SStr (u "Audio file path"));
        (u "multiline", SBool false);
        (u "default", SStr []);
        (u "tooltip", SStr (u "Path to the audio file for translation."))]));
     (u "preset",
      (Choices ([DEFAULT_PROMPT] ++ map fst prompt_options),
       [(u "tooltip",
         SStr (u "Select a preset or custom prompt for guiding the translation."))]));
     (u "user_input",
      (TypeName (u "STRING"),
       [(u "label", SStr (u "User Input (for prompt)"));
        (u "multiline", SBool true);
        (u "default", SStr []);
        (u "tooltip",
         SStr (u "Optional user input to guide the translation process."))]));
     (u "response_format",
      (Choices [u "json"; u "verbose_json"; u "text"; u "text_with_timestamps";
                u "text_with_linebreaks"],
       [(u "tooltip",
         SStr (u "Choose the format in which the translation output will be returned."))]));
     (u "temperature",
      (TypeName (u "FLOAT"),
       [(u "default", SFloat 0); (u "min", SFloat 0); (u "max", SFloat 1);
        (u "step", SFloat 0.1);
        (u "tooltip",
         SStr (u "Controls randomness in responses.

A higher temperature makes the model take more risks, leading to more creative or varied answers.

A lower temperature (closer to 0.1) makes the model more focused and predictable."))]));
     (u "max_retries",
      (TypeName (u "INT"),
       [(u "default", SInt 2); (u "min", SInt 1); (u "max", SInt 10);
        (u "step", SInt 1);
        (u "tooltip", SStr (u "Maximum number of retries in case of failures."))]))])].

End Class.

(** [INPUT_TYPES()["required"][name][0]] when that is a list of
    choices. *)
Definition choices_of (types : list (pystr * list (pystr * input_spec)))
  (name : pystr) : option (list pystr) :=
  match dict_get (u "required") types with
  | Some required =>
      match dict_get name required with
      | Some (Choices l, _) => Some l
      | _ => None
      end
  | None => None
  end.

(** White space, as the JSON scanner skips it, and nothing else. *)
Definition blank (s : pystr) : Prop := forallb is_ws s = true.

(** A line that starts with a multiple of four spaces and goes on with
    a character that is no space. *)
Definition indented (line : pystr) : Prop :=
  exists k c r, line = repeat 32%N (4 * k) ++ c :: r /\ c <> 32%N.

(** Every line of the text is. *)
Definition lines_indented (text : pystr) : Prop :=
  Forall indented (split 10 text).

(** ** Runs on concrete inputs *)

Module Runs.

Definition self0 : self_t :=
  {| api_key := u "k"; prompt_options := [(u "Formal", u "Be formal. [user_input]")] |}.

Definition lookup0 (opts : list (pystr * pystr)) (name : pystr) : option pystr :=
  dict_get name opts.

Definition body_segments : pystr :=
  u "{'text': 'hi bye', 'segments': [{'start': 65.25, 'text': ' hi'}, {'start': 0, 'text': 'bye '}]}"
    /. 39 ~> 34.

Definition ok200 (body : pystr) : post_result :=
  PostResponse {| status_code := 200; reason := u "OK"; text := body |}.

Definition world_of (answers : list post_result) : world :=
  {| isfile := fun _ => true;
     read_file := fun _ => Some [1; 2; 3]%N;
     post := fun n _ => nth n answers PostRaises |}.

Definition run (answers : list post_result) (preset user_input fmt : pystr) (n : Z) :=
  process_translation_request lookup0 self0 (world_of answers) (u "whisper-large-v3")
    (u "/tmp/a.b/clip.WAV") preset user_input fmt 0 n.

Definition too_many : response :=
  {| status_code := 429; reason := u "Too Many Requests"; text := u "slow down" |}.

(** The request of [run] for the default prompt without user input. *)
Definition request_of (api_response_format : pystr) (prompt : option pystr)
  : request :=
  build_request self0 (u "whisper-large-v3") (u "/tmp/a.b/clip.WAV")
    [1; 2; 3]%N api_response_format 0 prompt.

Definition body_empty_first : pystr :=
  u "{'segments': [{'start': 0.0, 'text': ' '}, {'start': 1.5, 'text': 'bye'}]}"
    /. 39 ~> 34.

Definition parsed_segments : list json :=
  [JObj [(u "start", JFloat 65.25); (u "text", JStr (u " hi"))];
   JObj [(u "start", JInt 0); (u "text", JStr (u "bye "))]].

Definition parsed_body : json :=
  JObj [(u "text", JStr (u "hi bye")); (u "segments", JArr parsed_segments)].

Definition parsed_empty_first : list json :=
  [JObj [(u "start", JFloat 0); (u "text", JStr (u " "))];
   JObj [(u "start", JFloat 1.5); (u "text", JStr (u "bye"))]].

Definition body_json : pystr :=
  u "{'text': 'one\u00e9', 'duration': 65.25, 'n': [1, -2, 1e3, null, true], 'text': 'hi'}"
    /. 39 ~> 34.

Definition parsed_json : json :=
  JObj [(u "text", JStr (u "hi")); (u "duration", JFloat 65.25);
        (u "n", JArr [JInt 1; JInt (-2); JFloat 1000; JNull; JBool true])].

End Runs.
Import Runs.

Module Class.

(** A module installed in /nodes: its configuration and its prompts. *)
Definition load0 (files : list pystr) : option (list (pystr * pystr)) :=
  match files with
  | [a; b] =>
      if PyStr.eqb a (u "/nodes/groq/DefaultPrompts_ALM_Translate.json")
         && PyStr.eqb b (u "/nodes/groq/UserPrompts_ALM_Translate.json")
      then Some (prompt_options self0)
      else None
  | _ => None
  end.

Definition config0 (path section option : pystr) : Datatypes.option pystr :=
  if PyStr.eqb path (u "/nodes/groq/GroqConfig.ini")
     && PyStr.eqb section (u "API") && PyStr.eqb option (u "key")
  then Some (api_key self0)
  else None.

Definition Groq0 (key : pystr) : bool := true.

Definition body_twice : pystr :=
  (u "{'text': 'a', 'text': 'b" ++ [233%N] ++ u "'}") /. 39 ~> 34.

End Class.
Import Class.

(** * Properties *)

(** ** Strings *)

Ltac not_in_literal :=
  vm_compute; let H := fresh in intros H; decompose [or] H; try discriminate; assumption.


Lemma eqb_eq a b : PyStr.eqb a b = true <-> a = b.
Proof. unfold eqb. destruct (list_eq_dec N.eq_dec a b); split; congruence. Qed.

Lemma eqb_refl a : PyStr.eqb a a = true.
Proof. apply eqb_eq. reflexivity. Qed.

Lemma eqb_neq a b : PyStr.eqb a b = false <-> a <> b.
Proof. unfold eqb. destruct (list_eq_dec N.eq_dec a b); split; congruence. Qed.

Lemma mem_In x l : mem x l = true <-> In x l.
Proof.
  unfold mem. rewrite existsb_exists. split.
  - intros [y [Hy He]]. apply eqb_eq in He. now subst.
  - intros H. exists x. split; [assumption | apply eqb_refl].
Qed.


Lemma split_nonempty c s : split c s <> [].
Proof.
  destruct s as [|x r]; simpl; [discriminate|].
  destruct (N.eqb x c); [discriminate|].
  destruct (split c r); discriminate.
Qed.

(** A string without the separator is the only piece. *)
Lemma split_without c s : ~ In c s -> split c s = [s].
Proof.
  induction s as [|x r IH]; intros Hn; simpl; [reflexivity|].
  destruct (N.eqb_spec x c) as [->|Hx].
  - exfalso. apply Hn. now left.
  - rewrite IH; [reflexivity|]. intros Hin. apply Hn. now right.
Qed.

(** Reading past a separator leaves the pieces of what follows at the
    end of the list. *)
Lemma split_after c a b :
  exists pre, pre <> [] /\ split c (a ++ c :: b) = pre ++ split c b.
Proof.
  induction a as [|x a IH]; simpl.
  - rewrite N.eqb_refl. exists [[]]. split; [discriminate | reflexivity].
  - destruct IH as [pre [Hpre ->]].
    destruct (N.eqb x c).
    + exists ([] :: pre). split; [discriminate | reflexivity].
    + destruct pre as [|p0 pre']; [congruence|]. simpl.
      exists ((x :: p0) :: pre'). split; [discriminate | reflexivity].
Qed.

Lemma last_app_nonempty {A} (l1 l2 : list A) d :
  l2 <> [] -> last (l1 ++ l2) d = last l2 d.
Proof.
  intros H. induction l1 as [|x l1 IH]; [reflexivity|].
  simpl. destruct (l1 ++ l2) eqn:E.
  - apply app_eq_nil in E. destruct E. contradiction.
  - exact IH.
Qed.

(** [path.split('.')[-1]] is what follows the last dot. *)
Lemma extension_after_last_dot stem ext :
  ~ In 46%N ext -> last_piece (split 46 (stem ++ 46%N :: ext)) = ext.
Proof.
  intros H. unfold last_piece.
  destruct (split_after 46 stem ext) as [pre [_ ->]].
  rewrite last_app_nonempty by apply split_nonempty.
  rewrite split_without by assumption. reflexivity.
Qed.

(** Without a dot it is the whole path. *)
Lemma extension_without_dot path :
  ~ In 46%N path -> last_piece (split 46 path) = path.
Proof. intros H. unfold last_piece. now rewrite split_without. Qed.

(** ** Trimming *)

Lemma lstrip_app_last a c :
  isspace c = false -> lstrip (a ++ [c]) = lstrip a ++ [c].
Proof.
  intros Hc. induction a as [|x a IH]; simpl.
  - now rewrite Hc.
  - destruct (isspace x); [exact IH | reflexivity].
Qed.

Lemma rstrip_cons c r : isspace c = false -> rstrip (c :: r) = c :: rstrip r.
Proof.
  intros Hc. unfold rstrip. simpl rev.
  rewrite lstrip_app_last by assumption.
  rewrite rev_app_distr. reflexivity.
Qed.

(** On a text that does not start with white space, [strip] only trims
    the end. *)
Lemma strip_is_rstrip c r :
  isspace c = false -> strip (c :: r) = rstrip (c :: r).
Proof.
  intros Hc. unfold strip. rewrite rstrip_cons by assumption.
  simpl. now rewrite Hc.
Qed.

Lemma strip_nil : strip [] = [].
Proof. reflexivity. Qed.

(** ** Decimal numerals *)

Lemma digits_fuel_val fuel : forall n acc,
  (n < 2 ^ N.of_nat fuel)%N ->
  fold_left (fun a c => 10 * a + (c - 48))%N (digits_fuel fuel n acc) 0%N
  = fold_left (fun a c => 10 * a + (c - 48))%N acc n.
Proof.
  induction fuel as [|k IH]; intros n acc Hn.
  - simpl in *. assert (n = 0%N) by lia. now subst.
  - cbn [digits_fuel].
    assert (Hd : (10 * (n / 10) + (48 + n mod 10 - 48) = n)%N).
    { assert (H10 : (10 <> 0)%N) by discriminate.
      pose proof (N.div_mod n 10 H10) as Hdm.
      set (q := (n / 10)%N) in *. set (r := (n mod 10)%N) in *. lia. }
    destruct (N.ltb_spec n 10) as [Hlt|Hge].
    + cbn [fold_left]. f_equal. rewrite N.mod_small by assumption. lia.
    + rewrite IH.
      * cbn [fold_left]. now rewrite Hd.
      * rewrite Nat2N.inj_succ, N.pow_succ_r' in Hn.
        apply N.Div0.div_lt_upper_bound. lia.
Qed.

Lemma lt_pow2_succ_log2 n : (n < 2 ^ N.of_nat (S (N.to_nat (N.log2 n))))%N.
Proof.
  rewrite Nat2N.inj_succ, N2Nat.id.
  destruct n as [|p]; [reflexivity|].
  apply N.log2_spec. reflexivity.
Qed.

(** Reading the numeral of [n] gives [n] back. *)
Lemma digits_val_str_of_N n : digits_val (str_of_N n) = n.
Proof.
  unfold digits_val, str_of_N. rewrite digits_fuel_val; [reflexivity|].
  apply lt_pow2_succ_log2.
Qed.

Lemma digits_fuel_digits fuel : forall n acc,
  Forall (fun c => is_digit c = true) acc ->
  Forall (fun c => is_digit c = true) (digits_fuel fuel n acc).
Proof.
  induction fuel as [|k IH]; intros n acc Ha; [exact Ha|].
  cbn [digits_fuel].
  assert (Hd : is_digit (48 + n mod 10) = true).
  { unfold is_digit.
    assert (Hr : (n mod 10 < 10)%N) by (apply N.mod_upper_bound; discriminate).
    set (r := (n mod 10)%N) in *.
    apply andb_true_iff. split; apply N.leb_le; lia. }
  destruct (n <? 10)%N; [now constructor|].
  apply IH. now constructor.
Qed.

Lemma str_of_N_digits n : Forall (fun c => is_digit c = true) (str_of_N n).
Proof. apply digits_fuel_digits. constructor. Qed.

Lemma digits_fuel_nonempty fuel n acc : digits_fuel (S fuel) n acc <> [].
Proof.
  revert n acc. induction fuel as [|k IH]; intros n acc.
  - simpl. destruct (n <? 10)%N; discriminate.
  - cbn [digits_fuel]. destruct (n <? 10)%N; [discriminate|].
    apply (IH (n / 10)%N).
Qed.

Lemma str_of_N_nonempty n : str_of_N n <> [].
Proof. apply digits_fuel_nonempty. Qed.

(** The numeral of an [int] is its sign and digits: no other character. *)
Lemma str_of_Z_chars z :
  Forall (fun c => is_digit c = true \/ c = 45%N) (str_of_Z z).
Proof.
  assert (H : Forall (fun c => is_digit c = true \/ c = 45%N)
                (str_of_N (Z.abs_N z))).
  { eapply Forall_impl; [|apply str_of_N_digits]. intros; now left. }
  unfold str_of_Z. destruct (z <? 0)%Z; [constructor; [now right|]|]; exact H.
Qed.

(** Only 200 is written 200. *)
Lemma str_of_Z_200 z : str_of_Z z = u "200" -> z = 200%Z.
Proof.
  unfold str_of_Z. destruct (Z.ltb_spec z 0) as [Hneg|Hpos]; [discriminate|].
  intros H. apply (f_equal digits_val) in H.
  rewrite digits_val_str_of_N in H.
  change (digits_val (u "200")) with 200%N in H. lia.
Qed.

(** Two strings cut at their first space have the same first part. *)
Lemma first_word_unique (a b r r' : pystr) :
  ~ In 32%N a -> ~ In 32%N b -> a ++ 32%N :: r = b ++ 32%N :: r' -> a = b.
Proof.
  revert b. induction a as [|x a IH]; intros [|y b] Ha Hb H; simpl in *.
  - reflexivity.
  - injection H as <- _. exfalso. apply Hb. now left.
  - injection H as -> _. exfalso. apply Ha. now left.
  - injection H as -> H. f_equal. apply IH; auto.
Qed.

(** The status line of a code other than 200 is not the line 200 OK. *)
Lemma status_line_not_ok z r :
  z <> 200%Z -> str_of_Z z ++ [32%N] ++ r <> u "200 OK".
Proof.
  intros Hz H. apply Hz, str_of_Z_200.
  apply (first_word_unique _ (u "200") r (u "OK")).
  - intros Hin. pose proof (str_of_Z_chars z) as Hc.
    rewrite Forall_forall in Hc. destruct (Hc _ Hin); discriminate.
  - not_in_literal.
  - exact H.
Qed.

(** ** Extension validation *)

Section Validation.

Variable get_prompt_content : list (pystr * pystr) -> pystr -> option pystr.
Variables (self : self_t) (w : world).
Variables (model preset user_input response_format : pystr).
Variables (temperature : float) (max_retries : Z).

Let run_on (file_path : pystr) : list event * outcome :=
  process_translation_request get_prompt_content self w model file_path
    preset user_input response_format temperature max_retries.

Lemma rejected_when_not_supported file_path :
  isfile w file_path = true ->
  ~ In (lower (last_piece (split 46 file_path))) SUPPORTED_AUDIO_FORMATS ->
  run_on file_path
  = ([], Returned (u "Unsupported audio format '"
                     ++ lower (last_piece (split 46 file_path)) ++ u "'.")
           false (u "400 Bad Request")).
Proof.
  intros Hf Hn. unfold run_on, process_translation_request.
  rewrite Hf. cbn [negb].
  destruct (mem (lower (last_piece (split 46 file_path))) SUPPORTED_AUDIO_FORMATS)
    eqn:E; [|reflexivity].
  apply mem_In in E. contradiction.
Qed.

Lemma past_validation_trace file_path :
  isfile w file_path = true ->
  In (lower (last_piece (split 46 file_path))) SUPPORTED_AUDIO_FORMATS ->
  exists tr o, run_on file_path = (EvOpen file_path :: tr, o).
Proof.
  intros Hf Hin. unfold run_on, process_translation_request.
  rewrite Hf. apply mem_In in Hin. rewrite Hin. simpl.
  destruct (read_file w file_path); [|eauto].
  destruct (build_prompt _ _ _ _); [|eauto].
  destruct (wire_format _); [|eauto].
  unfold after. simpl. eauto.
Qed.

(** C8. An existing file whose lowercased extension (what follows the
    last dot of the path) is not a supported format is answered with
    success false, status 400 Bad Request and a text that starts with
    Unsupported audio format; nothing is opened and nothing is posted. *)
Theorem unsupported_extension_rejected stem ext :
  isfile w (stem ++ 46%N :: ext) = true ->
  ~ In 46%N ext ->
  ~ In (lower ext) SUPPORTED_AUDIO_FORMATS ->
  run_on (stem ++ 46%N :: ext)
  = ([], Returned (u "Unsupported audio format" ++ u " '" ++ lower ext ++ u "'.")
           false (u "400 Bad Request")).
Proof.
  intros Hf Hd Hn.
  rewrite rejected_when_not_supported; trivial.
  - now rewrite extension_after_last_dot.
  - now rewrite extension_after_last_dot.
Qed.

(** C10. For an existing file whose path has no dot, the extension is
    the whole lowercased path, and the path passes the extension check
    exactly when that is one of the supported formats; otherwise it is
    rejected as unsupported. *)
Theorem dotless_path_extension path :
  isfile w path = true ->
  ~ In 46%N path ->
  lower (last_piece (split 46 path)) = lower path
  /\ (In (lower path) SUPPORTED_AUDIO_FORMATS
      <-> run_on path
          <> ([], Returned (u "Unsupported audio format '" ++ lower path ++ u "'.")
                    false (u "400 Bad Request"))).
Proof.
  intros Hf Hd. rewrite extension_without_dot by assumption.
  split; [reflexivity|]. split.
  - intros Hin.
    destruct (past_validation_trace path Hf) as [tr [o E]].
    + now rewrite extension_without_dot.
    + rewrite E. discriminate.
  - intros Hne.
    destruct (in_dec (list_eq_dec N.eq_dec) (lower path) SUPPORTED_AUDIO_FORMATS)
      as [Hin|Hn]; [assumption|].
    exfalso. apply Hne.
    rewrite rejected_when_not_supported; trivial.
    + now rewrite extension_without_dot.
    + now rewrite extension_without_dot.
Qed.

End Validation.

Lemma unsupported_extension_rejected_witness :
  process_translation_request lookup0 self0 (world_of []) (u "whisper-large-v3")
    (u "notes.v2.TXT") DEFAULT_PROMPT [] (u "json") 0 2
  = ([], Returned (u "Unsupported audio format 'txt'.") false (u "400 Bad Request")).
Proof.
  apply (unsupported_extension_rejected lookup0 self0 (world_of [])
           (u "whisper-large-v3") DEFAULT_PROMPT [] (u "json") 0 2
           (u "notes.v2") (u "TXT")).
  - reflexivity.
  - not_in_literal.
  - not_in_literal.
Defined.

Lemma dotless_path_extension_witness :
  In (lower (u "WAV")) SUPPORTED_AUDIO_FORMATS
  /\ process_translation_request lookup0 self0 (world_of []) (u "whisper-large-v3")
       (u "WAV") DEFAULT_PROMPT [] (u "json") 0 2
     <> ([], Returned (u "Unsupported audio format 'wav'.") false (u "400 Bad Request")).
Proof.
  assert (Hin : In (lower (u "WAV")) SUPPORTED_AUDIO_FORMATS)
    by (vm_compute; tauto).
  split; [exact Hin|].
  apply (dotless_path_extension lookup0 self0 (world_of [])
           (u "whisper-large-v3") DEFAULT_PROMPT [] (u "json") 0 2 (u "WAV")).
  - reflexivity.
  - not_in_literal.
  - exact Hin.
Defined.

(** ** Reading back what the encoder writes *)

(** *** Numbers *)

Lemma span_digits_app a rest :
  ends_digits rest ->
  span_digits (a ++ rest)
  = (fst (span_digits a), snd (span_digits a) ++ rest).
Proof.
  intros Hr. induction a as [|c a IH]; cbn [app span_digits fst snd].
  - destruct rest as [|c r]; [reflexivity|].
    cbn [span_digits]. cbn [ends_digits] in Hr. now rewrite Hr.
  - destruct (is_digit c); [|reflexivity].
    rewrite IH. now destruct (span_digits a).
Qed.




Section ReadBack.
Local Open Scope N_scope.



Lemma sign_part_app s rest :
  s <> [] ->
  sign_part (s ++ rest) = (fst (sign_part s), snd (sign_part s) ++ rest).
Proof.
  destruct s as [|c r]; [congruence|]. intros _. cbn [app sign_part].
  destruct (c =? 45)%N; reflexivity.
Qed.



(** *** Integers *)





(** *** Strings *)



Lemma scan_quote r acc : scan_string (34 :: r) acc = Some (rev acc, r).
Proof. reflexivity. Qed.

Lemma scan_plain c r acc :
  c <> 34 -> c <> 92 -> 32 <= c ->
  scan_string (c :: r) acc = scan_string r (c :: acc).
Proof.
  intros H1 H2 H3. cbn [scan_string].
  apply N.eqb_neq in H1, H2. rewrite H1, H2.
  apply N.ltb_ge in H3. now rewrite H3.
Qed.

Lemma scan_simple e x r acc :
  simple_escape e = Some x -> e <> 117 ->
  scan_string (92 :: e :: r) acc = scan_string r (x :: acc).
Proof.
  intros H1 H2. cbn [scan_string].
  change (92 =? 34) with false. change (92 =? 92) with true. cbv iota.
  apply N.eqb_neq in H2. now rewrite H2, H1.
Qed.

Lemma scan_u_single h1 h2 h3 h4 c1 t acc :
  hex4_val h1 h2 h3 h4 = Some c1 -> no_join c1 t ->
  scan_string (92 :: 117 :: h1 :: h2 :: h3 :: h4 :: t) acc
  = scan_string t (c1 :: acc).
Proof.
  intros Hh Hn. cbn [scan_string].
  change (92 =? 34) with false. change (92 =? 92) with true.
  change (117 =? 117) with true. cbv iota. rewrite Hh.
  destruct t as [|b [|v [|l1 [|l2 [|l3 [|l4 r3]]]]]]; try reflexivity.
  destruct (hex4_val l1 l2 l3 l4) as [c2|] eqn:Hl; [|reflexivity].
  destruct (is_high c1) eqn:Hc; [|reflexivity].
  cbn [andb].
  rewrite (Hn Hc b v l1 l2 l3 l4 r3 c2 eq_refl Hl). reflexivity.
Qed.

Lemma scan_u_pair h1 h2 h3 h4 l1 l2 l3 l4 c1 c2 t acc :
  hex4_val h1 h2 h3 h4 = Some c1 -> hex4_val l1 l2 l3 l4 = Some c2 ->
  is_high c1 = true -> is_low c2 = true ->
  scan_string (92 :: 117 :: h1 :: h2 :: h3 :: h4
                 :: 92 :: 117 :: l1 :: l2 :: l3 :: l4 :: t) acc
  = scan_string t (join_surrogates c1 c2 :: acc).
Proof.
  intros Hh Hl H1 H2. cbn [scan_string].
  change (92 =? 34) with false. change (92 =? 92) with true.
  change (117 =? 117) with true. cbv iota. rewrite Hh, Hl, H1, H2.
  reflexivity.
Qed.





(** *** Values *)

Lemma json_induction (P : json -> Prop) :
  P JNull -> (forall b, P (JBool b)) -> (forall z, P (JInt z)) ->
  (forall f, P (JFloat f)) -> (forall s, P (JStr s)) ->
  (forall l, Forall P l -> P (JArr l)) ->
  (forall kvs, Forall (fun kv => P (snd kv)) kvs -> P (JObj kvs)) ->
  forall v, P v.
Proof.
  intros Hn Hb Hi Hf Hs Ha Ho.
  fix IH 1.
  intros [| b | z | f | s | l | kvs];
    [exact Hn | apply Hb | apply Hi | apply Hf | apply Hs | | ].
  - apply Ha. induction l as [|x l IHl]; constructor; [apply IH | exact IHl].
  - apply Ho. induction kvs as [|[k x] kvs IHl]; constructor;
      [apply IH | exact IHl].
Qed.





















Lemma join_cons2 sep p q r : join sep (p :: q :: r) = p ++ sep ++ join sep (q :: r).
Proof. reflexivity. Qed.










#[local] Close Scope N_scope.





#[local] Open Scope N_scope.

(** *** What the parser builds *)









(** One escape with four hexadecimal digits: it stands for its own
    character when nothing joins it, or it is the first half of a pair. *)
Lemma scan_u_step h1 h2 h3 h4 r2 acc c1 :
  hex4_val h1 h2 h3 h4 = Some c1 ->
  (scan_string (92 :: 117 :: h1 :: h2 :: h3 :: h4 :: r2) acc
   = scan_string r2 (c1 :: acc)
   /\ no_join c1 r2)
  \/ exists l1 l2 l3 l4 r3 c2,
       r2 = 92 :: 117 :: l1 :: l2 :: l3 :: l4 :: r3
       /\ hex4_val l1 l2 l3 l4 = Some c2
       /\ is_high c1 = true /\ is_low c2 = true
       /\ scan_string (92 :: 117 :: h1 :: h2 :: h3 :: h4 :: r2) acc
          = scan_string r3 (join_surrogates c1 c2 :: acc).
Proof.
  intros Hh. cbn [scan_string].
  change (92 =? 34) with false. change (92 =? 92) with true.
  change (117 =? 117) with true. cbv iota. rewrite Hh.
  destruct r2 as [|b [|v [|l1 [|l2 [|l3 [|l4 r3]]]]]];
    try (left; split; [reflexivity | intros _ ? ? ? ? ? ? ? ? E; discriminate E]).
  destruct (hex4_val l1 l2 l3 l4) as [c2|] eqn:Hl.
  2:{ left. split; [reflexivity|].
      intros _ ? ? ? ? ? ? ? ? E Hl'. injection E as <- <- <- <- <- <- <-.
      congruence. }
  destruct (is_high c1 && (b =? 92) && (v =? 117) && is_low c2) eqn:Ej.
  - right. apply andb_true_iff in Ej. destruct Ej as [Ej Hlow].
    apply andb_true_iff in Ej. destruct Ej as [Ej Hv].
    apply andb_true_iff in Ej. destruct Ej as [Hhigh Hb].
    apply N.eqb_eq in Hb, Hv. subst b v.
    exists l1, l2, l3, l4, r3, c2. repeat split; trivial.
  - left. split; [reflexivity|].
    intros Hhigh ? ? ? ? ? ? ? ? E Hl'. injection E as <- <- <- <- <- <- <-.
    rewrite Hl in Hl'. injection Hl' as <-.
    rewrite Hhigh in Ej. exact Ej.
Qed.









Lemma suffix_refl s : suffix s s.
Proof. now exists []. Qed.

Lemma suffix_cons c s t : suffix s t -> suffix (c :: s) t.
Proof. intros [p ->]. now exists (c :: p). Qed.



Lemma span_digits_suffix s : suffix s (snd (span_digits s)).
Proof.
  induction s as [|c s IH]; cbn [span_digits]; [apply suffix_refl|].
  destruct (is_digit c); [|apply suffix_refl].
  destruct (span_digits s). cbn [snd] in *. now apply suffix_cons.
Qed.



Lemma skipn_suffix n s : suffix s (skipn n s).
Proof. exists (firstn n s). symmetry. apply firstn_skipn. Qed.


Lemma expect_suffix lit v s v' t :
  expect lit v s = Some (v', t) -> v' = v /\ suffix s t.
Proof.
  unfold expect. destruct (startswith lit s); [|discriminate].
  intros [= <- <-]. split; [reflexivity | apply skipn_suffix].
Qed.

Lemma dict_set_keys {A} (k : pystr) (v : A) acc :
  map fst (dict_set k v acc) = map fst acc
  \/ (~ In k (map fst acc)
      /\ map fst (dict_set k v acc) = map fst acc ++ [k]).
Proof.
  induction acc as [|[k' v'] acc IH]; cbn [dict_set map fst app].
  - right. split; [tauto | reflexivity].
  - destruct (PyStr.eqb k k') eqn:E; [now left|].
    apply eqb_neq in E. cbn [map fst].
    destruct IH as [-> | [Hn ->]]; [now left|].
    right. split; [|reflexivity]. cbn [In]. intros [H|H]; congruence.
Qed.

Lemma dict_set_entries {A} (P : pystr * A -> Prop) (k : pystr) (v : A) acc :
  Forall P acc -> (forall k', k' = k -> P (k', v)) ->
  Forall P (dict_set k v acc).
Proof.
  intros Ha Hk. induction Ha as [|[k' v'] acc Hx Hacc IH]; cbn [dict_set].
  - constructor; [now apply Hk | constructor].
  - destruct (PyStr.eqb k k') eqn:E.
    + apply eqb_eq in E. constructor; [now apply Hk | assumption].
    + constructor; assumption.
Qed.






End ReadBack.

(** ** Response shaping: which branches return *)

(** Comparisons of literals are decided by evaluation. *)
Ltac eval_tests :=
  repeat match goal with
  | |- context [PyStr.eqb ?a ?b] =>
      let v := eval vm_compute in (PyStr.eqb a b) in
      match v with true => idtac | false => idtac end;
      change (PyStr.eqb a b) with v
  | |- context [mem ?a ?l] =>
      let v := eval vm_compute in (mem a l) in
      match v with true => idtac | false => idtac end;
      change (mem a l) with v
  end; cbv iota.

Lemma wire_format_cases response_format api_response_format :
  wire_format response_format = Some api_response_format ->
  (api_response_format = response_format
   /\ In response_format [u "json"; u "verbose_json"; u "text"])
  \/ (api_response_format = u "verbose_json"
      /\ In response_format [u "text_with_timestamps"; u "text_with_linebreaks"]).
Proof.
  unfold wire_format.
  destruct (mem response_format [u "json"; u "verbose_json"; u "text"]) eqn:E1.
  - intros [= <-]. left. split; [reflexivity | now apply mem_In].
  - destruct (mem response_format
                [u "text_with_timestamps"; u "text_with_linebreaks"]) eqn:E2;
      [|intros X; discriminate X].
    intros [= <-]. right. split; [reflexivity | now apply mem_In].
Qed.

(** With the wire format the method derives, the shaping of a 200
    answer never reaches the end of the branch without returning. *)
Lemma shape_no_fall_through response_format api_response_format body :
  wire_format response_format = Some api_response_format ->
  shape_response response_format api_response_format body <> ShFallThrough.
Proof.
  intros H. apply wire_format_cases in H.
  destruct H as [[-> H] | [-> H]]; simpl in H;
    decompose [or] H; try contradiction; subst;
    unfold shape_response; eval_tests;
    try discriminate;
    destruct (loads body); try discriminate;
    match goal with
    | |- context [segments_text ?l ?j] => destruct (segments_text l j); discriminate
    end.
Qed.

(** A shaped answer carries success exactly with the status 200 OK. *)
Lemma shape_success_iff response_format api_response_format body t ok st :
  shape_response response_format api_response_format body = ShReturn t ok st ->
  (ok = true <-> st = u "200 OK").
Proof.
  unfold shape_response.
  repeat match goal with
  | |- context [if ?c then _ else _] => destruct c
  | |- context [match loads ?b with _ => _ end] => destruct (loads b)
  | |- context [match segments_text ?l ?j with _ => _ end] =>
      destruct (segments_text l j)
  end;
  intros [= <- <- <-] || discriminate;
  (split; intros X; [reflexivity || discriminate X
                    | reflexivity || (vm_compute in X; discriminate X)]).
Qed.

(** ** The retry loop *)

Section Loop.

Variables (w : world) (req : request).
Variables (response_format api_response_format : pystr).

Let loop := retry_loop w req response_format api_response_format.
Let raises := attempt_raises w req response_format api_response_format.

Lemma loop_step_raises n i :
  raises i -> loop (S n) i = after [EvPost req; EvSleep 2] (loop n (S i)).
Proof.
  unfold raises, attempt_raises, loop. intros [H | [r [H [H200 Hs]]]]; simpl.
  - now rewrite H.
  - rewrite H, H200, Hs. reflexivity.
Qed.

(** [k] attempts that raise cost a POST and a sleep of two seconds each
    and lead to the next attempt. *)
Lemma loop_after_raises k : forall n i,
  (forall j, j < k -> raises (i + j)) ->
  loop (k + n) i = after (raised_attempts req k) (loop n (i + k)).
Proof.
  induction k as [|k IH]; intros n i H.
  - simpl. rewrite Nat.add_0_r. unfold after. simpl. now destruct (loop n i).
  - change (S k + n) with (S (k + n)).
    rewrite loop_step_raises.
    2:{ specialize (H 0). rewrite Nat.add_0_r in H. apply H. lia. }
    rewrite IH.
    2:{ intros j Hj. replace (S i + j) with (i + S j) by lia. apply H. lia. }
    replace (S i + k) with (i + S k) by lia.
    unfold after, raised_attempts. simpl. reflexivity.
Qed.


Lemma loop_posts_bound n : forall i, count_posts (fst (loop n i)) <= n.
Proof.
  unfold loop.
  induction n as [|n IH]; intros i; simpl; [apply Nat.le_refl|].
  specialize (IH (S i)).
  destruct (post w i req) as [|r]; [unfold count_posts in *; simpl; lia|].
  destruct (status_code r =? 200)%Z; [|unfold count_posts; simpl; lia].
  destruct (shape_response _ _ _); unfold count_posts in *; simpl; lia.
Qed.

Lemma loop_sleeps_two n : forall i s,
  In (EvSleep s) (fst (loop n i)) -> s = 2%Z.
Proof.
  unfold loop.
  induction n as [|n IH]; intros i s; simpl; [tauto|].
  specialize (IH (S i) s).
  destruct (post w i req) as [|r].
  - simpl. intros [H|[H|H]]; [discriminate | congruence | auto].
  - destruct (status_code r =? 200)%Z.
    + destruct (shape_response _ _ _); simpl.
      * intros [H|[]]. discriminate.
      * intros [H|[H|H]]; [discriminate | congruence | auto].
      * intros [H|H]; [discriminate | auto].
    + simpl. intros [H|[]]. discriminate.
Qed.

(** The event after the POST of an attempt in which [requests.post]
    raised is a sleep of two seconds. *)
Lemma loop_sleep_follows n : forall i pre rest,
  fst (loop n i) = pre ++ EvPost req :: rest ->
  post w (i + count_posts pre) req = PostRaises ->
  exists rest', rest = EvSleep 2 :: rest'.
Proof.
  unfold loop.
  induction n as [|n IH]; intros i pre rest; simpl.
  - intros H. destruct pre; discriminate.
  - specialize (IH (S i)).
    destruct (post w i req) as [|r] eqn:Hp.
    + simpl. intros H Hr. destruct pre as [|e pre].
      * simpl in H. injection H as <-. eauto.
      * simpl in H. injection H as <- H.
        destruct pre as [|e pre]; [discriminate|].
        simpl in H. injection H as <- H.
        apply (IH _ _ H).
        unfold count_posts in *. simpl in Hr.
        now replace (S i + _) with (i + S (List.length (filter
          (fun e => match e with EvPost _ => true | _ => false end) pre))) by lia.
    + assert (Hstop : forall pre rest,
                [EvPost req] = pre ++ EvPost req :: rest ->
                post w (i + count_posts pre) req = PostRaises -> False).
      { intros [|e p] t H Hr.
        - unfold count_posts in Hr. simpl in Hr. rewrite Nat.add_0_r in Hr.
          congruence.
        - simpl in H. injection H as _ H. destruct p; discriminate. }
      assert (Hnext : forall tail,
                fst (retry_loop w req response_format api_response_format n (S i))
                = tail ->
                forall pre rest, EvPost req :: tail = pre ++ EvPost req :: rest ->
                post w (i + count_posts pre) req = PostRaises ->
                exists rest', rest = EvSleep 2 :: rest').
      { intros tail Ht [|e p] t H Hr.
        - unfold count_posts in Hr. simpl in Hr. rewrite Nat.add_0_r in Hr.
          congruence.
        - simpl in H. injection H as <- H. subst tail.
          apply (IH _ _ H).
          unfold count_posts in *. simpl in Hr.
          now replace (S i + _) with (i + S (List.length (filter
            (fun e => match e with EvPost _ => true | _ => false end) p))) by lia. }
      destruct (status_code r =? 200)%Z.
      * destruct (shape_response _ _ _); simpl.
        -- intros H Hr. exfalso. eapply Hstop; eauto.
        -- intros H Hr. destruct pre as [|e pre].
           ++ unfold count_posts in Hr. simpl in Hr. rewrite Nat.add_0_r in Hr.
              congruence.
           ++ simpl in H. injection H as <- H.
              destruct pre as [|e pre]; [discriminate|].
              simpl in H. injection H as <- H.
              apply (IH _ _ H).
              unfold count_posts in *. simpl in Hr.
              now replace (S i + _) with (i + S (List.length (filter
                (fun e => match e with EvPost _ => true | _ => false end) pre))) by lia.
        -- intros H Hr. eapply Hnext; eauto.
      * simpl. intros H Hr. exfalso. eapply Hstop; eauto.
Qed.

Lemma count_posts_cons_post r tr :
  count_posts (EvPost r :: tr) = S (count_posts tr).
Proof. reflexivity. Qed.

Lemma count_posts_cons_sleep z tr : count_posts (EvSleep z :: tr) = count_posts tr.
Proof. reflexivity. Qed.

Lemma count_posts_cons_open f tr : count_posts (EvOpen f :: tr) = count_posts tr.
Proof. reflexivity. Qed.

(** An attempt is followed by another one only if it ended in the
    [except] clause. *)
Lemma loop_retries_only_after_raise n :
  wire_format response_format = Some api_response_format ->
  forall i j, S j < count_posts (fst (loop n i)) -> raises (i + j).
Proof.
  intros Hw. unfold loop, raises, attempt_raises.
  induction n as [|n IH]; intros i j; simpl.
  - unfold count_posts. simpl. lia.
  - specialize (IH (S i)).
    destruct (post w i req) as [|r] eqn:Hp.
    + simpl. rewrite count_posts_cons_post, count_posts_cons_sleep. intros H.
      destruct j as [|j].
      * rewrite Nat.add_0_r. now left.
      * replace (i + S j) with (S i + j) by lia. apply IH. lia.
    + destruct (Z.eqb_spec (status_code r) 200) as [H200|H200].
      * destruct (shape_response response_format api_response_format (text r))
          eqn:Hs; simpl.
        -- unfold count_posts. simpl. lia.
        -- rewrite count_posts_cons_post, count_posts_cons_sleep. intros H.
           destruct j as [|j].
           ++ rewrite Nat.add_0_r. right. exists r. auto.
           ++ replace (i + S j) with (S i + j) by lia. apply IH. lia.
        -- exfalso. revert Hs. now apply shape_no_fall_through.
      * simpl. unfold count_posts. simpl. lia.
Qed.

Lemma loop_stops_on_error_status n i r :
  post w i req = PostResponse r -> status_code r <> 200%Z ->
  loop (S n) i
  = ([EvPost req],
     Returned (text r) false (str_of_Z (status_code r) ++ [32%N] ++ reason r)).
Proof.
  intros Hp H200. unfold loop. simpl. rewrite Hp.
  destruct (Z.eqb_spec (status_code r) 200); [contradiction | reflexivity].
Qed.

Lemma loop_stops_on_shaped n i r t ok st :
  post w i req = PostResponse r -> status_code r = 200%Z ->
  shape_response response_format api_response_format (text r) = ShReturn t ok st ->
  loop (S n) i = ([EvPost req], Returned t ok st).
Proof.
  intros Hp H200 Hs. unfold loop. simpl. rewrite Hp, H200, Hs. reflexivity.
Qed.

Lemma loop_exhausted n :
  (forall j, j < n -> raises j) ->
  loop n 0 = (raised_attempts req n, FAILED).
Proof.
  intros H. replace n with (n + 0) at 1 by lia.
  rewrite loop_after_raises by exact H.
  unfold loop, after. simpl. now rewrite app_nil_r.
Qed.

(** Success is reported exactly with the status 200 OK. *)
Lemma loop_success_iff n : forall i t ok st,
  snd (loop n i) = Returned t ok st -> (ok = true <-> st = u "200 OK").
Proof.
  unfold loop.
  induction n as [|n IH]; intros i t ok st; simpl.
  - intros [= <- <- <-]. split; intros X; [discriminate X|].
    vm_compute in X. discriminate X.
  - specialize (IH (S i) t ok st).
    destruct (post w i req) as [|r]; [exact IH|].
    destruct (Z.eqb_spec (status_code r) 200) as [H200|H200].
    + destruct (shape_response response_format api_response_format (text r))
        eqn:Hs; simpl; try exact IH.
      intros [= <- <- <-]. eapply shape_success_iff; eauto.
    + simpl. intros [= <- <- <-]. split; intros X; [discriminate X|].
      exfalso. revert X. now apply status_line_not_ok.
Qed.

End Loop.

(** ** The prompt *)

(** The default prompt ends with its only placeholder: substitution
    puts the text in its place. *)
Lemma replace_in_default x :
  replace (u "[user_input]") x DEFAULT_PROMPT
  = u "Translate the audio file using the style and guidance of " ++ x.
Proof.
  unfold replace, DEFAULT_PROMPT. cbn. now rewrite app_nil_r.
Qed.

Lemma prompt_field self model file_path audio api temperature prompt :
  dict_get (u "prompt")
    (data (build_request self model file_path audio api temperature prompt))
  = match prompt with
    | Some p => if truthy p then Some p else None
    | None => None
    end.
Proof.
  unfold build_request. cbn [data app dict_get]. eval_tests.
  destruct prompt as [p|]; [|reflexivity].
  destruct (truthy p); [|reflexivity].
  cbn [dict_get]. now rewrite eqb_refl.
Qed.

(** ** The method as a whole *)

Section Whole.

Variable get_prompt_content : list (pystr * pystr) -> pystr -> option pystr.
Variables (self : self_t) (w : world).
Variables (model file_path preset user_input response_format : pystr).
Variables (temperature : float) (max_retries : Z).

Let result : list event * outcome :=
  process_translation_request get_prompt_content self w model file_path
    preset user_input response_format temperature max_retries.

Let ready : option (request * pystr) :=
  prepared get_prompt_content self w model file_path preset user_input
    response_format temperature.

(** Once lines 78-113 are passed, the answer is the answer of the loop. *)
Lemma process_prepared req api_response_format :
  ready = Some (req, api_response_format) ->
  result = after [EvOpen file_path]
             (retry_loop w req response_format api_response_format
                (Z.to_nat max_retries) 0)
  /\ wire_format response_format = Some api_response_format.
Proof.
  unfold ready, prepared, result, process_translation_request.
  destruct (isfile w file_path); [|discriminate].
  destruct (mem _ SUPPORTED_AUDIO_FORMATS); [|discriminate]. simpl.
  destruct (read_file w file_path); [|discriminate].
  destruct (build_prompt _ _ _ _); [|discriminate].
  destruct (wire_format response_format); [|discriminate].
  intros [= <- <-]. split; reflexivity.
Qed.


(** The failures met before the loop, each with its triple. *)
Lemma missing_file_triple :
  isfile w file_path = false ->
  result = ([], Returned (u "File not found.") false (u "400 Bad Request")).
Proof.
  intros H. unfold result, process_translation_request. now rewrite H.
Qed.

Lemma read_error_triple :
  isfile w file_path = true ->
  In (lower (last_piece (split 46 file_path))) SUPPORTED_AUDIO_FORMATS ->
  read_file w file_path = None ->
  result
  = ([EvOpen file_path],
     Returned (u "Error reading audio file.") false (u "400 Bad Request")).
Proof.
  intros Hf Hin Hr. unfold result, process_translation_request.
  apply mem_In in Hin. now rewrite Hf, Hin, Hr.
Qed.

Lemma unknown_format_triple audio_data prompt :
  isfile w file_path = true ->
  In (lower (last_piece (split 46 file_path))) SUPPORTED_AUDIO_FORMATS ->
  read_file w file_path = Some audio_data ->
  build_prompt get_prompt_content self preset user_input = Some prompt ->
  wire_format response_format = None ->
  result
  = ([EvOpen file_path],
     Returned (u "Unknown response format.") false (u "400 Bad Request")).
Proof.
  intros Hf Hin Hr Hp Hw. unfold result, process_translation_request.
  apply mem_In in Hin. now rewrite Hf, Hin, Hr, Hp, Hw.
Qed.


(** C9. On every return path, success is true exactly when the status
    string is 200 OK. *)
Theorem success_iff_status_200_ok t ok st :
  snd result = Returned t ok st -> (ok = true <-> st = u "200 OK").
Proof.
  unfold result, process_translation_request.
  destruct (isfile w file_path); cbn [negb].
  2:{ cbn [snd]. intros [= <- <- <-]. split; intros X; [discriminate X|].
      vm_compute in X. discriminate X. }
  destruct (mem _ SUPPORTED_AUDIO_FORMATS); cbn [negb].
  2:{ cbn [snd]. intros [= <- <- <-]. split; intros X; [discriminate X|].
      vm_compute in X. discriminate X. }
  destruct (read_file w file_path).
  2:{ cbn [snd]. intros [= <- <- <-]. split; intros X; [discriminate X|].
      vm_compute in X. discriminate X. }
  destruct (build_prompt _ _ _ _); [|discriminate].
  destruct (wire_format response_format).
  2:{ cbn [snd]. intros [= <- <- <-]. split; intros X; [discriminate X|].
      vm_compute in X. discriminate X. }
  cbn [snd after]. apply loop_success_iff.
Qed.

(** C2, as the code has it. In the loop, an answer with a status other
    than 200 ends the call at once with the body, false and the status
    line made of the code and the reason; no attempt follows it.  An
    attempt is followed by another one only when it ended in the except
    clause (the request raised, or the shaping of a 200 answer did),
    never after an answer with another status. *)
Theorem error_status_returns_without_retry req api_response_format :
  ready = Some (req, api_response_format) ->
  (forall k r,
      k < Z.to_nat max_retries ->
      (forall j, j < k ->
         attempt_raises w req response_format api_response_format j) ->
      post w k req = PostResponse r ->
      status_code r <> 200%Z ->
      result
      = (EvOpen file_path :: raised_attempts req k ++ [EvPost req],
         Returned (text r) false
           (str_of_Z (status_code r) ++ [32%N] ++ reason r)))
  /\ (forall j,
        S j < count_posts (fst result) ->
        attempt_raises w req response_format api_response_format j
        /\ forall r, post w j req = PostResponse r -> status_code r = 200%Z).
Proof.
  intros Hr. destruct (process_prepared _ _ Hr) as [-> Hw]. split.
  - intros k r Hk Hraise Hp H200.
    replace (Z.to_nat max_retries) with (k + S (Z.to_nat max_retries - S k)) by lia.
    rewrite loop_after_raises by exact Hraise.
    rewrite (loop_stops_on_error_status _ _ _ _ _ _ r) by assumption.
    reflexivity.
  - intros j Hj. unfold after in Hj. cbn [fst app] in Hj.
    rewrite count_posts_cons_open in Hj.
    pose proof (loop_retries_only_after_raise _ _ _ _ _ Hw 0 j Hj) as Ha.
    split; [exact Ha|].
    intros r Hp. destruct Ha as [Ha | [r' [Ha [H200 _]]]]; simpl in Ha; congruence.
Qed.

(** C3. At most [max_retries] requests are posted, one after the
    other; an attempt in which the request raises is followed by a sleep
    of two seconds, and no sleep has another length; when every attempt
    raises the answer is the triple Failed after all retries; when an
    attempt is answered after earlier ones raised, the call returns its
    result and posts nothing more. *)
Theorem retry_policy req api_response_format :
  ready = Some (req, api_response_format) ->
  count_posts (fst result) <= Z.to_nat max_retries
  /\ (forall s, In (EvSleep s) (fst result) -> s = 2%Z)
  /\ (forall pre rest,
        fst result = pre ++ EvPost req :: rest ->
        post w (count_posts pre) req = PostRaises ->
        exists rest', rest = EvSleep 2 :: rest')
  /\ ((forall j, j < Z.to_nat max_retries -> post w j req = PostRaises) ->
      result
      = (EvOpen file_path :: raised_attempts req (Z.to_nat max_retries),
         Returned (u "Failed after all retries.") false
           (u "Failed after all retries")))
  /\ (forall k r t ok st,
        k < Z.to_nat max_retries ->
        (forall j, j < k -> post w j req = PostRaises) ->
        post w k req = PostResponse r ->
        status_code r = 200%Z ->
        shape_response response_format api_response_format (text r)
        = ShReturn t ok st ->
        result
        = (EvOpen file_path :: raised_attempts req k ++ [EvPost req],
           Returned t ok st)).
Proof.
  intros Hr. destruct (process_prepared _ _ Hr) as [-> Hw].
  unfold after. cbn [fst snd app].
  split; [|split; [|split; [|split]]].
  - rewrite count_posts_cons_open. apply loop_posts_bound.
  - intros s [H|H]; [discriminate|]. eapply loop_sleeps_two; eauto.
  - intros [|e pre] rest H Hp; [discriminate|].
    simpl in H. injection H as <- H.
    rewrite count_posts_cons_open in Hp.
    eapply loop_sleep_follows; eauto.
  - intros H. rewrite loop_exhausted; [reflexivity|].
    intros j Hj. left. auto.
  - intros k r t ok st Hk Hraise Hp H200 Hs.
    replace (Z.to_nat max_retries) with (k + S (Z.to_nat max_retries - S k)) by lia.
    rewrite loop_after_raises by (intros j Hj; left; simpl; auto).
    rewrite (loop_stops_on_shaped _ _ _ _ _ _ r t ok st) by assumption.
    reflexivity.
Qed.

End Whole.

Section Prompt.

Variable get_prompt_content : list (pystr * pystr) -> pystr -> option pystr.
Variables (self : self_t) (w : world).
Variables (model file_path preset user_input response_format : pystr).
Variable temperature : float.

Let ready : option (request * pystr) :=
  prepared get_prompt_content self w model file_path preset user_input
    response_format temperature.

(** C6. The two branches of the prompt differ.  With the default
    prompt as preset, the prompt sent is the default prompt with the
    trimmed user input in place of the placeholder, and no prompt is
    sent when the user input is empty.  With any other preset, the
    template found for it has the placeholder replaced by the trimmed
    user input whatever that is, the empty string included. *)
Theorem prompt_construction req api_response_format :
  ready = Some (req, api_response_format) ->
  (preset = DEFAULT_PROMPT -> user_input = [] ->
     build_prompt get_prompt_content self preset user_input = Some None
     /\ dict_get (u "prompt") (data req) = None)
  /\ (preset = DEFAULT_PROMPT -> user_input <> [] ->
        dict_get (u "prompt") (data req)
        = Some (u "Translate the audio file using the style and guidance of "
                  ++ strip user_input))
  /\ (preset <> DEFAULT_PROMPT ->
        exists prompt_template,
          get_prompt_content (prompt_options self) preset = Some prompt_template
          /\ build_prompt get_prompt_content self preset user_input
             = Some (Some (replace (u "[user_input]") (strip user_input)
                             prompt_template))
          /\ dict_get (u "prompt") (data req)
             = if truthy (replace (u "[user_input]") (strip user_input)
                            prompt_template)
               then Some (replace (u "[user_input]") (strip user_input)
                            prompt_template)
               else None).
Proof.
  unfold ready, prepared.
  destruct (isfile w file_path && mem _ SUPPORTED_AUDIO_FORMATS); [|discriminate].
  destruct (read_file w file_path) as [audio|]; [|discriminate].
  destruct (build_prompt get_prompt_content self preset user_input)
    as [prompt|] eqn:Hb; [|discriminate].
  destruct (wire_format response_format) as [api|]; [|discriminate].
  intros [= <- <-]. rewrite prompt_field.
  unfold build_prompt in Hb.
  split; [|split].
  - intros -> ->. rewrite eqb_refl in Hb. cbn [truthy] in Hb.
    injection Hb as <-. split; reflexivity.
  - intros -> Hne. rewrite eqb_refl in Hb.
    destruct user_input as [|c ui]; [contradiction|]. cbn [truthy] in Hb.
    injection Hb as <-. rewrite replace_in_default. reflexivity.
  - intros Hne. apply eqb_neq in Hne. rewrite Hne in Hb.
    destruct (get_prompt_content (prompt_options self) preset) as [tpl|];
      [|discriminate].
    injection Hb as <-. exists tpl. repeat split; reflexivity.
Qed.

End Prompt.

(** ** Time stamps *)

Lemma digits_val_zeros k ds : digits_val (repeat 48%N k ++ ds) = digits_val ds.
Proof.
  unfold digits_val. induction k as [|k IH]; [reflexivity|].
  cbn [repeat app fold_left]. exact IH.
Qed.

(** Padding does not change the number written. *)
Lemma format_0d_value w z :
  (0 <= z)%Z -> digits_val (format_0d w z) = Z.to_N z.
Proof.
  intros Hz. unfold format_0d.
  destruct (Z.ltb_spec z 0); [lia|].
  rewrite digits_val_zeros, digits_val_str_of_N. lia.
Qed.

Lemma digits_fuel_length fuel : forall n acc w,
  (0 < w)%nat -> (n < 10 ^ N.of_nat w)%N ->
  (List.length (digits_fuel fuel n acc) <= w + List.length acc)%nat.
Proof.
  induction fuel as [|k IH]; intros n acc w Hw Hn; cbn [digits_fuel]; [lia|].
  destruct (N.ltb_spec n 10) as [Hlt|Hge]; [cbn [List.length]; lia|].
  destruct w as [|[|w]]; [lia | cbn in Hn; lia |].
  specialize (IH (n / 10)%N ((48 + n mod 10)%N :: acc) (S w)).
  cbn [List.length] in IH.
  assert (Hq : (n / 10 < 10 ^ N.of_nat (S w))%N).
  { apply N.Div0.div_lt_upper_bound.
    rewrite <- N.pow_succ_r', <- Nat2N.inj_succ. exact Hn. }
  specialize (IH ltac:(lia) Hq). lia.
Qed.

(** A number below ten to the [w] is written on exactly [w] digits. *)
Lemma format_0d_width w z :
  (0 < w)%nat -> (0 <= z < 10 ^ Z.of_nat w)%Z ->
  List.length (format_0d w z) = w.
Proof.
  intros Hw Hz. unfold format_0d.
  destruct (Z.ltb_spec z 0); [lia|].
  rewrite length_app, repeat_length.
  assert (Hl : (List.length (str_of_N (Z.abs_N z)) <= w)%nat).
  { pose proof (digits_fuel_length (S (N.to_nat (N.log2 (Z.abs_N z))))
                  (Z.abs_N z) [] w Hw) as Hb.
    cbn [List.length] in Hb. rewrite Nat.add_0_r in Hb. apply Hb.
    assert (E : (10 ^ N.of_nat w)%N = Z.to_N (10 ^ Z.of_nat w)).
    { rewrite <- (N2Z.id (10 ^ N.of_nat w)). f_equal.
      rewrite N2Z.inj_pow. now rewrite nat_N_Z. }
    rewrite E. lia. }
  unfold str_of_N in *. lia.
Qed.

(** Minutes below a hundred, seconds and milliseconds in their range:
    the stamp has the shape [MM:SS.mmm] between brackets. *)
Lemma timestamp_shape mi se ms :
  (0 <= mi < 100)%Z -> (0 <= se < 60)%Z -> (0 <= ms < 1000)%Z ->
  exists mm ss mmm,
    timestamp mi se ms = [91%N] ++ mm ++ [58%N] ++ ss ++ [46%N] ++ mmm ++ [93%N]
    /\ List.length mm = 2%nat /\ List.length ss = 2%nat
    /\ List.length mmm = 3%nat
    /\ digits_val mm = Z.to_N mi /\ digits_val ss = Z.to_N se
    /\ digits_val mmm = Z.to_N ms.
Proof.
  intros Hmi Hse Hms.
  exists (format_0d 2 mi), (format_0d 2 se), (format_0d 3 ms).
  split; [reflexivity|].
  repeat split;
    try (apply format_0d_width; [lia | cbn; lia]);
    apply format_0d_value; lia.
Qed.


(** [int()] on a float drops the fraction: the magnitude is rounded
    down, whatever the sign. *)
Lemma trunc_to_Z_toward_zero f s m e z :
  Prim2SF f = S754_finite s m e ->
  trunc_to_Z f = Some z ->
  exists q, z = (if s then - q else q)%Z
    /\ (0 <= q)%Z
    /\ ((0 <= e)%Z -> q = (Z.pos m * 2 ^ e)%Z)
    /\ ((e < 0)%Z ->
        (q * 2 ^ (- e) <= Z.pos m < (q + 1) * 2 ^ (- e))%Z).
Proof.
  intros Hf. unfold trunc_to_Z. rewrite Hf. intros [= <-].
  destruct (Z.leb_spec 0 e) as [He|He].
  - exists (Z.pos m * 2 ^ e)%Z.
    assert (0 <= Z.pos m * 2 ^ e)%Z
      by (apply Z.mul_nonneg_nonneg; [lia | apply Z.pow_nonneg; lia]).
    repeat split; lia.
  - assert (Hp : (0 < 2 ^ (- e))%Z) by (apply Z.pow_pos_nonneg; lia).
    exists (Z.pos m / 2 ^ (- e))%Z.
    rewrite Z.quot_div_nonneg by lia.
    assert (0 <= Z.pos m / 2 ^ (- e))%Z by (apply Z.div_pos; lia).
    pose proof (Z.mul_div_le (Z.pos m) _ Hp).
    pose proof (Z.mul_succ_div_gt (Z.pos m) _ Hp).
    repeat split; try lia.
Qed.

(** Not rounded: 1.9996 seconds are stamped with 999 milliseconds. *)
Example milliseconds_are_truncated :
  milliseconds_of (PFloat 1.9996) = Some 999%Z
  /\ seconds_of (PFloat 1.9996) = Some 1%Z
  /\ minutes_of (PFloat 3725.5) = Some 62%Z
  /\ seconds_of (PFloat 3725.5) = Some 5%Z
  /\ milliseconds_of (PFloat 3725.5) = Some 500%Z.
Proof. repeat split; vm_compute; reflexivity. Qed.

(** ** Segment texts *)

Lemma lstrip_head s c r : lstrip s = c :: r -> isspace c = false.
Proof.
  induction s as [|x s IH]; simpl; [discriminate|].
  destruct (isspace x) eqn:E; [exact IH|]. intros [= <- _]. exact E.
Qed.

Lemma strip_head s c r : strip s = c :: r -> isspace c = false.
Proof. unfold strip. apply lstrip_head. Qed.

(** The loop over the segments adds the lines in order. *)
Lemma accumulate_lines line : forall segs ls acc,
  Forall2 (fun seg l => line seg = Some l) segs ls ->
  accumulate line segs acc = Some (acc ++ concat ls).
Proof.
  intros segs ls acc H. revert acc.
  induction H as [|seg l segs ls Hl _ IH]; intros acc; simpl.
  - now rewrite app_nil_r.
  - rewrite Hl, IH, app_assoc. reflexivity.
Qed.

Lemma segments_text_lines line response_json segs ls :
  segments_of response_json segs ->
  Forall2 (fun seg l => line seg = Some l) segs ls ->
  segments_text line response_json = Some (strip (concat ls)).
Proof.
  intros [top [-> Hs]] Hl. unfold segments_text, json_get.
  destruct (dict_get (u "segments") top) as [v|]; subst; cbn [bind iterate];
    rewrite (accumulate_lines line _ ls) by assumption; reflexivity.
Qed.

Lemma linebreak_line_text seg t :
  text_segment seg t -> linebreak_line seg = Some (strip t ++ [10%N]).
Proof.
  intros [kvs [-> Ht]]. unfold linebreak_line, json_get.
  destruct (dict_get (u "text") kvs); subst; reflexivity.
Qed.

Lemma timestamp_line_stamped seg mi se ms t :
  stamped_segment seg (mi, se, ms, t) ->
  timestamp_line seg = Some (timestamp mi se ms ++ strip t ++ [10%N]).
Proof.
  intros [[kvs [-> Ht]] [st [n [Hg [Hn [Hmi [Hse Hms]]]]]]].
  unfold timestamp_line. rewrite Hg. cbn [bind].
  rewrite Hn. cbn [bind]. rewrite Hmi, Hse, Hms. cbn [bind].
  unfold json_get. destruct (dict_get (u "text") kvs); subst; reflexivity.
Qed.

Lemma shape_linebreaks body response_json segs texts :
  loads body = Some response_json ->
  segments_of response_json segs ->
  Forall2 text_segment segs texts ->
  shape_response (u "text_with_linebreaks") (u "verbose_json") body
  = ShReturn (strip (concat (map (fun t => strip t ++ [10%N]) texts))) true
      (u "200 OK").
Proof.
  intros Hl Hs Ht. unfold shape_response. eval_tests. rewrite Hl.
  rewrite (segments_text_lines _ _ segs
             (map (fun t => strip t ++ [10%N]) texts)); trivial.
  clear -Ht. induction Ht; simpl; constructor; auto.
  now apply linebreak_line_text.
Qed.



Lemma strip_linebreaks t ts :
  strip t <> [] ->
  strip (concat (map (fun t => strip t ++ [10%N]) (t :: ts)))
  = linebreaks_as_specified (t :: ts).
Proof.
  intros Hne. unfold linebreaks_as_specified. cbn [map concat].
  destruct (strip t) as [|c r] eqn:E; [contradiction|].
  apply strip_head in E. cbn [app]. now apply strip_is_rstrip.
Qed.

Section Segments.

Variable get_prompt_content : list (pystr * pystr) -> pystr -> option pystr.
Variables (self : self_t) (w : world).
Variables (model file_path preset user_input response_format : pystr).
Variables (temperature : float) (max_retries : Z).

Let result : list event * outcome :=
  process_translation_request get_prompt_content self w model file_path
    preset user_input response_format temperature max_retries.

Let ready : option (request * pystr) :=
  prepared get_prompt_content self w model file_path preset user_input
    response_format temperature.

(** The first answered attempt, when it is a 200 answer that is shaped
    into a triple, gives the result of the call. *)
Lemma result_of_shaped req api_response_format k r t ok st :
  ready = Some (req, api_response_format) ->
  k < Z.to_nat max_retries ->
  (forall j, j < k -> attempt_raises w req response_format api_response_format j) ->
  post w k req = PostResponse r ->
  status_code r = 200%Z ->
  shape_response response_format api_response_format (text r) = ShReturn t ok st ->
  snd result = Returned t ok st.
Proof.
  intros Hr Hk Hraise Hp H200 Hs.
  destruct (process_prepared get_prompt_content self w model file_path preset
              user_input response_format temperature max_retries _ _ Hr) as [E _].
  unfold result. rewrite E.
  replace (Z.to_nat max_retries) with (k + S (Z.to_nat max_retries - S k)) by lia.
  rewrite loop_after_raises by exact Hraise.
  rewrite (loop_stops_on_shaped _ _ _ _ _ _ r t ok st) by assumption.
  reflexivity.
Qed.

Lemma wire_format_of_ready req api_response_format :
  ready = Some (req, api_response_format) ->
  wire_format response_format = Some api_response_format.
Proof.
  intros Hr. now destruct (process_prepared get_prompt_content self w model file_path preset
              user_input response_format temperature max_retries _ _ Hr).
Qed.

(** C7, as the code has it. With text_with_linebreaks, a 200 answer
    whose body parses gives, for every array of segments, the trimmed
    texts each followed by a line break, in order, with white space
    trimmed at both ends of the whole, true and 200 OK.  When the first
    text is not empty once trimmed, that is the text with only its end
    trimmed. *)
Theorem linebreaks_text req api_response_format k r response_json segs texts :
  ready = Some (req, api_response_format) ->
  response_format = u "text_with_linebreaks" ->
  k < Z.to_nat max_retries ->
  (forall j, j < k -> attempt_raises w req response_format api_response_format j) ->
  post w k req = PostResponse r ->
  status_code r = 200%Z ->
  loads (text r) = Some response_json ->
  segments_of response_json segs ->
  Forall2 text_segment segs texts ->
  snd result
  = Returned (strip (concat (map (fun t => strip t ++ [10%N]) texts))) true
      (u "200 OK")
  /\ (forall t ts, texts = t :: ts -> strip t <> [] ->
        snd result = Returned (linebreaks_as_specified texts) true (u "200 OK")).
Proof.
  intros Hr Hf Hk Hraise Hp H200 Hl Hs Ht.
  assert (Ha : api_response_format = u "verbose_json").
  { pose proof (wire_format_of_ready _ _ Hr) as Hw. rewrite Hf in Hw.
    vm_compute in Hw. now injection Hw as <-. }
  assert (E : snd result
              = Returned (strip (concat (map (fun t => strip t ++ [10%N]) texts)))
                  true (u "200 OK")).
  { eapply result_of_shaped; eauto.
    rewrite Hf, Ha. eapply shape_linebreaks; eauto. }
  split; [exact E|].
  intros t ts -> Hne. rewrite E. now rewrite strip_linebreaks.
Qed.



End Segments.

(** *** The statements above on concrete calls *)



Lemma success_iff_status_200_ok_witness :
  false = true <-> u "429 Too Many Requests" = u "200 OK".
Proof.
  apply (success_iff_status_200_ok lookup0 self0
           (world_of [PostRaises; PostResponse too_many]) (u "whisper-large-v3")
           (u "/tmp/a.b/clip.WAV") DEFAULT_PROMPT [] (u "json") 0 3
           (u "slow down")).
  vm_compute. reflexivity.
Defined.

Lemma error_status_returns_without_retry_witness :
  run [PostRaises; PostResponse too_many] DEFAULT_PROMPT [] (u "json") 3
  = ([EvOpen (u "/tmp/a.b/clip.WAV");
      EvPost (request_of (u "json") None); EvSleep 2;
      EvPost (request_of (u "json") None)],
     Returned (u "slow down") false (u "429 Too Many Requests")).
Proof.
  assert (Hr : prepared lookup0 self0 (world_of [PostRaises; PostResponse too_many])
                 (u "whisper-large-v3") (u "/tmp/a.b/clip.WAV") DEFAULT_PROMPT []
                 (u "json") 0
               = Some (request_of (u "json") None, u "json"))
    by (vm_compute; reflexivity).
  apply (proj1 (error_status_returns_without_retry lookup0 self0 _ _ _ _ _ _ _ 3
                  _ _ Hr) 1 too_many).
  - vm_compute. lia.
  - intros j Hj. assert (j = 0) by lia. subst j. left. reflexivity.
  - reflexivity.
  - discriminate.
Defined.

(** C2 as stated fails in its last part: the [except] clause also
    catches what the shaping of a 200 answer raises.  A body that is a
    JSON array has no [get]; with text_with_timestamps the answered
    attempt is followed by a sleep and a second attempt. *)
Lemma retry_after_answered_attempt :
  post (world_of [ok200 (u "[]"); ok200 (u "[]")]) 0
    (request_of (u "verbose_json") None)
  = PostResponse {| status_code := 200; reason := u "OK"; text := u "[]" |}
  /\ run [ok200 (u "[]"); ok200 (u "[]")] DEFAULT_PROMPT []
       (u "text_with_timestamps") 2
     = ([EvOpen (u "/tmp/a.b/clip.WAV");
         EvPost (request_of (u "verbose_json") None); EvSleep 2;
         EvPost (request_of (u "verbose_json") None); EvSleep 2],
        Returned (u "Failed after all retries.") false
          (u "Failed after all retries")).
Proof. split; vm_compute; reflexivity. Qed.

Lemma retry_policy_witness :
  run [PostRaises; PostRaises; ok200 body_segments] DEFAULT_PROMPT []
    (u "text_with_linebreaks") 3
  = ([EvOpen (u "/tmp/a.b/clip.WAV");
      EvPost (request_of (u "verbose_json") None); EvSleep 2;
      EvPost (request_of (u "verbose_json") None); EvSleep 2;
      EvPost (request_of (u "verbose_json") None)],
     Returned (u "hi
bye") true (u "200 OK")).
Proof.
  assert (Hr : prepared lookup0 self0
                 (world_of [PostRaises; PostRaises; ok200 body_segments])
                 (u "whisper-large-v3") (u "/tmp/a.b/clip.WAV") DEFAULT_PROMPT []
                 (u "text_with_linebreaks") 0
               = Some (request_of (u "verbose_json") None, u "verbose_json"))
    by (vm_compute; reflexivity).
  apply (proj2 (proj2 (proj2 (proj2
           (retry_policy lookup0 self0 _ _ _ _ _ _ _ 3 _ _ Hr)))) 2
           {| status_code := 200; reason := u "OK"; text := body_segments |}).
  - vm_compute. lia.
  - intros j Hj. assert (j = 0 \/ j = 1) as [-> | ->] by lia; reflexivity.
  - reflexivity.
  - reflexivity.
  - vm_compute. reflexivity.
Defined.

Lemma prompt_construction_witness :
  dict_get (u "prompt") (data (request_of (u "json") None)) = None
  /\ dict_get (u "prompt")
       (data (request_of (u "json") (Some (u "Be formal. "))))
     = Some (u "Be formal. ").
Proof.
  assert (Hd : prepared lookup0 self0 (world_of []) (u "whisper-large-v3")
                 (u "/tmp/a.b/clip.WAV") DEFAULT_PROMPT [] (u "json") 0
               = Some (request_of (u "json") None, u "json"))
    by (vm_compute; reflexivity).
  assert (Hf : prepared lookup0 self0 (world_of []) (u "whisper-large-v3")
                 (u "/tmp/a.b/clip.WAV") (u "Formal") [] (u "json") 0
               = Some (request_of (u "json") (Some (u "Be formal. ")), u "json"))
    by (vm_compute; reflexivity).
  split.
  - apply (proj1 (prompt_construction lookup0 self0 _ _ _ _ _ _ _ _ _ Hd));
      reflexivity.
  - destruct (proj2 (proj2 (prompt_construction lookup0 self0 _ _ _ _ _ _ _ _ _ Hf)))
      as [tpl [Ht [_ Hp]]].
    + vm_compute. discriminate.
    + vm_compute in Ht. injection Ht as <-. exact Hp.
Defined.

Ltac text_segment_literal :=
  eexists; split; [reflexivity | vm_compute; reflexivity].



Lemma linebreaks_text_witness :
  snd (run [PostRaises; ok200 body_segments] DEFAULT_PROMPT []
         (u "text_with_linebreaks") 2)
  = Returned (strip (concat (map (fun t => strip t ++ [10%N])
                               [u " hi"; u "bye "]))) true (u "200 OK")
  /\ strip (concat (map (fun t => strip t ++ [10%N]) [u " hi"; u "bye "]))
     = u "hi
bye".
Proof.
  split; [|vm_compute; reflexivity].
  assert (Hr : prepared lookup0 self0 (world_of [PostRaises; ok200 body_segments])
                 (u "whisper-large-v3") (u "/tmp/a.b/clip.WAV") DEFAULT_PROMPT []
                 (u "text_with_linebreaks") 0
               = Some (request_of (u "verbose_json") None, u "verbose_json"))
    by (vm_compute; reflexivity).
  apply (proj1 (linebreaks_text lookup0 self0 _ _ _ _ _ _ _ 2 _ _ 1
           {| status_code := 200; reason := u "OK"; text := body_segments |}
           parsed_body parsed_segments [u " hi"; u "bye "] Hr
           (eq_refl _)
           ltac:(vm_compute; lia)
           ltac:(intros j Hj; assert (j = 0) by lia; subst j; left; reflexivity)
           (eq_refl _) (eq_refl _)
           ltac:(vm_compute; reflexivity)
           ltac:(exists [(u "text", JStr (u "hi bye"));
                         (u "segments", JArr parsed_segments)];
                 split; [reflexivity | vm_compute; reflexivity])
           ltac:(repeat constructor; text_segment_literal))).
Defined.

(** C7 as stated fails: when the first segment has no text left after
    trimming, the line break it leaves at the head of the whole is
    trimmed as well, since line 171 calls [strip]. *)
Lemma linebreaks_leading_break_trimmed :
  loads body_empty_first
  = Some (JObj [(u "segments", JArr parsed_empty_first)])
  /\ segments_of (JObj [(u "segments", JArr parsed_empty_first)]) parsed_empty_first
  /\ Forall2 text_segment parsed_empty_first [u " "; u "bye"]
  /\ snd (run [ok200 body_empty_first] DEFAULT_PROMPT []
            (u "text_with_linebreaks") 1)
     = Returned (u "bye") true (u "200 OK")
  /\ linebreaks_as_specified [u " "; u "bye"] = 10%N :: u "bye"
  /\ snd (run [ok200 body_empty_first] DEFAULT_PROMPT []
            (u "text_with_linebreaks") 1)
     <> Returned (linebreaks_as_specified [u " "; u "bye"]) true (u "200 OK").
Proof.
  split; [vm_compute; reflexivity|].
  split; [eexists; split; [reflexivity | vm_compute; reflexivity]|].
  split; [repeat constructor; text_segment_literal|].
  split; [vm_compute; reflexivity|].
  split; [vm_compute; reflexivity|].
  vm_compute. discriminate.
Qed.



(** ** Checks of the model on literals *)

Example dumps_ex :
  dumps (JObj [(u "a", JInt 1); (u "b", JArr [JFloat 65.25; JNull; JArr []]);
               (u "c", JObj []); (u "d", JStr [9; 233; 128512; 120; 47]%N)])
  = u "{
    'a': 1,
    'b': [
        65.25,
        null,
        []
    ],
    'c': {},
    'd': '\t\u00e9\ud83d\ude00x/'
}" /. 39 ~> 34.
Proof. vm_compute. reflexivity. Qed.

Example loads_ex :
  loads (u " {'a' : [1, -2.5e1, true , null], 'b':{}, 'a': 'x\n\u00E9\ud83d\uDE00', 'c': [ ] } " /. 39 ~> 34)
  = Some (JObj [(u "a", JStr [120; 10; 233; 128512]%N); (u "b", JObj []); (u "c", JArr [])])
  /\ loads (u "[1, -2.5e1, true , null, 0.1, -0, NaN, -Infinity]")
     = Some (JArr [JInt 1; JFloat (-25); JBool true; JNull; JFloat 0.1; JInt 0;
                   JFloat nan; JFloat neg_infinity])
  /\ loads (u "[1,]") = None /\ loads (u "01") = None /\ loads (u "1e") = None
  /\ loads (u "{'a':1} x" /. 39 ~> 34) = None /\ loads (u "") = None
  /\ loads (u "-") = None /\ loads (u "[1 2]") = None.
Proof. repeat split; vm_compute; reflexivity. Qed.
Example loads_dumps_ex :
  loads (dumps (JObj [(u "segments", JArr [JObj [(u "start", JFloat 65.25); (u "text", JStr (u " hi"))]]);
                      (u "n", JInt (-12)); (u "s", JStr [34; 92; 7; 128512; 55357; 300]%N)]))
  = Some (JObj [(u "segments", JArr [JObj [(u "start", JFloat 65.25); (u "text", JStr (u " hi"))]]);
                      (u "n", JInt (-12)); (u "s", JStr [34; 92; 7; 128512; 55357; 300]%N)]).
Proof. vm_compute. reflexivity. Qed.

Example fmod_ex : c_fmod 65.25 60 = 5.25%float
  /\ float_floordiv 65.25 60 = Some 1%float
  /\ float_floordiv (-1.5) 60 = Some (-1)%float
  /\ float_rem (-1.5) 60 = Some 58.5%float
  /\ trunc_to_Z (-2.75) = Some (-2)%Z
  /\ float_of_Z 1000 = Some 1000%float.
Proof. repeat split; vm_compute; reflexivity. Qed.

Example float_repr_ex :
  map float_repr [65.25; 0.1; 1e16; 1e-5; 100; 1.5e300; 5e-324; -0.001234; 0.3;
                  2.5e-7; 123456789012345.67]%float
  = map u ["65.25"; "0.1"; "1e+16"; "1e-05"; "100.0"; "1.5e+300"; "5e-324";
           "-0.001234"; "0.3"; "2.5e-07"; "123456789012345.67"]%string.
Proof. vm_compute. reflexivity. Qed.
Example float_of_decimal_ex :
  float_of_decimal 6525 (-2) = 65.25%float /\ float_of_decimal 1 (-1) = 0.1%float
  /\ float_of_decimal 1 400 = infinity /\ float_of_decimal 17976931348623157 292 = 1.7976931348623157e308%float
  /\ float_of_decimal 5 (-324) = 5e-324%float /\ float_of_decimal 2 (-324) = zero.
Proof. repeat split; vm_compute; reflexivity. Qed.

Example split_ex : split 46 (u "a.b.c") = [u "a"; u "b"; u "c"].
Proof. reflexivity. Qed.
Example replace_ex :
  replace (u "[x]") (u "yy") (u "a[x]b[x][x") = u "ayybyy[x".
Proof. reflexivity. Qed.
Example fmt_ex : format_0d 3 (-5) = u "-05" /\ format_0d 2 7 = u "07"
  /\ format_0d 2 123 = u "123" /\ str_of_Z 1000 = u "1000" /\ str_of_Z 0 = u "0".
Proof. repeat split; reflexivity. Qed.
Example strip_ex : strip (u "  a b
") = u "a b".
Proof. reflexivity. Qed.

Example run_timestamps :
  snd (run [ok200 body_segments] DEFAULT_PROMPT [] (u "text_with_timestamps") 2)
  = Returned (u "[01:05.250]hi
[00:00.000]bye") true (u "200 OK").
Proof. vm_compute. reflexivity. Qed.

Example run_linebreaks :
  snd (run [PostRaises; ok200 body_segments] DEFAULT_PROMPT [] (u "text_with_linebreaks") 2)
  = Returned (u "hi
bye") true (u "200 OK").
Proof. vm_compute. reflexivity. Qed.

(** * Further properties of the class *)

(** ** What a call does and answers, on every input *)

Lemma count_posts_raised req k : count_posts (raised_attempts req k) = k.
Proof.
  induction k as [|k IH]; [reflexivity|].
  unfold raised_attempts in *. cbn [repeat concat app].
  rewrite count_posts_cons_post, count_posts_cons_sleep. now rewrite IH.
Qed.

Lemma count_posts_app a b : count_posts (a ++ b) = count_posts a + count_posts b.
Proof. unfold count_posts. now rewrite filter_app, length_app. Qed.

Lemma total_sleep_app a b : total_sleep (a ++ b) = (total_sleep a + total_sleep b)%Z.
Proof.
  unfold total_sleep. induction a as [|e a IH]; [reflexivity|].
  cbn [app fold_right]. destruct e; rewrite IH; lia.
Qed.

Lemma total_sleep_raised req k :
  total_sleep (raised_attempts req k) = (2 * Z.of_nat k)%Z.
Proof.
  unfold total_sleep. induction k as [|k IH]; [reflexivity|].
  unfold raised_attempts in *. cbn [repeat concat app fold_right].
  rewrite IH. lia.
Qed.

Section LoopAnswers.

Variables (w : world) (req : request).
Variables (response_format api_response_format : pystr).

Let loop := retry_loop w req response_format api_response_format.
Let raises := attempt_raises w req response_format api_response_format.

(** The events of the loop: POSTs of the one request, sleeps of two
    seconds. *)
Lemma loop_events n : forall i e,
  In e (fst (loop n i)) -> e = EvPost req \/ e = EvSleep 2.
Proof.
  unfold loop.
  induction n as [|n IH]; intros i e; simpl; [tauto|].
  specialize (IH (S i) e).
  destruct (post w i req) as [|r].
  - simpl. intros [H|[H|H]]; auto.
  - destruct (status_code r =? 200)%Z.
    + destruct (shape_response _ _ _); simpl.
      * intros [H|[]]; auto.
      * intros [H|[H|H]]; auto.
      * intros [H|H]; auto.
    + simpl. intros [H|[]]; auto.
Qed.

(** The first turn posts. *)
Lemma loop_posts_first n i : 1 <= count_posts (fst (loop (S n) i)).
Proof.
  unfold loop. simpl.
  destruct (post w i req) as [|r]; [unfold count_posts; simpl; lia|].
  destruct (status_code r =? 200)%Z; [|unfold count_posts; simpl; lia].
  destruct (shape_response _ _ _); unfold count_posts; simpl; lia.
Qed.

(** How the loop ends: every attempt raised, or the attempts before
    the [k]-th raised and that one was answered, with a status other
    than 200 or with a 200 body shaped into a triple. *)
Lemma loop_outcome n :
  wire_format response_format = Some api_response_format ->
  forall i,
  (loop n i = (raised_attempts req n, FAILED)
   /\ forall j, j < n -> raises (i + j))
  \/ exists k r,
       k < n
       /\ (forall j, j < k -> raises (i + j))
       /\ post w (i + k) req = PostResponse r
       /\ fst (loop n i) = raised_attempts req k ++ [EvPost req]
       /\ ((status_code r <> 200%Z
            /\ snd (loop n i)
               = Returned (text r) false
                   (str_of_Z (status_code r) ++ [32%N] ++ reason r))
           \/ (status_code r = 200%Z
               /\ exists t ok st,
                    shape_response response_format api_response_format (text r)
                    = ShReturn t ok st
                    /\ snd (loop n i) = Returned t ok st)).
Proof.
  intros Hw. unfold loop, raises.
  induction n as [|n IH]; intros i.
  - left. split; [reflexivity|]. intros j Hj. lia.
  - assert (Hstep : attempt_raises w req response_format api_response_format i ->
              retry_loop w req response_format api_response_format (S n) i
              = after [EvPost req; EvSleep 2]
                  (retry_loop w req response_format api_response_format n (S i))).
    { apply loop_step_raises. }
    assert (Hnext : attempt_raises w req response_format api_response_format i ->
      (retry_loop w req response_format api_response_format (S n) i
         = (raised_attempts req (S n), FAILED)
       /\ forall j, j < S n ->
            attempt_raises w req response_format api_response_format (i + j))
      \/ exists k r,
           k < S n
           /\ (forall j, j < k ->
                 attempt_raises w req response_format api_response_format (i + j))
           /\ post w (i + k) req = PostResponse r
           /\ fst (retry_loop w req response_format api_response_format (S n) i)
              = raised_attempts req k ++ [EvPost req]
           /\ ((status_code r <> 200%Z
                /\ snd (retry_loop w req response_format api_response_format (S n) i)
                   = Returned (text r) false
                       (str_of_Z (status_code r) ++ [32%N] ++ reason r))
               \/ (status_code r = 200%Z
                   /\ exists t ok st,
                        shape_response response_format api_response_format (text r)
                        = ShReturn t ok st
                        /\ snd (retry_loop w req response_format
                                  api_response_format (S n) i)
                           = Returned t ok st))).
    { intros Hi. rewrite (Hstep Hi).
      destruct (IH (S i)) as [[E Hall] | [k [r [Hk [Hall [Hp [Ef Hs]]]]]]].
      - left. split.
        + rewrite E. reflexivity.
        + intros [|j] Hj; [now rewrite Nat.add_0_r|].
          replace (i + S j) with (S i + j) by lia. apply Hall. lia.
      - right. exists (S k), r.
        replace (i + S k) with (S i + k) by lia.
        split; [lia|]. split.
        { intros [|j] Hj; [now rewrite Nat.add_0_r|].
          replace (i + S j) with (S i + j) by lia. apply Hall. lia. }
        split; [exact Hp|]. split.
        { unfold after. cbn [fst]. rewrite Ef. reflexivity. }
        unfold after. cbn [snd]. exact Hs. }
    destruct (post w i req) as [|r] eqn:Hp.
    + apply Hnext. now left.
    + destruct (Z.eq_dec (status_code r) 200) as [H200|H200].
      * destruct (shape_response response_format api_response_format (text r))
          as [t ok st| |] eqn:Hs.
        -- right. exists 0, r. rewrite Nat.add_0_r.
           split; [lia|]. split; [intros j Hj; lia|]. split; [exact Hp|].
           rewrite (loop_stops_on_shaped _ _ _ _ _ _ r t ok st) by assumption.
           split; [reflexivity|]. right. split; [exact H200|].
           exists t, ok, st. split; [exact Hs | reflexivity].
        -- apply Hnext. right. exists r. auto.
        -- exfalso. revert Hs. now apply shape_no_fall_through.
      * right. exists 0, r. rewrite Nat.add_0_r.
        split; [lia|]. split; [intros j Hj; lia|]. split; [exact Hp|].
        rewrite (loop_stops_on_error_status _ _ _ _ _ _ r) by assumption.
        split; [reflexivity|]. left. split; [exact H200 | reflexivity].
Qed.

End LoopAnswers.

(** A 200 answer is shaped into a failure only when its body does not
    parse. *)
Lemma shape_failure response_format api_response_format body t st :
  wire_format response_format = Some api_response_format ->
  shape_response response_format api_response_format body = ShReturn t false st ->
  response_format <> u "text"
  /\ loads body = None
  /\ t = u "Error parsing JSON response."
  /\ st = u "200 OK but failed to parse JSON".
Proof.
  intros H. apply wire_format_cases in H.
  destruct H as [[-> H] | [-> H]]; simpl in H;
    decompose [or] H; try contradiction; subst;
    unfold shape_response; eval_tests;
    try discriminate;
    destruct (loads body); try discriminate;
    try (intros [= <- <-]; repeat split; discriminate);
    match goal with
    | |- context [segments_text ?l ?j] => destruct (segments_text l j); discriminate
    end.
Qed.


Section Answers.

Variable get_prompt_content : list (pystr * pystr) -> pystr -> option pystr.
Variables (self : self_t) (w : world).
Variables (model file_path preset user_input response_format : pystr).
Variables (temperature : float) (max_retries : Z).

Let result : list event * outcome :=
  process_translation_request get_prompt_content self w model file_path
    preset user_input response_format temperature max_retries.

Let ready : option (request * pystr) :=
  prepared get_prompt_content self w model file_path preset user_input
    response_format temperature.

Let file_extension : pystr := lower (last_piece (split 46 file_path)).

(** What the method does when lines 78-113 end the call. *)
Lemma before_loop :
  ready = None ->
  (isfile w file_path = false
   /\ result = ([], Returned (u "File not found.") false (u "400 Bad Request")))
  \/ (isfile w file_path = true
      /\ ~ In file_extension SUPPORTED_AUDIO_FORMATS
      /\ result
         = ([], Returned (u "Unsupported audio format '" ++ file_extension ++ u "'.")
                  false (u "400 Bad Request")))
  \/ (isfile w file_path = true
      /\ In file_extension SUPPORTED_AUDIO_FORMATS
      /\ ((read_file w file_path = None
           /\ result
              = ([EvOpen file_path],
                 Returned (u "Error reading audio file.") false
                   (u "400 Bad Request")))
          \/ (read_file w file_path <> None
              /\ build_prompt get_prompt_content self preset user_input = None
              /\ result = ([EvOpen file_path], Raised))
          \/ (read_file w file_path <> None
              /\ build_prompt get_prompt_content self preset user_input <> None
              /\ wire_format response_format = None
              /\ result
                 = ([EvOpen file_path],
                    Returned (u "Unknown response format.") false
                      (u "400 Bad Request"))))).
Proof.
  unfold ready, prepared, result, process_translation_request, file_extension.
  rewrite <- mem_In.
  destruct (isfile w file_path); [|intros _; left; split; reflexivity].
  destruct (mem (lower (last_piece (split 46 file_path))) SUPPORTED_AUDIO_FORMATS);
    cbn [andb negb]; intros Hr; right.
  2:{ left. split; [reflexivity|]. split; [discriminate | reflexivity]. }
  right. split; [reflexivity|]. split; [reflexivity|].
  destruct (read_file w file_path) as [audio|]; [|left; split; reflexivity].
  right.
  destruct (build_prompt get_prompt_content self preset user_input) as [p|].
  2:{ left. split; [discriminate|]. split; reflexivity. }
  right.
  destruct (wire_format response_format); [discriminate|].
  split; [discriminate|]. split; [discriminate|]. split; reflexivity.
Qed.

(** X1. The file is opened exactly when it exists and its extension is
    supported, once, before anything else; what follows are POSTs and
    sleeps. *)
Theorem file_opened_once_after_validation :
  (isfile w file_path = true /\ In file_extension SUPPORTED_AUDIO_FORMATS ->
   exists tr, fst result = EvOpen file_path :: tr
     /\ forall p, ~ In (EvOpen p) tr)
  /\ (~ (isfile w file_path = true /\ In file_extension SUPPORTED_AUDIO_FORMATS) ->
      fst result = []).
Proof.
  destruct ready as [[req api]|] eqn:Hr.
  - pose proof Hr as Hr'.
    apply (process_prepared get_prompt_content self w model file_path preset
             user_input response_format temperature max_retries) in Hr.
    destruct Hr as [E _]. fold result in E.
    assert (Hv : isfile w file_path = true
                 /\ In file_extension SUPPORTED_AUDIO_FORMATS).
    { unfold ready, prepared in Hr'. unfold file_extension. rewrite <- mem_In.
      destruct (isfile w file_path); [|discriminate].
      destruct (mem _ SUPPORTED_AUDIO_FORMATS); [|discriminate]. auto. }
    split; [|intros Hn; contradiction].
    intros _. rewrite E. unfold after. cbn [fst app].
    eexists. split; [reflexivity|].
    intros p Hin. apply loop_events in Hin. destruct Hin; discriminate.
  - apply before_loop in Hr. fold result file_extension in Hr.
    destruct Hr as [[Hf E] | [[Hf [Hn E]] | [Hf [Hin H]]]].
    + split; [intros [H _]; congruence | intros _; now rewrite E].
    + split; [intros [_ H]; contradiction | intros _; now rewrite E].
    + split; [|intros Hn; exfalso; apply Hn; auto].
      intros _.
      destruct H as [[_ E] | [[_ [_ E]] | [_ [_ [_ E]]]]]; rewrite E;
        exists []; (split; [reflexivity | intros p []]).
Qed.

(** X2. Nothing is posted but the request prepared from the inputs: the
    same one at every attempt. *)
Theorem posts_only_prepared_request r :
  In (EvPost r) (fst result) ->
  exists api_response_format, ready = Some (r, api_response_format).
Proof.
  destruct ready as [[req api]|] eqn:Hr.
  - pose proof Hr as Hr'.
    apply (process_prepared get_prompt_content self w model file_path preset
             user_input response_format temperature max_retries) in Hr.
    destruct Hr as [E _]. fold result in E.
    rewrite E. unfold after. cbn [fst app].
    intros [H|H]; [discriminate|].
    apply loop_events in H. destruct H as [H|H]; [|discriminate].
    injection H as ->. eauto.
  - apply before_loop in Hr. fold result file_extension in Hr.
    destruct Hr as [[_ E] | [[_ [_ E]] | [_ [_ H]]]].
    + rewrite E. intros [].
    + rewrite E. intros [].
    + destruct H as [[_ E] | [[_ [_ E]] | [_ [_ [_ E]]]]]; rewrite E;
        (intros [H|[]]; discriminate).
Qed.

(** A success is the shaping of the body of a 200 answer. *)
Lemma success_shaped t st :
  snd result = Returned t true st ->
  exists api_response_format body,
    wire_format response_format = Some api_response_format
    /\ shape_response response_format api_response_format body
       = ShReturn t true st.
Proof.
  destruct ready as [[req api]|] eqn:Hr.
  - apply (process_prepared get_prompt_content self w model file_path preset
             user_input response_format temperature max_retries) in Hr.
    destruct Hr as [E Hw]. fold result in E. rewrite E.
    unfold after. cbn [snd].
    destruct (loop_outcome w req response_format api (Z.to_nat max_retries) Hw 0)
      as [[El _] | [k [r [_ [_ [_ [_ Hs]]]]]]].
    + rewrite El. discriminate.
    + destruct Hs as [[_ Hs] | [_ [t' [ok [st' [Hs Hres]]]]]]; rewrite ?Hs, ?Hres.
      * discriminate.
      * intros [= -> -> ->]. eauto.
  - apply before_loop in Hr. fold result file_extension in Hr.
    destruct Hr as [[_ E] | [[_ [_ E]] | [_ [_ H]]]].
    + rewrite E. discriminate.
    + rewrite E. discriminate.
    + destruct H as [[_ E] | [[_ [_ E]] | [_ [_ [_ E]]]]]; rewrite E; discriminate.
Qed.

(** X3. Success is only reported for an attempt that was answered with
    status 200 and whose body was shaped into the text returned, every
    attempt before it having raised. *)
Theorem success_needs_ok_answer t st :
  snd result = Returned t true st ->
  exists req api_response_format k r,
    ready = Some (req, api_response_format)
    /\ k < Z.to_nat max_retries
    /\ (forall j, j < k ->
          attempt_raises w req response_format api_response_format j)
    /\ post w k req = PostResponse r
    /\ status_code r = 200%Z
    /\ shape_response response_format api_response_format (text r)
       = ShReturn t true st
    /\ fst result = EvOpen file_path :: raised_attempts req k ++ [EvPost req].
Proof.
  destruct ready as [[req api]|] eqn:Hr.
  - pose proof Hr as Hr'.
    apply (process_prepared get_prompt_content self w model file_path preset
             user_input response_format temperature max_retries) in Hr.
    destruct Hr as [E Hw]. fold result in E. rewrite E.
    unfold after. cbn [fst snd app].
    destruct (loop_outcome w req response_format api (Z.to_nat max_retries) Hw 0)
      as [[El _] | [k [r [Hk [Hall [Hp [Ef Hs]]]]]]].
    + rewrite El. cbn [snd]. discriminate.
    + intros Hres. exists req, api, k, r.
      simpl in Hall, Hp.
      destruct Hs as [[_ Hs] | [H200 [t' [ok [st' [Hs Hres']]]]]].
      * rewrite Hs in Hres. discriminate.
      * rewrite Hres' in Hres. injection Hres as -> -> ->.
        rewrite Ef. repeat split; auto.
  - apply before_loop in Hr. fold result file_extension in Hr.
    destruct Hr as [[_ E] | [[_ [_ E]] | [_ [_ H]]]].
    + rewrite E. discriminate.
    + rewrite E. discriminate.
    + destruct H as [[_ E] | [[_ [_ E]] | [_ [_ [_ E]]]]]; rewrite E; discriminate.
Qed.

(** X4. The answers that carry false, all of them. *)
Theorem failure_answers t st :
  snd result = Returned t false st ->
  (st = u "400 Bad Request"
   /\ (t = u "File not found."
       \/ t = u "Unsupported audio format '" ++ file_extension ++ u "'."
       \/ t = u "Error reading audio file."
       \/ t = u "Unknown response format.")
   /\ count_posts (fst result) = 0)
  \/ (t = u "Failed after all retries." /\ st = u "Failed after all retries"
      /\ count_posts (fst result) = Z.to_nat max_retries)
  \/ (t = u "Error parsing JSON response."
      /\ st = u "200 OK but failed to parse JSON"
      /\ response_format <> u "text")
  \/ (exists req api_response_format k r,
        ready = Some (req, api_response_format)
        /\ post w k req = PostResponse r
        /\ status_code r <> 200%Z
        /\ t = text r
        /\ st = str_of_Z (status_code r) ++ [32%N] ++ reason r).
Proof.
  destruct ready as [[req api]|] eqn:Hr.
  - pose proof Hr as Hr'.
    apply (process_prepared get_prompt_content self w model file_path preset
             user_input response_format temperature max_retries) in Hr.
    destruct Hr as [E Hw]. fold result in E. rewrite E.
    unfold after. cbn [fst snd app].
    destruct (loop_outcome w req response_format api (Z.to_nat max_retries) Hw 0)
      as [[El _] | [k [r [Hk [Hall [Hp [Ef Hs]]]]]]].
    + rewrite El. cbn [snd fst]. intros [= <- <-].
      right. left. repeat split.
      rewrite count_posts_cons_open. apply count_posts_raised.
    + simpl in Hp.
      destruct Hs as [[H200 Hs] | [H200 [t' [ok [st' [Hs Hres']]]]]].
      * rewrite Hs. intros [= <- <-].
        right. right. right. exists req, api, k, r. repeat split; auto.
      * rewrite Hres'. intros [= -> -> ->].
        destruct (shape_failure _ _ _ _ _ Hw Hs) as [Hne [_ [-> ->]]].
        right. right. left. repeat split. exact Hne.
  - apply before_loop in Hr. fold result file_extension in Hr.
    destruct Hr as [[_ E] | [[_ [_ E]] | [_ [_ H]]]].
    + rewrite E. intros [= <- <-]. left. repeat split. now left.
    + rewrite E. intros [= <- <-]. left. repeat split. right. now left.
    + destruct H as [[_ E] | [[_ [_ E]] | [_ [_ [_ E]]]]]; rewrite E;
        try discriminate; intros [= <- <-]; left; repeat split; auto.
Qed.

(** X5. Without a turn of the loop nothing is posted, and the answer is
    the one of exhausted retries; with one turn or more, the request is
    posted at least once. *)
Theorem attempts_and_max_retries req api_response_format :
  ready = Some (req, api_response_format) ->
  ((max_retries <= 0)%Z ->
     result = ([EvOpen file_path],
               Returned (u "Failed after all retries.") false
                 (u "Failed after all retries")))
  /\ ((1 <= max_retries)%Z ->
      1 <= count_posts (fst result) <= Z.to_nat max_retries
      /\ exists tr, fst result = EvOpen file_path :: EvPost req :: tr).
Proof.
  intros Hr.
  apply (process_prepared get_prompt_content self w model file_path preset
           user_input response_format temperature max_retries) in Hr.
  destruct Hr as [E Hw]. fold result in E. rewrite E. split.
  - intros Hm. replace (Z.to_nat max_retries) with 0 by lia. reflexivity.
  - intros Hm. destruct (Z.to_nat max_retries) as [|n] eqn:En; [lia|].
    unfold after. cbn [fst app]. rewrite count_posts_cons_open. split.
    + split; [apply loop_posts_first|]. apply loop_posts_bound.
    + simpl. destruct (post w 0 req) as [|r]; [simpl; eauto|].
      destruct (status_code r =? 200)%Z; [|simpl; eauto].
      destruct (shape_response _ _ _); simpl; eauto.
Qed.

(** X6. Two seconds are slept for each attempt that ended in the except
    clause, the last one included when all of them did: never more than
    twice [max_retries] seconds in all, and two seconds less than twice
    the number of requests when an answer ended the call. *)
Theorem sleep_budget req api_response_format :
  ready = Some (req, api_response_format) ->
  (total_sleep (fst result) <= 2 * Z.of_nat (Z.to_nat max_retries))%Z
  /\ ((count_posts (fst result) = Z.to_nat max_retries
       /\ total_sleep (fst result) = (2 * Z.of_nat (Z.to_nat max_retries))%Z
       /\ snd result
          = Returned (u "Failed after all retries.") false
              (u "Failed after all retries"))
      \/ (exists k, k < Z.to_nat max_retries
            /\ fst result = EvOpen file_path :: raised_attempts req k ++ [EvPost req]
            /\ count_posts (fst result) = S k
            /\ total_sleep (fst result) = (2 * Z.of_nat k)%Z)).
Proof.
  intros Hr.
  apply (process_prepared get_prompt_content self w model file_path preset
           user_input response_format temperature max_retries) in Hr.
  destruct Hr as [E Hw]. fold result in E. rewrite E.
  unfold after. cbn [fst snd app].
  destruct (loop_outcome w req response_format api_response_format
              (Z.to_nat max_retries) Hw 0)
    as [[El _] | [k [r [Hk [_ [_ [Ef _]]]]]]].
  - rewrite El. cbn [fst snd].
    rewrite count_posts_cons_open, count_posts_raised.
    change (total_sleep (EvOpen file_path :: ?t)) with (total_sleep t).
    rewrite total_sleep_raised. split; [lia|]. left. repeat split.
  - rewrite Ef. rewrite count_posts_cons_open, count_posts_app, count_posts_raised.
    change (total_sleep (EvOpen file_path :: ?t)) with (total_sleep t).
    rewrite total_sleep_app, total_sleep_raised.
    change (total_sleep [EvPost req]) with 0%Z.
    change (count_posts [EvPost req]) with 1.
    split; [lia|]. right. exists k. repeat split; [exact Hk | lia | lia].
Qed.

End Answers.

Lemma posts_only_prepared_request_witness :
  exists api_response_format,
    prepared lookup0 self0 (world_of [PostRaises; PostResponse too_many])
      (u "whisper-large-v3") (u "/tmp/a.b/clip.WAV") DEFAULT_PROMPT [] (u "json") 0
    = Some (request_of (u "json") None, api_response_format).
Proof.
  apply (posts_only_prepared_request lookup0 self0
           (world_of [PostRaises; PostResponse too_many]) (u "whisper-large-v3")
           (u "/tmp/a.b/clip.WAV") DEFAULT_PROMPT [] (u "json") 0 3
           (request_of (u "json") None)).
  vm_compute. right. left. reflexivity.
Defined.

Lemma success_needs_ok_answer_witness :
  exists req api_response_format k r,
    prepared lookup0 self0 (world_of [PostRaises; ok200 body_segments])
      (u "whisper-large-v3") (u "/tmp/a.b/clip.WAV") DEFAULT_PROMPT []
      (u "text_with_linebreaks") 0
    = Some (req, api_response_format)
    /\ k < Z.to_nat 2
    /\ (forall j, j < k ->
          attempt_raises (world_of [PostRaises; ok200 body_segments]) req
            (u "text_with_linebreaks") api_response_format j)
    /\ post (world_of [PostRaises; ok200 body_segments]) k req = PostResponse r
    /\ status_code r = 200%Z
    /\ shape_response (u "text_with_linebreaks") api_response_format (text r)
       = ShReturn (u "hi
bye") true (u "200 OK")
    /\ fst (run [PostRaises; ok200 body_segments] DEFAULT_PROMPT []
              (u "text_with_linebreaks") 2)
       = EvOpen (u "/tmp/a.b/clip.WAV") :: raised_attempts req k ++ [EvPost req].
Proof.
  apply (success_needs_ok_answer lookup0 self0
           (world_of [PostRaises; ok200 body_segments]) (u "whisper-large-v3")
           (u "/tmp/a.b/clip.WAV") DEFAULT_PROMPT [] (u "text_with_linebreaks") 0 2).
  vm_compute. reflexivity.
Defined.

Lemma failure_answers_witness :
  (u "429 Too Many Requests" = u "400 Bad Request"
   /\ (u "slow down" = u "File not found."
       \/ u "slow down"
          = u "Unsupported audio format '"
              ++ lower (last_piece (split 46 (u "/tmp/a.b/clip.WAV"))) ++ u "'."
       \/ u "slow down" = u "Error reading audio file."
       \/ u "slow down" = u "Unknown response format.")
   /\ count_posts
        (fst (run [PostRaises; PostResponse too_many] DEFAULT_PROMPT [] (u "json") 3))
      = 0)
  \/ (u "slow down" = u "Failed after all retries."
      /\ u "429 Too Many Requests" = u "Failed after all retries"
      /\ count_posts
           (fst (run [PostRaises; PostResponse too_many] DEFAULT_PROMPT []
                   (u "json") 3))
         = Z.to_nat 3)
  \/ (u "slow down" = u "Error parsing JSON response."
      /\ u "429 Too Many Requests" = u "200 OK but failed to parse JSON"
      /\ u "json" <> u "text")
  \/ (exists req api_response_format k r,
        prepared lookup0 self0 (world_of [PostRaises; PostResponse too_many])
          (u "whisper-large-v3") (u "/tmp/a.b/clip.WAV") DEFAULT_PROMPT []
          (u "json") 0
        = Some (req, api_response_format)
        /\ post (world_of [PostRaises; PostResponse too_many]) k req
           = PostResponse r
        /\ status_code r <> 200%Z
        /\ u "slow down" = text r
        /\ u "429 Too Many Requests"
           = str_of_Z (status_code r) ++ [32%N] ++ reason r).
Proof.
  apply (failure_answers lookup0 self0
           (world_of [PostRaises; PostResponse too_many]) (u "whisper-large-v3")
           (u "/tmp/a.b/clip.WAV") DEFAULT_PROMPT [] (u "json") 0 3).
  vm_compute. reflexivity.
Defined.

Lemma attempts_and_max_retries_witness :
  run [ok200 body_segments] DEFAULT_PROMPT [] (u "json") 0
  = ([EvOpen (u "/tmp/a.b/clip.WAV")],
     Returned (u "Failed after all retries.") false (u "Failed after all retries"))
  /\ 1 <= count_posts (fst (run [PostRaises; PostRaises] DEFAULT_PROMPT []
                              (u "json") 2)) <= Z.to_nat 2.
Proof.
  assert (Hr : forall answers,
             prepared lookup0 self0 (world_of answers)
               (u "whisper-large-v3") (u "/tmp/a.b/clip.WAV") DEFAULT_PROMPT []
               (u "json") 0
             = Some (request_of (u "json") None, u "json"))
    by (intros; vm_compute; reflexivity).
  split.
  - apply (proj1 (attempts_and_max_retries lookup0 self0 _ _ _ _ _ _ _ 0
                    _ _ (Hr [ok200 body_segments]))). lia.
  - apply (proj2 (attempts_and_max_retries lookup0 self0 _ _ _ _ _ _ _ 2
                    _ _ (Hr [PostRaises; PostRaises]))). lia.
Defined.

Lemma sleep_budget_witness :
  (total_sleep (fst (run [PostRaises; PostResponse too_many] DEFAULT_PROMPT []
                       (u "json") 3))
   <= 2 * Z.of_nat (Z.to_nat 3))%Z
  /\ ((count_posts (fst (run [PostRaises; PostResponse too_many] DEFAULT_PROMPT []
                           (u "json") 3)) = Z.to_nat 3
       /\ total_sleep (fst (run [PostRaises; PostResponse too_many] DEFAULT_PROMPT []
                              (u "json") 3))
          = (2 * Z.of_nat (Z.to_nat 3))%Z
       /\ snd (run [PostRaises; PostResponse too_many] DEFAULT_PROMPT [] (u "json") 3)
          = Returned (u "Failed after all retries.") false
              (u "Failed after all retries"))
      \/ (exists k, k < Z.to_nat 3
            /\ fst (run [PostRaises; PostResponse too_many] DEFAULT_PROMPT []
                      (u "json") 3)
               = EvOpen (u "/tmp/a.b/clip.WAV")
                   :: raised_attempts (request_of (u "json") None) k
                   ++ [EvPost (request_of (u "json") None)]
            /\ count_posts (fst (run [PostRaises; PostResponse too_many]
                                   DEFAULT_PROMPT [] (u "json") 3)) = S k
            /\ total_sleep (fst (run [PostRaises; PostResponse too_many]
                                   DEFAULT_PROMPT [] (u "json") 3))
               = (2 * Z.of_nat k)%Z)).
Proof.
  apply (sleep_budget lookup0 self0
           (world_of [PostRaises; PostResponse too_many]) (u "whisper-large-v3")
           (u "/tmp/a.b/clip.WAV") DEFAULT_PROMPT [] (u "json") 0 3
           (request_of (u "json") None) (u "json")).
  vm_compute. reflexivity.
Defined.

Section Sent.

Variable get_prompt_content : list (pystr * pystr) -> pystr -> option pystr.
Variables (self : self_t) (w : world).
Variables (model file_path preset user_input response_format : pystr).
Variable temperature : float.

Let ready : option (request * pystr) :=
  prepared get_prompt_content self w model file_path preset user_input
    response_format temperature.

(** X7. The format asked of the endpoint is json, verbose_json or text: the
    two formats made from the segments are asked for as verbose_json,
    the other three as they are. *)
Theorem derived_formats_sent_as_verbose_json req api_response_format :
  ready = Some (req, api_response_format) ->
  dict_get (u "response_format") (data req) = Some api_response_format
  /\ In api_response_format [u "json"; u "verbose_json"; u "text"]
  /\ (In response_format [u "text_with_timestamps"; u "text_with_linebreaks"] ->
      api_response_format = u "verbose_json")
  /\ (In response_format [u "json"; u "verbose_json"; u "text"] ->
      api_response_format = response_format).
Proof.
  unfold ready, prepared.
  destruct (isfile w file_path && mem _ SUPPORTED_AUDIO_FORMATS); [|discriminate].
  destruct (read_file w file_path) as [audio|]; [|discriminate].
  destruct (build_prompt get_prompt_content self preset user_input)
    as [prompt|]; [|discriminate].
  destruct (wire_format response_format) as [api|] eqn:Hw; [|discriminate].
  intros [= <- <-]. split; [reflexivity|].
  apply wire_format_cases in Hw.
  destruct Hw as [[-> H] | [-> H]].
  - split; [exact H|]. split; [|reflexivity].
    intros H'. cbn [In] in H, H'.
    decompose [or] H; decompose [or] H'; try contradiction; subst;
      try discriminate; reflexivity.
  - split; [right; now left|]. split; [reflexivity|].
    intros H'. cbn [In] in H, H'.
    decompose [or] H; decompose [or] H'; try contradiction; subst;
      try discriminate; reflexivity.
Qed.

End Sent.

Lemma derived_formats_sent_as_verbose_json_witness :
  dict_get (u "response_format") (data (request_of (u "verbose_json") None))
  = Some (u "verbose_json")
  /\ In (u "verbose_json") [u "json"; u "verbose_json"; u "text"]
  /\ (In (u "text_with_timestamps")
        [u "text_with_timestamps"; u "text_with_linebreaks"] ->
      u "verbose_json" = u "verbose_json")
  /\ (In (u "text_with_timestamps") [u "json"; u "verbose_json"; u "text"] ->
      u "verbose_json" = u "text_with_timestamps").
Proof.
  apply (derived_formats_sent_as_verbose_json lookup0 self0 (world_of [])
           (u "whisper-large-v3") (u "/tmp/a.b/clip.WAV") DEFAULT_PROMPT []
           (u "text_with_timestamps") 0).
  vm_compute. reflexivity.
Defined.

(** ** Pieces of a path *)

(** Text without the separator, added at the end, lengthens the last
    piece. *)
Lemma split_app_last c a b :
  ~ In c b ->
  split c (a ++ b) = removelast (split c a) ++ [last (split c a) [] ++ b].
Proof.
  intros Hb. induction a as [|x a IH].
  - simpl. now rewrite split_without.
  - cbn [app split]. destruct (N.eqb x c).
    + rewrite IH. pose proof (split_nonempty c a) as Hne.
      destruct (split c a) as [|p ps]; [contradiction|]. reflexivity.
    + rewrite IH. pose proof (split_nonempty c a) as Hne.
      destruct (split c a) as [|p [|q qs]]; [contradiction| |]; reflexivity.
Qed.

Lemma last_piece_app c a b :
  ~ In c b -> last_piece (split c (a ++ b)) = last_piece (split c a) ++ b.
Proof.
  intros Hb. unfold last_piece. rewrite split_app_last by assumption.
  now rewrite last_last.
Qed.

(** No piece holds the separator. *)
Lemma split_pieces c s : Forall (fun p => ~ In c p) (split c s).
Proof.
  induction s as [|x s IH]; simpl.
  - constructor; [tauto | constructor].
  - destruct (N.eqb_spec x c) as [->|Hx].
    + constructor; [tauto | exact IH].
    + destruct (split c s) as [|p ps]; [constructor; [|constructor]|].
      * intros [H|[]]. congruence.
      * inversion IH as [|? ? Hp Hps]; subst. constructor; [|exact Hps].
        intros [H|H]; [congruence | contradiction].
Qed.

Lemma last_piece_without c s : ~ In c (last_piece (split c s)).
Proof.
  unfold last_piece. pose proof (split_pieces c s) as H.
  rewrite Forall_forall in H. apply H.
  rewrite (app_removelast_last [] (split_nonempty c s)) at 2.
  apply in_or_app. right. now left.
Qed.

Lemma split_single c s p : split c s = [p] -> p = s.
Proof.
  revert p. induction s as [|x s IH]; intros p; simpl.
  - now intros [= <-].
  - destruct (N.eqb x c).
    + intros [= <- H]. now apply split_nonempty in H.
    + destruct (split c s) as [|q qs] eqn:E;
        [exfalso; revert E; apply split_nonempty|].
      intros [= <- ->]. now rewrite (IH q eq_refl).
Qed.

(** A string is its last piece, after nothing or after a text that ends
    with the separator. *)
Lemma before_last_piece c s :
  exists pre, s = pre ++ last_piece (split c s)
    /\ (pre = [] \/ exists a, pre = a ++ [c]).
Proof.
  induction s as [|x s IH].
  - exists []. split; [reflexivity | now left].
  - destruct IH as [pre [Hs Hpre]]. unfold last_piece in *. cbn [split].
    pose proof (split_nonempty c s) as Hne.
    destruct (N.eqb_spec x c) as [->|Hx].
    + exists (c :: pre). split.
      * destruct (split c s) as [|p ps]; [contradiction|].
        cbn [app]. f_equal. exact Hs.
      * right. destruct Hpre as [->|[a ->]]; [now exists [] | now exists (c :: a)].
    + destruct (split c s) as [|p [|q qs]] eqn:E; [contradiction| |].
      * exists []. split; [|now left]. cbn [last app].
        now rewrite (split_single c s p E).
      * exists (x :: pre). split.
        { cbn [app]. f_equal. exact Hs. }
        right. destruct Hpre as [->|[a ->]]; [|now exists (x :: a)].
        exfalso. cbn [app] in Hs.
        pose proof (last_piece_without c s) as Hw. unfold last_piece in Hw.
        rewrite E, <- Hs in Hw. apply split_without in Hw.
        rewrite Hw in E. discriminate.
Qed.

(** When the extension holds no slash, it is the extension of the base
    name as well. *)
Lemma extension_of_basename path :
  ~ In 47%N (last_piece (split 46 path)) ->
  last_piece (split 46 (basename path)) = last_piece (split 46 path).
Proof.
  intros Hs. unfold basename.
  destruct (before_last_piece 46 path) as [pre [Hp Hpre]].
  set (ext := last_piece (split 46 path)) in *.
  assert (Hd : ~ In 46%N ext) by apply last_piece_without.
  rewrite Hp at 1. rewrite last_piece_app by assumption.
  destruct Hpre as [->|[a ->]].
  - cbn [split last_piece last app]. now apply extension_without_dot.
  - assert (H46 : ~ In 47%N [46%N]) by (intros [H|H]; [discriminate H | exact H]).
    rewrite (last_piece_app 47 a [46%N] H46).
    rewrite <- app_assoc. cbn [app]. now apply extension_after_last_dot.
Qed.

Lemma lower_keeps_slash s : In 47%N s -> In 47%N (lower s).
Proof.
  intros H. unfold lower. apply in_map_iff. exists 47%N. split; [reflexivity | exact H].
Qed.

Lemma supported_without_slash e :
  In (lower e) SUPPORTED_AUDIO_FORMATS -> ~ In 47%N e.
Proof.
  intros Hin Hs. apply lower_keeps_slash in Hs.
  revert Hs. generalize dependent (lower e). intros l Hin.
  vm_compute in Hin. decompose [or] Hin; try contradiction; subst l;
    vm_compute; intros H; decompose [or] H; try discriminate; assumption.
Qed.

Section Paths.

Variable get_prompt_content : list (pystr * pystr) -> pystr -> option pystr.
Variables (self : self_t) (w : world).
Variables (model preset user_input response_format : pystr).
Variables (temperature : float) (max_retries : Z).

Let run_on (file_path : pystr) : list event * outcome :=
  process_translation_request get_prompt_content self w model file_path
    preset user_input response_format temperature max_retries.

(** X8. The check reads what follows the last dot and ignores its case: an
    existing file is let through, and opened, exactly when that text in
    lower case is a supported format. *)
Theorem extension_check_ignores_case stem ext :
  isfile w (stem ++ 46%N :: ext) = true ->
  ~ In 46%N ext ->
  (In (lower ext) SUPPORTED_AUDIO_FORMATS
   <-> exists tr o,
         run_on (stem ++ 46%N :: ext) = (EvOpen (stem ++ 46%N :: ext) :: tr, o)).
Proof.
  intros Hf Hd. split.
  - intros Hin. apply past_validation_trace; [exact Hf|].
    now rewrite extension_after_last_dot.
  - intros [tr [o E]].
    destruct (in_dec (list_eq_dec N.eq_dec) (lower ext) SUPPORTED_AUDIO_FORMATS)
      as [Hin|Hn]; [assumption|].
    exfalso. unfold run_on in E.
    rewrite rejected_when_not_supported in E; [discriminate|exact Hf|].
    now rewrite extension_after_last_dot.
Qed.

(** X9. What is uploaded: the bytes read from the file, under the base name
    of the path, which holds no slash and ends with the extension that
    was checked. *)
Theorem uploaded_name_keeps_extension file_path req api_response_format :
  prepared get_prompt_content self w model file_path preset user_input
    response_format temperature = Some (req, api_response_format) ->
  exists audio_data,
    read_file w file_path = Some audio_data
    /\ files req = [(u "file", (basename file_path, audio_data))]
    /\ ~ In 47%N (basename file_path)
    /\ last_piece (split 46 (basename file_path)) = last_piece (split 46 file_path)
    /\ In (lower (last_piece (split 46 (basename file_path))))
         SUPPORTED_AUDIO_FORMATS.
Proof.
  unfold prepared.
  destruct (isfile w file_path); [|discriminate]. cbn [andb].
  destruct (mem _ SUPPORTED_AUDIO_FORMATS) eqn:Hm; [|discriminate].
  apply mem_In in Hm.
  destruct (read_file w file_path) as [audio|]; [|discriminate].
  destruct (build_prompt _ _ _ _) as [prompt|]; [|discriminate].
  destruct (wire_format response_format) as [api|]; [|discriminate].
  intros [= <- <-]. exists audio.
  assert (He : last_piece (split 46 (basename file_path))
               = last_piece (split 46 file_path)).
  { apply extension_of_basename. now apply supported_without_slash. }
  split; [reflexivity|]. split; [reflexivity|].
  split; [apply last_piece_without|]. split; [exact He|]. now rewrite He.
Qed.

End Paths.

Lemma extension_check_ignores_case_witness :
  In (lower (u "WaV")) SUPPORTED_AUDIO_FORMATS
  <-> exists tr o,
        process_translation_request lookup0 self0 (world_of []) (u "whisper-large-v3")
          (u "/tmp/a.b/clip" ++ 46%N :: u "WaV") DEFAULT_PROMPT [] (u "json") 0 2
        = (EvOpen (u "/tmp/a.b/clip" ++ 46%N :: u "WaV") :: tr, o).
Proof.
  apply (extension_check_ignores_case lookup0 self0 (world_of [])
           (u "whisper-large-v3") DEFAULT_PROMPT [] (u "json") 0 2
           (u "/tmp/a.b/clip") (u "WaV")).
  - reflexivity.
  - not_in_literal.
Defined.

Lemma uploaded_name_keeps_extension_witness :
  exists audio_data,
    read_file (world_of []) (u "/tmp/a.b/clip.WAV") = Some audio_data
    /\ files (request_of (u "json") None)
       = [(u "file", (basename (u "/tmp/a.b/clip.WAV"), audio_data))]
    /\ ~ In 47%N (basename (u "/tmp/a.b/clip.WAV"))
    /\ last_piece (split 46 (basename (u "/tmp/a.b/clip.WAV")))
       = last_piece (split 46 (u "/tmp/a.b/clip.WAV"))
    /\ In (lower (last_piece (split 46 (basename (u "/tmp/a.b/clip.WAV")))))
         SUPPORTED_AUDIO_FORMATS.
Proof.
  apply (uploaded_name_keeps_extension lookup0 self0 (world_of [])
           (u "whisper-large-v3") DEFAULT_PROMPT [] (u "json") 0
           (u "/tmp/a.b/clip.WAV") (request_of (u "json") None) (u "json")).
  vm_compute. reflexivity.
Defined.

(** ** Trimming, again *)

Lemma lstrip_suffix s : exists p, s = p ++ lstrip s.
Proof.
  induction s as [|c r [p Hp]]; [now exists []|]. simpl.
  destruct (isspace c); [|now exists []].
  exists (c :: p). simpl. now f_equal.
Qed.

Lemma last_app_cons {A} (p : list A) c r d : last (p ++ c :: r) d = last (c :: r) d.
Proof. apply last_app_nonempty. discriminate. Qed.

Lemma rstrip_last s : rstrip s = [] \/ isspace (last (rstrip s) 0%N) = false.
Proof.
  unfold rstrip. destruct (lstrip (rev s)) as [|c r] eqn:E; [now left|].
  right. apply lstrip_head in E. simpl. now rewrite last_last.
Qed.

(** What [strip] leaves has no white space at either end. *)
Lemma strip_trimmed s : trimmed (strip s).
Proof.
  unfold trimmed. destruct (strip s) as [|c r] eqn:E; [exact I|].
  split; [now apply strip_head in E|].
  unfold strip in E.
  destruct (lstrip_suffix (rstrip s)) as [p Hp]. rewrite E in Hp.
  destruct (rstrip_last s) as [Hn|Hl].
  - rewrite Hn in Hp. destruct p; discriminate.
  - rewrite Hp in Hl. now rewrite last_app_cons in Hl.
Qed.

Lemma strip_keeps_head c r : isspace c = false -> exists r', strip (c :: r) = c :: r'.
Proof.
  intros Hc. rewrite strip_is_rstrip, rstrip_cons by assumption. eauto.
Qed.

(** ** Substitution *)

Lemma startswith_app old s : startswith old s = true <-> exists r, s = old ++ r.
Proof.
  revert s. induction old as [|a old IH]; intros s; simpl.
  - split; [intros _; now exists s | reflexivity].
  - destruct s as [|b s]; [split; [discriminate | intros [r Hr]; discriminate]|].
    rewrite andb_true_iff, N.eqb_eq, IH. split.
    + intros [-> [r ->]]. now exists r.
    + intros [r [= -> ->]]. split; [reflexivity | now exists r].
Qed.

(** The characters of a match still to be dropped are dropped. *)
Lemma replace_from_skip old new a s :
  replace_from old new (List.length a) (a ++ s) = replace_from old new 0 s.
Proof.
  induction a as [|x a IH]; [reflexivity|].
  cbn [List.length app replace_from]. exact IH.
Qed.

Lemma replace_from_match old new c o s :
  old = c :: o ->
  replace_from old new 0 (old ++ s) = new ++ replace_from old new 0 s.
Proof.
  intros ->. cbn [app replace_from].
  assert (H : startswith (c :: o) (c :: o ++ s) = true).
  { apply startswith_app. now exists s. }
  rewrite H. f_equal.
  replace (List.length (c :: o) - 1) with (List.length o) by (simpl; lia).
  apply replace_from_skip.
Qed.

Lemma occurs_cons old x s : occurs old s -> occurs old (x :: s).
Proof. intros [a [b ->]]. now exists (x :: a), b. Qed.

(** A text in which [old] does not stand is left as it is. *)
Lemma replace_absent old new s : ~ occurs old s -> replace old new s = s.
Proof.
  unfold replace. induction s as [|x s IH]; intros Hn; [reflexivity|].
  cbn [replace_from].
  destruct (startswith old (x :: s)) eqn:E.
  - exfalso. apply Hn. apply startswith_app in E. destruct E as [r Hr].
    now exists [], r.
  - f_equal. apply IH. intros H. apply Hn. now apply occurs_cons.
Qed.

Lemma prefix_of_longer {A} (old r u v : list A) :
  old ++ r = u ++ v -> List.length old <= List.length u ->
  exists r', u = old ++ r'.
Proof.
  revert u. induction old as [|a old IH]; intros u H Hl; [now exists u|].
  destruct u as [|b u]; [simpl in Hl; lia|].
  simpl in H. injection H as -> H. simpl in Hl.
  destruct (IH u H) as [r' ->]; [lia|]. now exists r'.
Qed.

(** The first place where [old] stands is replaced, and the search goes
    on behind it. *)
Lemma replace_first old new p q :
  old <> [] ->
  ~ occurs old (p ++ removelast old) ->
  replace old new (p ++ old ++ q) = p ++ new ++ replace old new q.
Proof.
  intros Hne. unfold replace.
  destruct old as [|c o] eqn:Eo; [contradiction|]. rewrite <- Eo in *.
  induction p as [|x p IH]; intros Hn.
  - cbn [app]. now apply (replace_from_match old new c o).
  - cbn [app replace_from].
    destruct (startswith old (x :: p ++ old ++ q)) eqn:E.
    + exfalso. apply Hn. apply startswith_app in E. destruct E as [r Hr].
      assert (Hs : (x :: p) ++ old ++ q
                   = ((x :: p) ++ removelast old) ++ [last old 0%N] ++ q).
      { rewrite <- app_assoc. f_equal. rewrite app_assoc. f_equal.
        apply app_removelast_last. congruence. }
      change (x :: p ++ old ++ q) with ((x :: p) ++ old ++ q) in Hr.
      rewrite Hs in Hr. symmetry in Hr.
      apply prefix_of_longer in Hr.
      * destruct Hr as [r' Hr']. exists [], r'. exact Hr'.
      * cbn [List.length app]. rewrite length_app.
        assert (List.length old = S (List.length (removelast old))).
        { rewrite (app_removelast_last 0%N (l := old)) at 1 by congruence.
          rewrite length_app. simpl. lia. }
        lia.
    + f_equal. apply IH. intros H. apply Hn. cbn [app]. now apply occurs_cons.
Qed.

Lemma contains_occurs old s : contains old s = true <-> occurs old s.
Proof.
  split.
  - induction s as [|x s IH]; cbn [contains]; rewrite orb_true_iff.
    + intros [H|H]; [|discriminate]. apply startswith_app in H.
      destruct H as [r Hr]. now exists [], r.
    + intros [H|H].
      * apply startswith_app in H. destruct H as [r Hr]. now exists [], r.
      * apply occurs_cons. now apply IH.
  - intros [a [b ->]]. induction a as [|x a IH].
    + assert (H : startswith old (old ++ b) = true)
        by (apply startswith_app; now exists b).
      cbn [app]. destruct (old ++ b); cbn [contains]; now rewrite H.
    + cbn [app contains]. rewrite IH. apply orb_true_r.
Qed.

Lemma not_contains old s : contains old s = false -> ~ occurs old s.
Proof. intros H Ho. apply contains_occurs in Ho. congruence. Qed.

Lemma join_snoc_cons sep p ps z :
  join sep (p :: ps ++ [z]) = p ++ sep ++ join sep (ps ++ [z]).
Proof. cbn [join]. destruct (ps ++ [z]) eqn:E; [|reflexivity]. now destruct ps. Qed.

(** [replace] is [new.join(s.split(old))]: in a text made of pieces
    between which [old] stands, and nowhere else, every [old] gives way
    to [new]. *)
Lemma replace_joined old new pieces z :
  old <> [] ->
  Forall (fun p => ~ occurs old (p ++ removelast old)) pieces ->
  ~ occurs old z ->
  replace old new (join old (pieces ++ [z])) = join new (pieces ++ [z]).
Proof.
  intros Hne Hp Hz. induction Hp as [|p ps Hp _ IH].
  - cbn [app join]. now apply replace_absent.
  - cbn [app]. rewrite !join_snoc_cons.
    rewrite replace_first by assumption. do 2 f_equal. exact IH.
Qed.

Section Templates.

Variable get_prompt_content : list (pystr * pystr) -> pystr -> option pystr.
Variables (self : self_t) (preset user_input : pystr).

(** X10. The template of a preset is cut at its placeholders and put
    together again with the trimmed user input in their place: every
    placeholder is replaced, a template without one is sent as it is,
    and a placeholder inside the user input is not replaced again. *)
Theorem placeholders_all_replaced pieces z :
  preset <> DEFAULT_PROMPT ->
  get_prompt_content (prompt_options self) preset
  = Some (join (u "[user_input]") (pieces ++ [z])) ->
  forallb (fun p => negb (contains (u "[user_input]") (p ++ u "[user_input")))
    pieces = true ->
  contains (u "[user_input]") z = false ->
  build_prompt get_prompt_content self preset user_input
  = Some (Some (join (strip user_input) (pieces ++ [z]))).
Proof.
  intros Hp Hg Hpieces Hz. unfold build_prompt.
  apply eqb_neq in Hp. rewrite Hp, Hg. do 2 f_equal.
  apply replace_joined; [discriminate | | now apply not_contains].
  apply Forall_forall. intros p Hin.
  rewrite forallb_forall in Hpieces. specialize (Hpieces p Hin).
  apply not_contains. now apply negb_true_iff in Hpieces.
Qed.

End Templates.

Lemma placeholders_all_replaced_witness :
  build_prompt
    (fun _ _ => Some (join (u "[user_input]") ([u "Say "; u " and "] ++ [u "."])))
    self0 (u "Twice") (u " [user_input] ")
  = Some (Some (u "Say [user_input] and [user_input].")).
Proof.
  apply (placeholders_all_replaced
           (fun _ _ => Some (join (u "[user_input]") ([u "Say "; u " and "] ++ [u "."])))
           self0 (u "Twice") (u " [user_input] ") [u "Say "; u " and "] (u ".")).
  - vm_compute. discriminate.
  - reflexivity.
  - reflexivity.
  - reflexivity.
Defined.

(** ** Which answers are shaped, and which raise *)

Lemma accumulate_inv line : forall segs acc t,
  accumulate line segs acc = Some t ->
  exists ls, Forall2 (fun seg l => line seg = Some l) segs ls
    /\ t = acc ++ concat ls.
Proof.
  induction segs as [|seg segs IH]; intros acc t; simpl.
  - intros [= <-]. exists []. split; [constructor | now rewrite app_nil_r].
  - destruct (line seg) as [l|] eqn:El; [|discriminate].
    intros H. apply IH in H. destruct H as [ls [Hls ->]].
    exists (l :: ls). split; [now constructor|].
    simpl. now rewrite app_assoc.
Qed.

Lemma segments_text_inv line response_json t :
  segments_text line response_json = Some t ->
  exists segs ls,
    iterated_segments response_json segs
    /\ Forall2 (fun seg l => line seg = Some l) segs ls
    /\ t = strip (concat ls).
Proof.
  unfold segments_text, json_get.
  destruct response_json as [| | | | |l|top]; try discriminate.
  cbn [bind].
  destruct (iterate _) as [segs|] eqn:Ei; [|discriminate]. cbn [bind].
  destruct (accumulate line segs []) as [t'|] eqn:Ea; [|discriminate].
  cbn [bind]. intros [= <-].
  apply accumulate_inv in Ea. destruct Ea as [ls [Hls ->]].
  exists segs, ls. split; [|split; [exact Hls | reflexivity]].
  exists top. split; [reflexivity | exact Ei].
Qed.

Lemma segments_text_iterated line response_json segs ls :
  iterated_segments response_json segs ->
  Forall2 (fun seg l => line seg = Some l) segs ls ->
  segments_text line response_json = Some (strip (concat ls)).
Proof.
  intros [top [-> Hi]] Hl. unfold segments_text, json_get. cbn [bind].
  rewrite Hi. cbn [bind].
  rewrite (accumulate_lines line _ ls) by assumption. reflexivity.
Qed.

Lemma linebreak_line_inv seg l :
  linebreak_line seg = Some l ->
  exists t, text_segment seg t /\ l = strip t ++ [10%N].
Proof.
  unfold linebreak_line, json_get.
  destruct seg as [| | | | |?|kvs]; try discriminate. cbn [bind].
  destruct (dict_get (u "text") kvs) as [v|] eqn:E.
  - destruct v; try discriminate. cbn [json_strip bind]. intros [= <-].
    exists s. split; [|reflexivity]. exists kvs. split; [reflexivity|].
    now rewrite E.
  - cbn [json_strip bind]. intros [= <-]. exists []. split; [|reflexivity].
    exists kvs. split; [reflexivity|]. now rewrite E.
Qed.

Lemma timestamp_line_inv seg l :
  timestamp_line seg = Some l ->
  exists mi se ms t,
    stamped_segment seg (mi, se, ms, t)
    /\ l = timestamp mi se ms ++ strip t ++ [10%N].
Proof.
  unfold timestamp_line.
  destruct (json_get seg (u "start") (JInt 0)) as [st|] eqn:Eg; [|discriminate].
  cbn [bind].
  destruct (as_number st) as [n|] eqn:En; [|discriminate]. cbn [bind].
  destruct (minutes_of n) as [mi|] eqn:Emi; [|discriminate]. cbn [bind].
  destruct (seconds_of n) as [se|] eqn:Ese; [|discriminate]. cbn [bind].
  destruct (milliseconds_of n) as [ms|] eqn:Ems; [|discriminate]. cbn [bind].
  unfold json_get in *.
  destruct seg as [| | | | |?|kvs]; try discriminate. cbn [bind].
  assert (Hst : forall t, (match dict_get (u "text") kvs with
                           | Some v => v = JStr t
                           | None => t = []
                           end) ->
                stamped_segment (JObj kvs) (mi, se, ms, t)).
  { intros t Ht. split.
    - exists kvs. split; [reflexivity | exact Ht].
    - exists st, n. repeat split; assumption. }
  destruct (dict_get (u "text") kvs) as [v|] eqn:E.
  - destruct v; try discriminate. cbn [json_strip bind]. intros [= <-].
    exists mi, se, ms, s. split; [now apply Hst | reflexivity].
  - cbn [json_strip bind]. intros [= <-].
    exists mi, se, ms, []. split; [now apply Hst | reflexivity].
Qed.

(** X11. With text_with_linebreaks, the body of a 200 answer makes the
    attempt raise, and so be retried, exactly when it parses and is not
    an object whose segments are objects with a string, or nothing, as
    text. *)
Theorem linebreaks_raise_iff body :
  shape_response (u "text_with_linebreaks") (u "verbose_json") body = ShRaise
  <-> exists response_json,
        loads body = Some response_json
        /\ ~ exists segs texts,
               iterated_segments response_json segs
               /\ Forall2 text_segment segs texts.
Proof.
  unfold shape_response. eval_tests.
  destruct (loads body) as [j|].
  2:{ split; [discriminate | intros [j [H _]]; discriminate]. }
  destruct (segments_text linebreak_line j) as [t|] eqn:E.
  - split; [discriminate|]. intros [j' [[= <-] Hn]]. exfalso. apply Hn.
    apply segments_text_inv in E. destruct E as [segs [ls [Hi [Hl _]]]].
    exists segs.
    assert (Ht : exists texts, Forall2 text_segment segs texts).
    { clear -Hl. induction Hl as [|seg l segs ls H _ [texts IH]].
      - exists []. constructor.
      - apply linebreak_line_inv in H. destruct H as [t [Ht _]].
        exists (t :: texts). now constructor. }
    destruct Ht as [texts Ht]. eauto.
  - split; [|reflexivity]. intros _. exists j. split; [reflexivity|].
    intros [segs [texts [Hi Ht]]].
    rewrite (segments_text_iterated _ _ segs
               (map (fun t => strip t ++ [10%N]) texts)) in E; [discriminate|exact Hi|].
    clear -Ht. induction Ht; simpl; constructor; auto.
    now apply linebreak_line_text.
Qed.

(** X12. With text_with_timestamps, likewise: the attempt raises exactly when
    the body parses and is not an object whose segments are objects with
    a string, or nothing, as text and a number, or nothing, as start
    that lines 157-159 can convert. *)
Theorem timestamps_raise_iff body :
  shape_response (u "text_with_timestamps") (u "verbose_json") body = ShRaise
  <-> exists response_json,
        loads body = Some response_json
        /\ ~ exists segs views,
               iterated_segments response_json segs
               /\ Forall2 stamped_segment segs views.
Proof.
  unfold shape_response. eval_tests.
  destruct (loads body) as [j|].
  2:{ split; [discriminate | intros [j [H _]]; discriminate]. }
  destruct (segments_text timestamp_line j) as [t|] eqn:E.
  - split; [discriminate|]. intros [j' [[= <-] Hn]]. exfalso. apply Hn.
    apply segments_text_inv in E. destruct E as [segs [ls [Hi [Hl _]]]].
    exists segs.
    assert (Ht : exists views, Forall2 stamped_segment segs views).
    { clear -Hl. induction Hl as [|seg l segs ls H _ [views IH]].
      - exists []. constructor.
      - apply timestamp_line_inv in H. destruct H as [mi [se [ms [t [Ht _]]]]].
        exists ((mi, se, ms, t) :: views). now constructor. }
    destruct Ht as [views Ht]. eauto.
  - split; [|reflexivity]. intros _. exists j. split; [reflexivity|].
    intros [segs [views [Hi Ht]]].
    rewrite (segments_text_iterated _ _ segs
               (map (fun '(mi, se, ms, t) =>
                       timestamp mi se ms ++ strip t ++ [10%N]) views)) in E;
      [discriminate|exact Hi|].
    clear -Ht. induction Ht as [|seg [[[mi se] ms] t] segs views H _ IH];
      simpl; constructor; auto.
    now apply timestamp_line_stamped.
Qed.

(** A body of white space alone is no JSON document. *)
Lemma skip_ws_blank s : forallb is_ws s = true -> skip_ws s = [].
Proof.
  induction s as [|c r IH]; [reflexivity|]. cbn [forallb skip_ws].
  rewrite andb_true_iff. intros [-> H]. now apply IH.
Qed.

Lemma loads_blank body : forallb is_ws body = true -> loads body = None.
Proof. intros H. unfold loads. now rewrite skip_ws_blank. Qed.

Lemma timestamp_line_head seg l : timestamp_line seg = Some l -> exists r, l = 91%N :: r.
Proof.
  intros H. apply timestamp_line_inv in H.
  destruct H as [mi [se [ms [t [_ ->]]]]]. unfold timestamp. cbn [app]. eauto.
Qed.

(** Only a [dict] has [get]: line 152 or 166 raises on anything else. *)
Lemma segments_text_non_object line v :
  (forall top, v <> JObj top) -> segments_text line v = None.
Proof.
  intros H. unfold segments_text, json_get.
  destruct v; try reflexivity. now destruct (H kvs).
Qed.

Section Shaped.

Variable get_prompt_content : list (pystr * pystr) -> pystr -> option pystr.
Variables (self : self_t) (w : world).
Variables (model file_path preset user_input response_format : pystr).
Variables (temperature : float) (max_retries : Z).

Let result : list event * outcome :=
  process_translation_request get_prompt_content self w model file_path
    preset user_input response_format temperature max_retries.

Let ready : option (request * pystr) :=
  prepared get_prompt_content self w model file_path preset user_input
    response_format temperature.

(** X13. With the two formats made from the segments, 200 answers whose
    bodies parse to anything but an object are not reported as such:
    each one is slept on and retried, and when every attempt is
    answered so the call ends like a call whose requests all failed. *)
Theorem unshapeable_answers_exhaust_retries req api_response_format :
  ready = Some (req, api_response_format) ->
  response_format = u "text_with_timestamps"
  \/ response_format = u "text_with_linebreaks" ->
  (forall j, j < Z.to_nat max_retries ->
     exists r response_json,
       post w j req = PostResponse r
       /\ status_code r = 200%Z
       /\ loads (text r) = Some response_json
       /\ forall top, response_json <> JObj top) ->
  result
  = (EvOpen file_path :: raised_attempts req (Z.to_nat max_retries),
     Returned (u "Failed after all retries.") false (u "Failed after all retries")).
Proof.
  intros Hr Hf Hall.
  apply (process_prepared get_prompt_content self w model file_path preset
           user_input response_format temperature max_retries) in Hr.
  destruct Hr as [E Hw]. fold result in E. rewrite E.
  assert (Ha : api_response_format = u "verbose_json").
  { destruct Hf as [Hf|Hf]; rewrite Hf in Hw; vm_compute in Hw;
      now injection Hw as <-. }
  rewrite loop_exhausted; [reflexivity|].
  intros j Hj. right. destruct (Hall j Hj) as [r [v [Hp [H200 [Hl Hno]]]]].
  exists r. split; [exact Hp|]. split; [exact H200|].
  subst api_response_format.
  destruct Hf as [Hf|Hf]; rewrite Hf; unfold shape_response; eval_tests;
    rewrite Hl, segments_text_non_object by assumption; reflexivity.
Qed.

End Shaped.

Section Formats.

Variable get_prompt_content : list (pystr * pystr) -> pystr -> option pystr.
Variables (self : self_t) (w : world).
Variables (model file_path preset user_input response_format : pystr).
Variables (temperature : float) (max_retries : Z).

Let result : list event * outcome :=
  process_translation_request get_prompt_content self w model file_path
    preset user_input response_format temperature max_retries.

Let ready : option (request * pystr) :=
  prepared get_prompt_content self w model file_path preset user_input
    response_format temperature.


(** X15. With text, the body of the first 200 answer is returned as it is:
    not parsed, not trimmed, be it empty. *)
Theorem text_format_verbatim req api_response_format k r :
  ready = Some (req, api_response_format) ->
  response_format = u "text" ->
  k < Z.to_nat max_retries ->
  (forall j, j < k -> post w j req = PostRaises) ->
  post w k req = PostResponse r ->
  status_code r = 200%Z ->
  api_response_format = u "text"
  /\ result
     = (EvOpen file_path :: raised_attempts req k ++ [EvPost req],
        Returned (text r) true (u "200 OK")).
Proof.
  intros Hr Hf Hk Hraise Hp H200.
  apply (process_prepared get_prompt_content self w model file_path preset
           user_input response_format temperature max_retries) in Hr.
  destruct Hr as [E Hw]. fold result in E. rewrite E.
  assert (Ha : api_response_format = u "text").
  { rewrite Hf in Hw. vm_compute in Hw. now injection Hw as <-. }
  split; [exact Ha|].
  replace (Z.to_nat max_retries) with (k + S (Z.to_nat max_retries - S k)) by lia.
  rewrite loop_after_raises by (intros j Hj; left; simpl; auto).
  rewrite (loop_stops_on_shaped _ _ _ _ _ _ r (text r) true (u "200 OK"));
    [reflexivity | assumption | assumption |].
  rewrite Hf, Ha. reflexivity.
Qed.

(** X16. With every other format, a 200 answer with an empty body, or one of
    white space alone, ends the call with the triple of a body that
    does not parse; it is not retried. *)
Theorem blank_body_is_parse_failure req api_response_format k r :
  ready = Some (req, api_response_format) ->
  response_format <> u "text" ->
  k < Z.to_nat max_retries ->
  (forall j, j < k ->
     attempt_raises w req response_format api_response_format j) ->
  post w k req = PostResponse r ->
  status_code r = 200%Z ->
  forallb is_ws (text r) = true ->
  result
  = (EvOpen file_path :: raised_attempts req k ++ [EvPost req],
     Returned (u "Error parsing JSON response.") false
       (u "200 OK but failed to parse JSON")).
Proof.
  intros Hr Hf Hk Hraise Hp H200 Hb.
  apply (process_prepared get_prompt_content self w model file_path preset
           user_input response_format temperature max_retries) in Hr.
  destruct Hr as [E Hw]. fold result in E. rewrite E.
  replace (Z.to_nat max_retries) with (k + S (Z.to_nat max_retries - S k)) by lia.
  rewrite loop_after_raises by exact Hraise.
  rewrite (loop_stops_on_shaped _ _ _ _ _ _ r (u "Error parsing JSON response.")
             false (u "200 OK but failed to parse JSON"));
    [reflexivity | assumption | assumption |].
  apply wire_format_cases in Hw.
  destruct Hw as [[-> H] | [-> H]]; simpl in H;
    decompose [or] H; try contradiction; subst;
    try congruence;
    unfold shape_response; eval_tests; now rewrite loads_blank.
Qed.

(** X17. The text made from the segments has no white space at either end;
    with time stamps it is empty or starts with the bracket of the first
    stamp. *)
Theorem segment_formats_trimmed t st :
  snd result = Returned t true st ->
  (response_format = u "text_with_linebreaks" -> trimmed t)
  /\ (response_format = u "text_with_timestamps" ->
      trimmed t /\ (t = [] \/ exists r, t = 91%N :: r)).
Proof.
  intros H.
  apply (success_shaped get_prompt_content self w model file_path preset
           user_input response_format temperature max_retries) in H.
  destruct H as [api [body [Hw Hs]]].
  split; intros Hf; rewrite Hf in Hw, Hs; vm_compute in Hw; injection Hw as <-;
    unfold shape_response in Hs; revert Hs; eval_tests;
    (destruct (loads body) as [j|]; [|discriminate]).
  - destruct (segments_text linebreak_line j) as [t'|] eqn:E; [|discriminate].
    intros [= <- <-]. apply segments_text_inv in E.
    destruct E as [segs [ls [_ [_ ->]]]]. apply strip_trimmed.
  - destruct (segments_text timestamp_line j) as [t'|] eqn:E; [|discriminate].
    intros [= <- <-]. apply segments_text_inv in E.
    destruct E as [segs [ls [_ [Hl ->]]]]. split; [apply strip_trimmed|].
    assert (Hh : Forall (fun l => exists r, l = 91%N :: r) ls).
    { clear -Hl. induction Hl as [|seg l segs ls H _ IH]; constructor; auto.
      now apply timestamp_line_head in H. }
    destruct Hh as [|l ls' [r ->] _]; [now left|].
    right. cbn [concat app]. apply strip_keeps_head. reflexivity.
Qed.

End Formats.

(** ** The characters of the encoded text *)

Lemma all_literal (cls : N -> bool) s :
  forallb cls s = true -> Forall (fun c => cls c = true) s.
Proof. intros H. apply Forall_forall. now apply forallb_forall. Qed.

Ltac by_evaluation := apply all_literal; vm_compute; reflexivity.

Lemma graphic_visible c : graphic c = true -> visible c = true.
Proof.
  unfold graphic, visible. rewrite !andb_true_iff, !N.leb_le. lia.
Qed.

Lemma visible_printable c : visible c = true -> printable c = true.
Proof. unfold printable, visible. intros ->. apply orb_true_r. Qed.

Lemma all_graphic_visible s :
  Forall (fun c => graphic c = true) s -> Forall (fun c => visible c = true) s.
Proof. apply Forall_impl. exact graphic_visible. Qed.

Lemma all_visible_printable s :
  Forall (fun c => visible c = true) s -> Forall (fun c => printable c = true) s.
Proof. apply Forall_impl. exact visible_printable. Qed.

(** *** Numbers: no space, no line feed *)

Lemma graphic_digit c : is_digit c = true -> graphic c = true.
Proof.
  unfold is_digit, graphic. rewrite !andb_true_iff, !N.leb_le. lia.
Qed.

Lemma graphic_str_of_N n : Forall (fun c => graphic c = true) (str_of_N n).
Proof. eapply Forall_impl; [exact graphic_digit | apply str_of_N_digits]. Qed.

Lemma graphic_str_of_Z z : Forall (fun c => graphic c = true) (str_of_Z z).
Proof.
  eapply Forall_impl; [|apply str_of_Z_chars].
  intros c [H| ->]; [now apply graphic_digit | reflexivity].
Qed.

Lemma all_repeat (cls : N -> bool) c n :
  cls c = true -> Forall (fun c => cls c = true) (repeat c n).
Proof. intros H. induction n; simpl; constructor; auto. Qed.

Lemma graphic_format_0d w z : Forall (fun c => graphic c = true) (format_0d w z).
Proof.
  unfold format_0d.
  destruct (z <? 0)%Z; [constructor; [reflexivity|]|];
    (apply Forall_app; split; [now apply all_repeat | apply graphic_str_of_N]).
Qed.

Lemma graphic_repr_digits ds dp :
  Forall (fun c => graphic c = true) ds ->
  Forall (fun c => graphic c = true) (repr_digits ds dp).
Proof.
  intros Hd. unfold repr_digits.
  destruct ((dp <=? -4)%Z || (16 <? dp)%Z).
  - apply Forall_app. split.
    + destruct ds as [|c [|d r]]; [constructor | exact Hd |].
      inversion Hd; subst. constructor; [assumption|]. constructor; [reflexivity | assumption].
    + apply Forall_app. split.
      * constructor; [reflexivity|].
        constructor; [now destruct (dp - 1 <? 0)%Z | constructor].
      * apply graphic_format_0d.
  - destruct (dp <=? 0)%Z.
    + apply Forall_app. split; [by_evaluation|].
      apply Forall_app. split; [now apply all_repeat | exact Hd].
    + destruct (Z.of_nat (List.length ds) <=? dp)%Z.
      * apply Forall_app. split; [exact Hd|].
        apply Forall_app. split; [now apply all_repeat | by_evaluation].
      * rewrite <- (firstn_skipn (Z.to_nat dp) ds) in Hd.
        apply Forall_app in Hd. destruct Hd as [Hd1 Hd2].
        apply Forall_app. split; [exact Hd1|].
        constructor; [reflexivity | exact Hd2].
Qed.

Lemma graphic_float_repr f : Forall (fun c => graphic c = true) (float_repr f).
Proof.
  unfold float_repr. destruct (Prim2SF f) as [s|s| |s m e].
  - destruct s; by_evaluation.
  - destruct s; by_evaluation.
  - by_evaluation.
  - unfold shortest_digits.
    destruct (shortest_from _ _ _ _ _ _) as [c t].
    destruct (strip_zeros 20 c t) as [c' t'].
    apply Forall_app. split; [destruct s; [by_evaluation | constructor]|].
    apply graphic_repr_digits, graphic_str_of_N.
Qed.

Lemma graphic_dump_float f : Forall (fun c => graphic c = true) (dump_float f).
Proof.
  unfold dump_float. destruct (is_nan f); [by_evaluation|].
  destruct (f =? infinity)%float; [by_evaluation|].
  destruct (f =? neg_infinity)%float; [by_evaluation|].
  apply graphic_float_repr.
Qed.

Lemma float_repr_nonempty f : float_repr f <> [].
Proof.
  unfold float_repr. destruct (Prim2SF f) as [s|s| |s m e];
    try (destruct s; discriminate); try discriminate.
  unfold shortest_digits.
  destruct (shortest_from _ _ _ _ _ _) as [c t].
  destruct (strip_zeros 20 c t) as [c' t'].
  destruct s; [discriminate|]. cbn [app]. unfold repr_digits.
  pose proof (str_of_N_nonempty (Z.to_N c')) as Hne.
  destruct (str_of_N (Z.to_N c')) as [|d ds]; [contradiction|].
  destruct ((_ <=? -4)%Z || _).
  - destruct ds; discriminate.
  - destruct (_ <=? 0)%Z; [discriminate|].
    destruct (_ <=? _)%Z; [discriminate|].
    destruct (firstn _ _); discriminate.
Qed.

(** *** Strings: no line feed *)

Lemma visible_hex_digit n : (n < 16)%N -> visible (hex_digit n) = true.
Proof.
  intros H. unfold hex_digit, visible.
  destruct (N.ltb_spec n 10); apply andb_true_iff; split; apply N.leb_le; lia.
Qed.

Lemma visible_hex4 c : Forall (fun c => visible c = true) (hex4 c).
Proof.
  unfold hex4.
  repeat (constructor; [apply visible_hex_digit, N.mod_upper_bound; discriminate|]).
  constructor.
Qed.

Lemma visible_escape_char c : Forall (fun c => visible c = true) (escape_char c).
Proof.
  unfold escape_char.
  repeat match goal with
  | |- context [if (c =? ?k)%N then _ else _] =>
      destruct (c =? k)%N; [by_evaluation|]
  end.
  destruct ((32 <=? c) && (c <=? 126))%N eqn:E.
  - constructor; [exact E | constructor].
  - destruct (c <? 65536)%N.
    + constructor; [reflexivity|]. constructor; [reflexivity|]. apply visible_hex4.
    + apply Forall_app; split;
        (constructor; [reflexivity|]; constructor; [reflexivity|]; apply visible_hex4).
Qed.

Lemma visible_dump_string s : Forall (fun c => visible c = true) (dump_string s).
Proof.
  unfold dump_string. constructor; [reflexivity|].
  apply Forall_app. split; [|by_evaluation].
  induction s as [|c s IH]; simpl; [constructor|].
  apply Forall_app. split; [apply visible_escape_char | exact IH].
Qed.

(** *** Values *)

Lemma printable_newline_indent level :
  Forall (fun c => printable c = true) (newline_indent level).
Proof. unfold newline_indent. constructor; [reflexivity | now apply all_repeat]. Qed.

Lemma printable_dump_string s : Forall (fun c => printable c = true) (dump_string s).
Proof. apply all_visible_printable, visible_dump_string. Qed.

Lemma printable_join sep parts :
  Forall (fun c => printable c = true) sep ->
  Forall (Forall (fun c => printable c = true)) parts ->
  Forall (fun c => printable c = true) (join sep parts).
Proof.
  intros Hs Hp. induction Hp as [|p r Hp Hr IH]; [constructor|].
  cbn [join]. destruct r as [|q r]; [exact Hp|].
  apply Forall_app. split; [exact Hp|]. apply Forall_app. split; [exact Hs | exact IH].
Qed.

(** The encoder writes printable ASCII and line feeds, nothing else:
    every other character of a string is escaped. *)
Lemma printable_dumps_at v : forall level,
  Forall (fun c => printable c = true) (dumps_at level v).
Proof.
  induction v as [| b | z | f | s | l IH | kvs IH] using json_induction;
    intros level.
  - by_evaluation.
  - destruct b; by_evaluation.
  - apply all_visible_printable, all_graphic_visible, graphic_str_of_Z.
  - apply all_visible_printable, all_graphic_visible, graphic_dump_float.
  - apply printable_dump_string.
  - destruct l as [|x l]; [by_evaluation|].
    cbn [dumps_at].
    apply Forall_app. split; [by_evaluation|].
    apply Forall_app. split; [apply printable_newline_indent|].
    apply Forall_app. split.
    + apply printable_join.
      * constructor; [reflexivity | apply printable_newline_indent].
      * apply Forall_forall. intros p Hp. apply in_map_iff in Hp.
        destruct Hp as [y [<- Hy]]. rewrite Forall_forall in IH. now apply IH.
    + apply Forall_app. split; [apply printable_newline_indent | by_evaluation].
  - destruct kvs as [|kv kvs]; [by_evaluation|].
    cbn [dumps_at].
    apply Forall_app. split; [by_evaluation|].
    apply Forall_app. split; [apply printable_newline_indent|].
    apply Forall_app. split.
    + apply printable_join.
      * constructor; [reflexivity | apply printable_newline_indent].
      * apply Forall_forall. intros p Hp. apply in_map_iff in Hp.
        destruct Hp as [[k y] [<- Hy]].
        apply Forall_app. split; [apply printable_dump_string|].
        apply Forall_app. split; [by_evaluation|].
        rewrite Forall_forall in IH. now apply (IH (k, y)).
    + apply Forall_app. split; [apply printable_newline_indent | by_evaluation].
Qed.

Section Encoded.

Variable get_prompt_content : list (pystr * pystr) -> pystr -> option pystr.
Variables (self : self_t) (w : world).
Variables (model file_path preset user_input response_format : pystr).
Variables (temperature : float) (max_retries : Z).

Let result : list event * outcome :=
  process_translation_request get_prompt_content self w model file_path
    preset user_input response_format temperature max_retries.

(** X18. With json and verbose_json, the text of a success holds printable
    ASCII characters and line feeds only, whatever the body held:
    every other character of a string is written as an escape. *)
Theorem json_text_is_printable_ascii t st :
  snd result = Returned t true st ->
  response_format = u "json" \/ response_format = u "verbose_json" ->
  Forall (fun c => c = 10%N \/ (32 <= c <= 126)%N) t.
Proof.
  intros H Hf.
  apply (success_shaped get_prompt_content self w model file_path preset
           user_input response_format temperature max_retries) in H.
  destruct H as [api [body [Hw Hs]]].
  assert (Hp : Forall (fun c => printable c = true) t).
  { destruct Hf as [Hf|Hf]; rewrite Hf in Hw, Hs; vm_compute in Hw;
      injection Hw as <-; unfold shape_response in Hs; revert Hs; eval_tests;
      (destruct (loads body) as [j|]; [|discriminate]);
      intros [= <- <-]; apply printable_dumps_at. }
  eapply Forall_impl; [|exact Hp].
  intros c Hc. unfold printable, visible in Hc.
  apply orb_true_iff in Hc. destruct Hc as [Hc|Hc].
  - left. now apply N.eqb_eq.
  - right. apply andb_true_iff in Hc. destruct Hc as [H1 H2].
    apply N.leb_le in H1, H2. lia.
Qed.

End Encoded.

(** ** Keys of the parsed objects *)

Lemma distinct_keys_arr l : distinct_keys (JArr l) <-> Forall distinct_keys l.
Proof.
  cbn [distinct_keys]. induction l as [|x l IH]; split; intros H.
  - constructor.
  - exact I.
  - destruct H as [Hx Hl]. constructor; [exact Hx | now apply IH].
  - inversion H; subst. split; [assumption | now apply IH].
Qed.

Lemma distinct_keys_obj kvs :
  distinct_keys (JObj kvs)
  <-> NoDup (map fst kvs) /\ Forall (fun kv => distinct_keys (snd kv)) kvs.
Proof.
  cbn [distinct_keys]. apply and_iff_compat_l.
  induction kvs as [|[k x] l IH]; split; intros H.
  - constructor.
  - exact I.
  - destruct H as [Hx Hl]. constructor; [exact Hx | now apply IH].
  - inversion H as [|? ? Hx Hl]; subst. split; [exact Hx | now apply IH].
Qed.

Lemma dict_set_distinct k x acc :
  distinct_keys (JObj acc) -> distinct_keys x ->
  distinct_keys (JObj (dict_set k x acc)).
Proof.
  rewrite !distinct_keys_obj. intros [Hnd Hall] Hx. split.
  - destruct (dict_set_keys k x acc) as [-> | [Hn ->]]; [exact Hnd|].
    apply NoDup_app; [exact Hnd | constructor; [tauto | constructor] |].
    intros y Hy [<- | []]. contradiction.
  - apply dict_set_entries; [exact Hall|]. intros k' ->. exact Hx.
Qed.

Lemma scan_number_distinct s v t : scan_number s = Some (v, t) -> distinct_keys v.
Proof.
  unfold scan_number. destruct (sign_part s) as [neg s1].
  destruct (int_part s1) as [[ip s2]|]; [|discriminate].
  destruct (frac_part s2) as [frac s3]. destruct (exp_part s3) as [ex s4].
  intros [= <- _]. unfold number_value. destruct frac, ex; exact I.
Qed.

(** What the parser builds has distinct keys: a key met again takes the
    place of the earlier member. *)
Lemma parse_distinct fuel :
  (forall s v t, parse_value fuel s = Some (v, t) -> distinct_keys v)
  /\ (forall s acc v t, Forall distinct_keys acc ->
                        parse_elements fuel s acc = Some (v, t) -> distinct_keys v)
  /\ (forall s acc v t, distinct_keys (JObj acc) ->
                        parse_members fuel s acc = Some (v, t) -> distinct_keys v).
Proof.
  induction fuel as [|k [IHv [IHe IHm]]].
  { repeat split; discriminate. }
  assert (Hexp : forall lit v s v' t, distinct_keys v ->
                   expect lit v s = Some (v', t) -> distinct_keys v').
  { intros lit v s v' t Hv H. apply expect_suffix in H. now destruct H as [-> _]. }
  split; [|split].
  - intros s v t H. destruct s as [|c r]; [discriminate|].
    cbn [parse_value] in H.
    destruct (c =? 34)%N.
    { destruct (scan_string r []) as [[x t']|]; [|discriminate].
      injection H as <- <-. exact I. }
    destruct (c =? 123)%N.
    { cbv zeta in H. destruct (head_is 125 (skip_ws r)).
      - injection H as <- <-. apply distinct_keys_obj. split; constructor.
      - apply IHm in H; [exact H|]. apply distinct_keys_obj. split; constructor. }
    destruct (c =? 91)%N.
    { cbv zeta in H. destruct (head_is 93 (skip_ws r)).
      - injection H as <- <-. exact I.
      - apply IHe in H; [exact H | constructor]. }
    destruct (c =? 110)%N; [exact (Hexp _ JNull _ _ _ I H)|].
    destruct (c =? 116)%N; [exact (Hexp _ (JBool true) _ _ _ I H)|].
    destruct (c =? 102)%N; [exact (Hexp _ (JBool false) _ _ _ I H)|].
    destruct (c =? 78)%N; [exact (Hexp _ (JFloat nan) _ _ _ I H)|].
    destruct (c =? 73)%N; [exact (Hexp _ (JFloat infinity) _ _ _ I H)|].
    destruct ((c =? 45)%N && startswith (u "-Infinity") (c :: r));
      [exact (Hexp _ (JFloat neg_infinity) _ _ _ I H)|].
    now apply scan_number_distinct in H.
  - intros s acc v t Hacc H. cbn [parse_elements] in H.
    destruct (parse_value k s) as [[x t1]|] eqn:E; [|discriminate].
    apply IHv in E. cbv zeta in H. destruct (head_is 93 (skip_ws t1)).
    + injection H as <- <-.
      apply distinct_keys_arr. change (rev (x :: acc)) with (rev acc ++ [x]).
      apply Forall_app. split; [now apply Forall_rev | now repeat constructor].
    + destruct (head_is 44 (skip_ws t1)); [|discriminate].
      apply IHe in H; auto.
  - intros s acc v t Hacc H. cbn [parse_members] in H.
    destruct (head_is 34 s); [|discriminate].
    destruct (scan_string (tl s) []) as [[key t1]|]; [|discriminate].
    cbv zeta in H.
    destruct (head_is 58 (skip_ws t1)); [|discriminate].
    destruct (parse_value k (skip_ws (tl (skip_ws t1)))) as [[x t2]|] eqn:Ev;
      [|discriminate].
    apply IHv in Ev.
    pose proof (dict_set_distinct key x acc Hacc Ev) as Hset.
    destruct (head_is 125 (skip_ws t2)).
    + now injection H as <- <-.
    + destruct (head_is 44 (skip_ws t2)); [|discriminate].
      apply IHm in H; auto.
Qed.

Lemma loads_distinct body v : loads body = Some v -> distinct_keys v.
Proof.
  unfold loads.
  destruct (parse_value (S (List.length body)) (skip_ws body))
    as [[x t]|] eqn:E; [|discriminate].
  destruct (skip_ws t); [|discriminate]. intros [= <-].
  now apply (proj1 (parse_distinct _)) in E.
Qed.

Section Keys.

Variable get_prompt_content : list (pystr * pystr) -> pystr -> option pystr.
Variables (self : self_t) (w : world).
Variables (model file_path preset user_input response_format : pystr).
Variables (temperature : float) (max_retries : Z).

Let result : list event * outcome :=
  process_translation_request get_prompt_content self w model file_path
    preset user_input response_format temperature max_retries.

(** X19. With json and verbose_json, the text of a success is the encoding
    of a value in which no object has two members with the same key,
    even when the body repeats a key. *)
Theorem json_text_repeats_no_key t st :
  snd result = Returned t true st ->
  response_format = u "json" \/ response_format = u "verbose_json" ->
  exists response_json, t = dumps response_json /\ distinct_keys response_json.
Proof.
  intros H Hf.
  apply (success_shaped get_prompt_content self w model file_path preset
           user_input response_format temperature max_retries) in H.
  destruct H as [api [body [Hw Hs]]].
  destruct Hf as [Hf|Hf]; rewrite Hf in Hw, Hs; vm_compute in Hw;
    injection Hw as <-; unfold shape_response in Hs; revert Hs; eval_tests;
    (destruct (loads body) as [j|] eqn:El; [|discriminate]);
    intros [= <- <-]; exists j; (split; [reflexivity | now apply loads_distinct in El]).
Qed.

End Keys.

(** ** Stamps of whole seconds *)





(** ** What the class offers, and what the handler accepts *)

Lemma path_join_plain a b :
  a <> [] -> last a 0%N <> 47%N -> head_is 47 b = false ->
  path_join a b = a ++ 47%N :: b.
Proof.
  intros Ha Hl Hb. unfold path_join. rewrite Hb.
  destruct a as [|x a]; [contradiction|].
  destruct (N.eqb_spec (last (x :: a) 0%N) 47); [contradiction | reflexivity].
Qed.

Lemma last_app_literal (a b : pystr) : b <> [] -> last (a ++ b) 0%N = last b 0%N.
Proof. apply last_app_nonempty. Qed.

Section Offered.

Variable load_prompt_options : list pystr -> option (list (pystr * pystr)).
Variable config_get : pystr -> pystr -> pystr -> option pystr.
Variable Groq : pystr -> bool.
Variable get_prompt_content : list (pystr * pystr) -> pystr -> option pystr.

Variable current_directory : pystr.

Let types := INPUT_TYPES load_prompt_options current_directory.
Let instance := __init__ load_prompt_options config_get Groq current_directory.

(** X21. Both methods load the prompts from the same two files of the
    directory groq beside the module, the default ones first.  When
    that succeeds the presets offered are the default prompt and then
    the keys loaded, which are the keys of the options of every
    instance; when it raises, the presets offered are the default
    prompt alone, and no instance is built. *)
Theorem presets_offered_and_loaded :
  current_directory <> [] -> last current_directory 0%N <> 47%N ->
  match load_prompt_options
          [current_directory ++ u "/groq/DefaultPrompts_ALM_Translate.json";
           current_directory ++ u "/groq/UserPrompts_ALM_Translate.json"] with
  | Some loaded =>
      choices_of types (u "preset") = Some (DEFAULT_PROMPT :: map fst loaded)
      /\ forall self, instance = Some self -> prompt_options self = loaded
  | None =>
      choices_of types (u "preset") = Some [DEFAULT_PROMPT]
      /\ instance = None
  end.
Proof.
  intros Hne Hl.
  assert (Hg : path_join current_directory (u "groq")
               = current_directory ++ u "/groq")
    by (now apply path_join_plain).
  assert (Hf : forall name, head_is 47 name = false ->
                 path_join (current_directory ++ u "/groq") name
                 = current_directory ++ u "/groq" ++ 47%N :: name).
  { intros name Hn. rewrite path_join_plain; [now rewrite <- app_assoc| | |exact Hn].
    - destruct current_directory; discriminate.
    - rewrite last_app_literal by discriminate. discriminate. }
  unfold types, instance, INPUT_TYPES, __init__, choices_of.
  rewrite Hg, !Hf by reflexivity.
  change (current_directory ++ u "/groq"
            ++ 47%N :: u "DefaultPrompts_ALM_Translate.json")
    with (current_directory ++ u "/groq/DefaultPrompts_ALM_Translate.json").
  change (current_directory ++ u "/groq"
            ++ 47%N :: u "UserPrompts_ALM_Translate.json")
    with (current_directory ++ u "/groq/UserPrompts_ALM_Translate.json").
  cbv zeta.
  destruct (load_prompt_options _) as [loaded|].
  - split; [reflexivity|].
    intros self.
    destruct (config_get _ _ _) as [key|]; [|discriminate]. cbn [bind].
    destruct (Groq key); [|discriminate]. cbn [bind].
    now intros [= <-].
  - split; [reflexivity|].
    destruct (config_get _ _ _) as [key|]; [|reflexivity]. cbn [bind].
    now destruct (Groq key).
Qed.

End Offered.



Section OfferedAndAccepted.

Variable load_prompt_options : list pystr -> option (list (pystr * pystr)).
Variable config_get : pystr -> pystr -> pystr -> option pystr.
Variable Groq : pystr -> bool.
Variable get_prompt_content : list (pystr * pystr) -> pystr -> option pystr.

Variables (current_directory : pystr) (self : self_t) (w : world).
Variables (model file_path preset user_input response_format : pystr).
Variables (temperature : float) (max_retries : Z).

Let types := INPUT_TYPES load_prompt_options current_directory.
Let instance := __init__ load_prompt_options config_get Groq current_directory.

Let result : list event * outcome :=
  process_translation_request get_prompt_content self w model file_path
    preset user_input response_format temperature max_retries.

(** X22. The formats offered are the formats accepted: once the file is
    read and the prompt made, the call ends on Unknown response format
    exactly when the format is none of those [INPUT_TYPES] lists. *)
Theorem unknown_format_iff_not_offered :
  isfile w file_path = true ->
  In (lower (last_piece (split 46 file_path))) SUPPORTED_AUDIO_FORMATS ->
  read_file w file_path <> None ->
  build_prompt get_prompt_content self preset user_input <> None ->
  exists offered,
    choices_of types (u "response_format") = Some offered
    /\ (result
        = ([EvOpen file_path],
           Returned (u "Unknown response format.") false (u "400 Bad Request"))
        <-> ~ In response_format offered).
Proof.
  intros Hf Hx Hr Hp. eexists. split; [reflexivity|].
  unfold result, process_translation_request.
  rewrite Hf. apply mem_In in Hx. rewrite Hx. cbn [negb].
  destruct (read_file w file_path) as [audio|]; [|contradiction].
  destruct (build_prompt get_prompt_content self preset user_input) as [prompt|];
    [|contradiction].
  destruct (wire_format response_format) as [api|] eqn:Hw.
  - split.
    + intros E. exfalso.
      destruct (Z.to_nat max_retries) as [|n].
      * simpl in E. unfold after in E. simpl in E. discriminate E.
      * pose proof (loop_posts_first w
                      (build_request self model file_path audio api temperature prompt)
                      response_format api n 0) as Hc.
        destruct (retry_loop w _ response_format api (S n) 0) as [tr o].
        unfold after in E. cbn [fst snd app] in E, Hc.
        injection E as E _.
        rewrite E in Hc. unfold count_posts in Hc. simpl in Hc. lia.
    + intros Hn. exfalso. apply Hn.
      apply wire_format_cases in Hw. cbn [In] in *. tauto.
  - split; [|reflexivity]. intros _ Hin.
    unfold wire_format in Hw. rewrite <- mem_In in Hin.
    destruct (mem response_format [u "json"; u "verbose_json"; u "text"]) eqn:E1;
      [discriminate|].
    destruct (mem response_format
                [u "text_with_timestamps"; u "text_with_linebreaks"]) eqn:E2;
      [discriminate|].
    rewrite <- not_true_iff_false in E1, E2. rewrite mem_In in E1, E2, Hin.
    cbn [In] in *. tauto.
Qed.


End OfferedAndAccepted.

Lemma unshapeable_answers_exhaust_retries_witness :
  run [ok200 (u "[]"); ok200 (u "3")] DEFAULT_PROMPT [] (u "text_with_linebreaks") 2
  = (EvOpen (u "/tmp/a.b/clip.WAV")
       :: raised_attempts (request_of (u "verbose_json") None) (Z.to_nat 2),
     Returned (u "Failed after all retries.") false (u "Failed after all retries")).
Proof.
  apply (unshapeable_answers_exhaust_retries lookup0 self0
           (world_of [ok200 (u "[]"); ok200 (u "3")]) (u "whisper-large-v3")
           (u "/tmp/a.b/clip.WAV") DEFAULT_PROMPT [] (u "text_with_linebreaks") 0 2
           (request_of (u "verbose_json") None) (u "verbose_json")).
  - vm_compute. reflexivity.
  - right. reflexivity.
  - intros j Hj.
    assert (j = 0 \/ j = 1) as [-> | ->] by (vm_compute in Hj; lia).
    + exists {| status_code := 200; reason := u "OK"; text := u "[]" |}, (JArr []).
      repeat split; discriminate.
    + exists {| status_code := 200; reason := u "OK"; text := u "3" |}, (JInt 3).
      repeat split; discriminate.
Defined.


Lemma text_format_verbatim_witness :
  u "text" = u "text"
  /\ run [PostRaises; ok200 (u " spoken words
")] DEFAULT_PROMPT [] (u "text") 2
     = (EvOpen (u "/tmp/a.b/clip.WAV")
          :: raised_attempts (request_of (u "text") None) 1
          ++ [EvPost (request_of (u "text") None)],
        Returned (u " spoken words
") true (u "200 OK")).
Proof.
  apply (text_format_verbatim lookup0 self0
           (world_of [PostRaises; ok200 (u " spoken words
")]) (u "whisper-large-v3")
           (u "/tmp/a.b/clip.WAV") DEFAULT_PROMPT [] (u "text") 0 2
           (request_of (u "text") None) (u "text") 1
           {| status_code := 200; reason := u "OK"; text := u " spoken words
" |}).
  - vm_compute. reflexivity.
  - reflexivity.
  - vm_compute. lia.
  - intros j Hj. assert (j = 0) by lia. subst j. reflexivity.
  - reflexivity.
  - reflexivity.
Defined.

Lemma blank_body_is_parse_failure_witness :
  run [ok200 (u " ")] DEFAULT_PROMPT [] (u "text_with_timestamps") 2
  = (EvOpen (u "/tmp/a.b/clip.WAV")
       :: raised_attempts (request_of (u "verbose_json") None) 0
       ++ [EvPost (request_of (u "verbose_json") None)],
     Returned (u "Error parsing JSON response.") false
       (u "200 OK but failed to parse JSON")).
Proof.
  apply (blank_body_is_parse_failure lookup0 self0
           (world_of [ok200 (u " ")]) (u "whisper-large-v3")
           (u "/tmp/a.b/clip.WAV") DEFAULT_PROMPT [] (u "text_with_timestamps") 0 2
           (request_of (u "verbose_json") None) (u "verbose_json") 0
           {| status_code := 200; reason := u "OK"; text := u " " |}).
  - vm_compute. reflexivity.
  - vm_compute. discriminate.
  - vm_compute. lia.
  - intros j Hj. lia.
  - reflexivity.
  - reflexivity.
  - reflexivity.
Defined.

Lemma segment_formats_trimmed_witness :
  (u "text_with_timestamps" = u "text_with_linebreaks" ->
   trimmed (u "[01:05.250]hi
[00:00.000]bye"))
  /\ (u "text_with_timestamps" = u "text_with_timestamps" ->
      trimmed (u "[01:05.250]hi
[00:00.000]bye")
      /\ (u "[01:05.250]hi
[00:00.000]bye" = []
          \/ exists r, u "[01:05.250]hi
[00:00.000]bye" = 91%N :: r)).
Proof.
  apply (segment_formats_trimmed lookup0 self0
           (world_of [ok200 body_segments]) (u "whisper-large-v3")
           (u "/tmp/a.b/clip.WAV") DEFAULT_PROMPT [] (u "text_with_timestamps") 0 2
           _ (u "200 OK")).
  vm_compute. reflexivity.
Defined.

Lemma json_text_is_printable_ascii_witness :
  Forall (fun c => c = 10%N \/ (32 <= c <= 126)%N)
    (u "{
    'text': 'b\u00e9'
}" /. 39 ~> 34).
Proof.
  apply (json_text_is_printable_ascii lookup0 self0
           (world_of [ok200 body_twice]) (u "whisper-large-v3")
           (u "/tmp/a.b/clip.WAV") DEFAULT_PROMPT [] (u "json") 0 2
           _ (u "200 OK")).
  - vm_compute. reflexivity.
  - left. reflexivity.
Defined.

Lemma json_text_repeats_no_key_witness :
  exists response_json,
    (u "{
    'text': 'b\u00e9'
}" /. 39 ~> 34) = dumps response_json
    /\ distinct_keys response_json.
Proof.
  apply (json_text_repeats_no_key lookup0 self0
           (world_of [ok200 body_twice]) (u "whisper-large-v3")
           (u "/tmp/a.b/clip.WAV") DEFAULT_PROMPT [] (u "json") 0 2
           _ (u "200 OK")).
  - vm_compute. reflexivity.
  - left. reflexivity.
Defined.

Lemma presets_offered_and_loaded_witness :
  choices_of (INPUT_TYPES load0 (u "/nodes")) (u "preset")
  = Some [DEFAULT_PROMPT; u "Formal"]
  /\ __init__ load0 config0 Groq0 (u "/nodes") = Some self0
  /\ choices_of (INPUT_TYPES (fun _ => None) (u "/nodes")) (u "preset")
     = Some [DEFAULT_PROMPT]
  /\ __init__ (fun _ => None) config0 Groq0 (u "/nodes") = None.
Proof.
  pose proof (presets_offered_and_loaded load0 config0 Groq0 (u "/nodes")
                ltac:(discriminate) ltac:(discriminate)) as H1.
  pose proof (presets_offered_and_loaded (fun _ => None) config0 Groq0 (u "/nodes")
                ltac:(discriminate) ltac:(discriminate)) as H2.
  cbv beta iota in H2.
  change (load0 [u "/nodes" ++ u "/groq/DefaultPrompts_ALM_Translate.json";
                 u "/nodes" ++ u "/groq/UserPrompts_ALM_Translate.json"])
    with (Some (prompt_options self0)) in H1.
  cbv beta iota in H1.
  destruct H1 as [H1 _]. destruct H2 as [H2 H3].
  split; [exact H1|]. split; [reflexivity|]. split; [exact H2 | exact H3].
Defined.

Lemma unknown_format_iff_not_offered_witness :
  exists offered,
    choices_of (INPUT_TYPES load0 (u "/nodes")) (u "response_format") = Some offered
    /\ (run [] DEFAULT_PROMPT [] (u "srt") 2
        = ([EvOpen (u "/tmp/a.b/clip.WAV")],
           Returned (u "Unknown response format.") false (u "400 Bad Request"))
        <-> ~ In (u "srt") offered).
Proof.
  apply (unknown_format_iff_not_offered load0 lookup0 (u "/nodes") self0
           (world_of []) (u "whisper-large-v3") (u "/tmp/a.b/clip.WAV")
           DEFAULT_PROMPT [] (u "srt") 0 2).
  - reflexivity.
  - vm_compute. tauto.
  - discriminate.
  - discriminate.
Defined.


(** ** More turns of the loop *)

Section MoreRetries.

Variable get_prompt_content : list (pystr * pystr) -> pystr -> option pystr.
Variables (self : self_t) (w : world).
Variables (model file_path preset user_input response_format : pystr).
Variable temperature : float.

Let result (max_retries : Z) : list event * outcome :=
  process_translation_request get_prompt_content self w model file_path
    preset user_input response_format temperature max_retries.

Let ready : option (request * pystr) :=
  prepared get_prompt_content self w model file_path preset user_input
    response_format temperature.

(** X24. An answer that ended the call is not changed by allowing more
    retries: the same requests are posted and the same triple is
    returned.  Only a call that exhausted its retries can end
    otherwise with more of them. *)
Theorem more_retries_keep_answer req api_response_format n n' :
  ready = Some (req, api_response_format) ->
  (n <= n')%Z ->
  count_posts (fst (result n)) = Z.to_nat n
  /\ snd (result n)
     = Returned (u "Failed after all retries.") false (u "Failed after all retries")
  \/ result n' = result n.
Proof.
  intros Hr Hn.
  pose proof (process_prepared get_prompt_content self w model file_path preset
                user_input response_format temperature n _ _ Hr) as [E Hw].
  pose proof (process_prepared get_prompt_content self w model file_path preset
                user_input response_format temperature n' _ _ Hr) as [E' _].
  fold (result n) in E. fold (result n') in E'. rewrite E, E'.
  destruct (loop_outcome w req response_format api_response_format
              (Z.to_nat n) Hw 0)
    as [[El _] | [k [r [Hk [Hall [Hp [Ef Hs]]]]]]].
  - left. rewrite El. unfold after. cbn [fst snd app].
    rewrite count_posts_cons_open, count_posts_raised. split; reflexivity.
  - right.
    assert (Hk' : k < Z.to_nat n') by lia.
    replace (Z.to_nat n) with (k + S (Z.to_nat n - S k)) by lia.
    replace (Z.to_nat n') with (k + S (Z.to_nat n' - S k)) by lia.
    rewrite !loop_after_raises by exact Hall.
    destruct Hs as [[H200 _] | [H200 [t [ok [st [Hs _]]]]]].
    + rewrite !(loop_stops_on_error_status _ _ _ _ _ _ r) by assumption.
      reflexivity.
    + rewrite !(loop_stops_on_shaped _ _ _ _ _ _ r t ok st) by assumption.
      reflexivity.
Qed.

End MoreRetries.

Lemma more_retries_keep_answer_witness :
  count_posts (fst (run [PostRaises; PostResponse too_many] DEFAULT_PROMPT []
                      (u "json") 2)) = Z.to_nat 2
  /\ snd (run [PostRaises; PostResponse too_many] DEFAULT_PROMPT [] (u "json") 2)
     = Returned (u "Failed after all retries.") false (u "Failed after all retries")
  \/ run [PostRaises; PostResponse too_many] DEFAULT_PROMPT [] (u "json") 7
     = run [PostRaises; PostResponse too_many] DEFAULT_PROMPT [] (u "json") 2.
Proof.
  apply (more_retries_keep_answer lookup0 self0
           (world_of [PostRaises; PostResponse too_many]) (u "whisper-large-v3")
           (u "/tmp/a.b/clip.WAV") DEFAULT_PROMPT [] (u "json") 0
           (request_of (u "json") None) (u "json") 2 7).
  - vm_compute. reflexivity.
  - lia.
Defined.

(** ** White space around a document *)

Lemma blank_cons c x : blank (c :: x) -> is_ws c = true /\ blank x.
Proof. unfold blank. cbn [forallb]. now rewrite andb_true_iff. Qed.

Lemma blank_ends_digits x : blank x -> ends_digits x.
Proof.
  destruct x as [|c x]; [exact (fun _ => I)|]. intros H.
  apply blank_cons in H. destruct H as [H _]. cbn [ends_digits].
  unfold is_ws in H. unfold is_digit.
  repeat (apply orb_true_iff in H; destruct H as [H|H]);
    apply N.eqb_eq in H; subst; reflexivity.
Qed.

Lemma blank_ends_number x : blank x -> ends_number x.
Proof.
  destruct x as [|c x]; [exact (fun _ => I)|]. intros H.
  apply blank_cons in H. destruct H as [H _]. cbn [ends_number].
  unfold is_ws in H. unfold is_digit.
  repeat (apply orb_true_iff in H; destruct H as [H|H]);
    apply N.eqb_eq in H; subst; repeat split; discriminate.
Qed.

Lemma skip_ws_blank_app a s : blank a -> skip_ws (a ++ s) = skip_ws s.
Proof.
  induction a as [|c a IH]; [reflexivity|]. intros H.
  apply blank_cons in H. destruct H as [Hc Ha]. cbn [app skip_ws].
  rewrite Hc. now apply IH.
Qed.

Lemma skip_ws_app s x : skip_ws s <> [] -> skip_ws (s ++ x) = skip_ws s ++ x.
Proof.
  induction s as [|c s IH]; [contradiction|]. cbn [app skip_ws].
  destruct (is_ws c); [exact IH | reflexivity].
Qed.

Lemma skip_ws_nil_blank s : skip_ws s = [] <-> blank s.
Proof.
  unfold blank. induction s as [|c s IH]; [split; reflexivity|].
  cbn [skip_ws forallb]. destruct (is_ws c); cbn [andb]; [exact IH|].
  split; discriminate.
Qed.

Lemma blank_app a b : blank a -> blank b -> blank (a ++ b).
Proof. unfold blank. intros Ha Hb. now rewrite forallb_app, Ha, Hb. Qed.

Lemma skip_ws_length s : List.length (skip_ws s) <= List.length s.
Proof.
  induction s as [|c s IH]; [apply Nat.le_refl|]. cbn [skip_ws].
  destruct (is_ws c); cbn [List.length]; lia.
Qed.

Lemma head_is_app c s x : s <> [] -> head_is c (s ++ x) = head_is c s.
Proof. destruct s; [contradiction | reflexivity]. Qed.

Lemma tl_app {A} (s x : list A) : s <> [] -> tl (s ++ x) = tl s ++ x.
Proof. destruct s; [contradiction | reflexivity]. Qed.

Lemma head_is_nonempty c s : head_is c s = true -> s <> [].
Proof. destruct s; [discriminate | discriminate]. Qed.

Lemma head_is_blank c x :
  blank x -> is_ws c = false -> head_is c x = false.
Proof.
  destruct x as [|d x]; [reflexivity|]. intros H Hc.
  apply blank_cons in H. destruct H as [Hd _]. cbn [head_is].
  destruct (N.eqb_spec d c); [congruence | reflexivity].
Qed.

(** *** Numbers *)

Lemma span_digits_blank s x :
  blank x ->
  span_digits (s ++ x) = (fst (span_digits s), snd (span_digits s) ++ x).
Proof. intros H. apply span_digits_app. now apply blank_ends_digits. Qed.

Lemma is_ws_not_digit c : is_ws c = true -> is_digit c = false.
Proof.
  unfold is_ws, is_digit. intros H.
  repeat (apply orb_true_iff in H; destruct H as [H|H]);
    apply N.eqb_eq in H; subst; reflexivity.
Qed.

Lemma is_ws_neq c k : is_ws c = true -> is_ws k = false -> (c =? k)%N = false.
Proof. intros Hc Hk. destruct (N.eqb_spec c k); [congruence | reflexivity]. Qed.

Lemma int_part_blank s ip t x :
  int_part s = Some (ip, t) -> blank x -> int_part (s ++ x) = Some (ip, t ++ x).
Proof.
  intros H Hx. destruct s as [|c r]; [discriminate|].
  cbn [app int_part] in *. destruct (c =? 48)%N.
  - now injection H as <- <-.
  - destruct (is_digit c); [|discriminate].
    change (c :: r ++ x) with ((c :: r) ++ x).
    rewrite span_digits_blank by assumption.
    destruct (span_digits (c :: r)) as [d t']. now injection H as <- <-.
Qed.

Lemma frac_part_blank s x :
  blank x ->
  frac_part (s ++ x) = (fst (frac_part s), snd (frac_part s) ++ x).
Proof.
  intros Hx. destruct s as [|c [|d r]].
  - cbn [app]. destruct x as [|a [|b x']]; try reflexivity.
    apply blank_cons in Hx. destruct Hx as [Ha _]. cbn [frac_part].
    rewrite (is_ws_neq a 46 Ha eq_refl). reflexivity.
  - cbn [app]. destruct x as [|a x']; [reflexivity|].
    apply blank_cons in Hx. destruct Hx as [Ha _]. cbn [frac_part].
    rewrite (is_ws_not_digit a Ha), andb_false_r. reflexivity.
  - cbn [app frac_part]. destruct ((c =? 46)%N && is_digit d); [|reflexivity].
    change (d :: r ++ x) with ((d :: r) ++ x).
    rewrite span_digits_blank by assumption.
    now destruct (span_digits (d :: r)).
Qed.

Lemma exp_sign_blank r x :
  blank x ->
  exp_sign (r ++ x) = (fst (exp_sign r), snd (exp_sign r) ++ x).
Proof.
  intros Hx. destruct r as [|c t].
  - cbn [app]. destruct x as [|a x']; [reflexivity|].
    apply blank_cons in Hx. destruct Hx as [Ha _]. cbn [exp_sign].
    rewrite (is_ws_neq a 45 Ha eq_refl), (is_ws_neq a 43 Ha eq_refl). reflexivity.
  - cbn [app exp_sign]. destruct (c =? 45)%N; [reflexivity|].
    destruct (c =? 43)%N; reflexivity.
Qed.

Lemma exp_part_blank s x :
  blank x ->
  exp_part (s ++ x) = (fst (exp_part s), snd (exp_part s) ++ x).
Proof.
  intros Hx. destruct s as [|e r].
  - cbn [app]. destruct x as [|a x']; [reflexivity|].
    apply blank_cons in Hx. destruct Hx as [Ha _]. cbn [exp_part].
    rewrite (is_ws_neq a 101 Ha eq_refl), (is_ws_neq a 69 Ha eq_refl). reflexivity.
  - cbn [app exp_part]. destruct ((e =? 101)%N || (e =? 69)%N); [|reflexivity].
    rewrite exp_sign_blank by assumption.
    destruct (exp_sign r) as [eneg r1]. cbn [fst snd].
    rewrite span_digits_blank by assumption.
    destruct (span_digits r1) as [[|d ds] t]; reflexivity.
Qed.

Lemma scan_number_blank s v t x :
  scan_number s = Some (v, t) -> blank x ->
  scan_number (s ++ x) = Some (v, t ++ x).
Proof.
  unfold scan_number. intros H Hx.
  destruct s as [|c r]; [discriminate|].
  rewrite sign_part_app by discriminate.
  destruct (sign_part (c :: r)) as [neg s1]. cbn [fst snd].
  destruct (int_part s1) as [[ip s2]|] eqn:Ei; [|discriminate].
  rewrite (int_part_blank _ _ _ _ Ei Hx).
  rewrite frac_part_blank by assumption.
  destruct (frac_part s2) as [frac s3]. cbn [fst snd].
  rewrite exp_part_blank by assumption.
  destruct (exp_part s3) as [ex s4]. cbn [fst snd].
  now injection H as <- <-.
Qed.

Lemma expect_blank lit v s v' t x :
  expect lit v s = Some (v', t) -> expect lit v (s ++ x) = Some (v', t ++ x).
Proof.
  unfold expect. destruct (startswith lit s) eqn:E; [|discriminate].
  intros [= <- <-]. apply startswith_app in E. destruct E as [r ->].
  assert (E : startswith lit ((lit ++ r) ++ x) = true).
  { apply startswith_app. exists (r ++ x). now rewrite app_assoc. }
  rewrite E. rewrite <- app_assoc, !skipn_app, !skipn_all, Nat.sub_diag.
  reflexivity.
Qed.

(** *** Strings *)

Lemma hex_val_ws c : is_ws c = true -> hex_val c = None.
Proof.
  unfold is_ws. intros H.
  repeat (apply orb_true_iff in H; destruct H as [H|H]);
    apply N.eqb_eq in H; subst; reflexivity.
Qed.

Lemma hex4_val_ws a b c d : is_ws d = true -> hex4_val a b c d = None.
Proof.
  intros H. unfold hex4_val. rewrite (hex_val_ws d H).
  destruct (hex_val a), (hex_val b), (hex_val c); reflexivity.
Qed.

(** Six characters, the first five or fewer of which come before white
    space, end with white space. *)
Lemma sixth_is_blank (p x : pystr) b v l1 l2 l3 l4 r3 :
  List.length p < 6 -> blank x ->
  p ++ x = b :: v :: l1 :: l2 :: l3 :: l4 :: r3 -> is_ws l4 = true.
Proof.
  intros Hp Hx E.
  assert (Hn : nth 5 (p ++ x) 32%N = l4) by (now rewrite E).
  rewrite <- Hn. unfold blank in Hx. rewrite forallb_forall in Hx.
  destruct (Nat.lt_ge_cases 5 (List.length (p ++ x))) as [Hl|Hl].
  - rewrite app_nth2 by lia. apply Hx. apply nth_In.
    rewrite length_app in Hl. lia.
  - rewrite E in Hl. cbn [List.length] in Hl. lia.
Qed.

Lemma no_join_blank_app c1 r2 x : no_join c1 r2 -> blank x -> no_join c1 (r2 ++ x).
Proof.
  intros Hn Hx Hhigh b v l1 l2 l3 l4 r3 c2 E Hl.
  destruct (Nat.lt_ge_cases (List.length r2) 6) as [Hlen|Hlen].
  - rewrite (hex4_val_ws l1 l2 l3 l4) in Hl; [discriminate|].
    now apply (sixth_is_blank r2 x b v l1 l2 l3 l4 r3).
  - destruct r2 as [|b' [|v' [|l1' [|l2' [|l3' [|l4' r3']]]]]];
      cbn [List.length] in Hlen; try lia.
    cbn [app] in E. injection E as <- <- <- <- <- <- _.
    now apply (Hn Hhigh b' v' l1' l2' l3' l4' r3' c2).
Qed.

(** White space after the text does not change how a string is read. *)
Lemma scan_string_blank x n : forall s acc out t,
  List.length s <= n -> blank x ->
  scan_string s acc = Some (out, t) ->
  scan_string (s ++ x) acc = Some (out, t ++ x).
Proof.
  induction n as [|n IH]; intros s acc out t Hlen Hx H.
  { destruct s; [discriminate | cbn in Hlen; lia]. }
  destruct s as [|c r]; [discriminate|].
  cbn [List.length] in Hlen. cbn [app].
  destruct (N.eqb_spec c 34) as [->|H34].
  { rewrite scan_quote in *. now injection H as <- <-. }
  destruct (N.eqb_spec c 92) as [->|H92].
  - destruct r as [|e r1]; [discriminate|].
    destruct (N.eqb_spec e 117) as [->|H117].
    + destruct r1 as [|h1 [|h2 [|h3 [|h4 r2]]]]; try discriminate.
      destruct (hex4_val h1 h2 h3 h4) as [c1|] eqn:Hh.
      2:{ cbn [scan_string] in H.
          change (92 =? 34)%N with false in H. change (92 =? 92)%N with true in H.
          change (117 =? 117)%N with true in H. cbv iota in H.
          rewrite Hh in H. discriminate. }
      cbn [app].
      destruct (scan_u_step h1 h2 h3 h4 r2 acc c1 Hh)
        as [[E Hnj] | [l1 [l2 [l3 [l4 [r3 [c2 [-> [Hl [Hhi [Hlo E]]]]]]]]]]];
        rewrite E in H.
      * rewrite (scan_u_single h1 h2 h3 h4 c1);
          [|exact Hh | now apply no_join_blank_app].
        apply IH; trivial. cbn [List.length] in Hlen. lia.
      * cbn [app]. rewrite (scan_u_pair _ _ _ _ _ _ _ _ c1 c2) by assumption.
        apply IH; trivial. cbn [List.length] in Hlen. lia.
    + destruct (simple_escape e) as [y|] eqn:Ee.
      2:{ cbn [scan_string] in H.
          change (92 =? 34)%N with false in H. change (92 =? 92)%N with true in H.
          apply N.eqb_neq in H117. rewrite H117, Ee in H. discriminate. }
      cbn [app]. rewrite (scan_simple e y) in * by assumption.
      apply IH; trivial. cbn [List.length] in Hlen. lia.
  - destruct (N.ltb_spec c 32) as [Hlt|Hge].
    { cbn [scan_string] in H. apply N.eqb_neq in H34, H92.
      rewrite H34, H92 in H. apply N.ltb_lt in Hlt. rewrite Hlt in H.
      discriminate. }
    rewrite scan_plain in * by assumption.
    apply IH; trivial. lia.
Qed.

(** *** Values *)

Lemma parse_value_nil k : parse_value k [] = None.
Proof. now destruct k. Qed.

Lemma parse_elements_nil k acc : parse_elements k [] acc = None.
Proof. destruct k as [|k]; [reflexivity|]. cbn [parse_elements]. now rewrite parse_value_nil. Qed.

Lemma parse_members_nil k acc : parse_members k [] acc = None.
Proof. now destruct k. Qed.

Lemma startswith_blank lit x : forall s,
  blank x -> forallb (fun c => negb (is_ws c)) lit = true ->
  startswith lit (s ++ x) = startswith lit s.
Proof.
  induction lit as [|a lit IH]; intros s Hx Hl; [reflexivity|].
  cbn [forallb] in Hl. apply andb_true_iff in Hl. destruct Hl as [Ha Hl].
  destruct s as [|b s].
  - cbn [app startswith]. destruct x as [|c x]; [reflexivity|].
    apply blank_cons in Hx. destruct Hx as [Hc _].
    destruct (N.eqb_spec a c) as [->|_]; [|reflexivity].
    rewrite Hc in Ha. discriminate.
  - cbn [app startswith]. now rewrite IH.
Qed.

(** White space after the text does not change what the parser reads
    at its head. *)
Lemma parse_blank x k :
  blank x ->
  (forall s v t, parse_value k s = Some (v, t) ->
                 parse_value k (s ++ x) = Some (v, t ++ x))
  /\ (forall s acc v t, parse_elements k s acc = Some (v, t) ->
                        parse_elements k (s ++ x) acc = Some (v, t ++ x))
  /\ (forall s acc v t, parse_members k s acc = Some (v, t) ->
                        parse_members k (s ++ x) acc = Some (v, t ++ x)).
Proof.
  intros Hx. induction k as [|k [IHv [IHe IHm]]].
  { repeat split; discriminate. }
  assert (Hskip : forall s, skip_ws s <> [] -> skip_ws (s ++ x) = skip_ws s ++ x)
    by (intros; now apply skip_ws_app).
  split; [|split].
  - intros s v t H. destruct s as [|c r]; [discriminate|].
    cbn [app parse_value] in *.
    destruct (c =? 34)%N.
    { destruct (scan_string r []) as [[y t']|] eqn:E; [|discriminate].
      injection H as <- <-.
      now rewrite (scan_string_blank x _ r [] y t' (le_n _) Hx E). }
    destruct (c =? 123)%N.
    { cbv zeta in *. destruct (skip_ws r) as [|c0 t0] eqn:Es.
      - cbn [head_is] in H. rewrite parse_members_nil in H. discriminate.
      - rewrite Hskip by (rewrite Es; discriminate). rewrite Es.
        cbn [app head_is tl] in *. destruct (c0 =? 125)%N.
        + now injection H as <- <-.
        + apply IHm in H. exact H. }
    destruct (c =? 91)%N.
    { cbv zeta in *. destruct (skip_ws r) as [|c0 t0] eqn:Es.
      - cbn [head_is] in H. rewrite parse_elements_nil in H. discriminate.
      - rewrite Hskip by (rewrite Es; discriminate). rewrite Es.
        cbn [app head_is tl] in *. destruct (c0 =? 93)%N.
        + now injection H as <- <-.
        + apply IHe in H. exact H. }
    change (c :: r ++ x) with ((c :: r) ++ x).
    destruct (c =? 110)%N; [now apply expect_blank|].
    destruct (c =? 116)%N; [now apply expect_blank|].
    destruct (c =? 102)%N; [now apply expect_blank|].
    destruct (c =? 78)%N; [now apply expect_blank|].
    destruct (c =? 73)%N; [now apply expect_blank|].
    rewrite startswith_blank by (assumption || reflexivity).
    destruct ((c =? 45)%N && startswith (u "-Infinity") (c :: r));
      [now apply expect_blank|].
    now apply scan_number_blank.
  - intros s acc v t H. cbn [parse_elements] in *.
    destruct (parse_value k s) as [[y t1]|] eqn:E; [|discriminate].
    rewrite (IHv _ _ _ E). cbv zeta in *.
    destruct (skip_ws t1) as [|c0 t0] eqn:Es; [discriminate|].
    rewrite Hskip by (rewrite Es; discriminate). rewrite Es.
    cbn [app head_is tl] in *. destruct (c0 =? 93)%N.
    + now injection H as <- <-.
    + destruct (c0 =? 44)%N; [|discriminate].
      destruct (skip_ws t0) as [|c1 t2] eqn:Es2.
      * rewrite parse_elements_nil in H. discriminate.
      * rewrite Hskip by (rewrite Es2; discriminate). rewrite Es2.
        apply IHe in H. exact H.
  - intros s acc v t H. cbn [parse_members] in *.
    destruct s as [|c r]; [discriminate|].
    cbn [app head_is tl] in *. destruct (c =? 34)%N; [|discriminate].
    destruct (scan_string r []) as [[key t1]|] eqn:E; [|discriminate].
    rewrite (scan_string_blank x _ r [] key t1 (le_n _) Hx E). cbv zeta in *.
    destruct (skip_ws t1) as [|c0 t0] eqn:Es; [discriminate|].
    rewrite Hskip by (rewrite Es; discriminate). rewrite Es.
    cbn [app head_is tl] in *. destruct (c0 =? 58)%N; [|discriminate].
    destruct (skip_ws t0) as [|c1 t2] eqn:Es2.
    { rewrite parse_value_nil in H. discriminate. }
    rewrite Hskip by (rewrite Es2; discriminate). rewrite Es2.
    destruct (parse_value k (c1 :: t2)) as [[y t3]|] eqn:Ev; [|discriminate].
    rewrite (IHv _ _ _ Ev).
    destruct (skip_ws t3) as [|c2 t4] eqn:Es3; [discriminate|].
    rewrite Hskip by (rewrite Es3; discriminate). rewrite Es3.
    cbn [app head_is tl] in *. destruct (c2 =? 125)%N.
    + now injection H as <- <-.
    + destruct (c2 =? 44)%N; [|discriminate].
      destruct (skip_ws t4) as [|c3 t5] eqn:Es4.
      * rewrite parse_members_nil in H. discriminate.
      * rewrite Hskip by (rewrite Es4; discriminate). rewrite Es4.
        apply IHm in H. exact H.
Qed.

(** ** The bound of the parser *)

Lemma suffix_length s t : suffix s t -> List.length t <= List.length s.
Proof. intros [p ->]. rewrite length_app. lia. Qed.

Lemma tl_length {A} (s : list A) : List.length (tl s) <= List.length s.
Proof. destruct s; simpl; lia. Qed.

Lemma head_is_tl_length c s :
  head_is c s = true -> S (List.length (tl s)) = List.length s.
Proof. destruct s; [discriminate | reflexivity]. Qed.

Lemma scan_string_shorter n : forall s acc out t,
  List.length s <= n ->
  scan_string s acc = Some (out, t) -> List.length t < List.length s.
Proof.
  induction n as [|n IH]; intros s acc out t Hlen H.
  { destruct s; [discriminate | cbn in Hlen; lia]. }
  destruct s as [|c r]; [discriminate|].
  cbn [List.length] in *.
  destruct (N.eqb_spec c 34) as [->|H34].
  { rewrite scan_quote in H. injection H as <- <-. lia. }
  destruct (N.eqb_spec c 92) as [->|H92].
  - destruct r as [|e r1]; [discriminate|].
    destruct (N.eqb_spec e 117) as [->|H117].
    + destruct r1 as [|h1 [|h2 [|h3 [|h4 r2]]]]; try discriminate.
      destruct (hex4_val h1 h2 h3 h4) as [c1|] eqn:Hh.
      2:{ cbn [scan_string] in H.
          change (92 =? 34)%N with false in H. change (92 =? 92)%N with true in H.
          change (117 =? 117)%N with true in H. cbv iota in H.
          rewrite Hh in H. discriminate. }
      cbn [List.length] in *.
      destruct (scan_u_step h1 h2 h3 h4 r2 acc c1 Hh)
        as [[E Hnj] | [l1 [l2 [l3 [l4 [r3 [c2 [-> [Hl [Hhi [Hlo E]]]]]]]]]]];
        rewrite E in H; apply IH in H; cbn [List.length] in *; lia.
    + destruct (simple_escape e) as [y|] eqn:Ee.
      2:{ cbn [scan_string] in H.
          change (92 =? 34)%N with false in H. change (92 =? 92)%N with true in H.
          apply N.eqb_neq in H117. rewrite H117, Ee in H. discriminate. }
      rewrite (scan_simple e y) in H by assumption.
      apply IH in H; cbn [List.length] in *; lia.
  - destruct (N.ltb_spec c 32) as [Hlt|Hge].
    { cbn [scan_string] in H. apply N.eqb_neq in H34, H92.
      rewrite H34, H92 in H. apply N.ltb_lt in Hlt. rewrite Hlt in H.
      discriminate. }
    rewrite scan_plain in H by assumption.
    apply IH in H; lia.
Qed.

Lemma expect_shorter lit v s v' t :
  lit <> [] -> expect lit v s = Some (v', t) -> List.length t < List.length s.
Proof.
  intros Hl. unfold expect. destruct (startswith lit s) eqn:E; [|discriminate].
  intros [= _ <-]. apply startswith_app in E. destruct E as [r ->].
  rewrite skipn_app, skipn_all, Nat.sub_diag. cbn [skipn app].
  rewrite length_app. destruct lit; [contradiction | simpl; lia].
Qed.

Lemma span_digits_length s : List.length (snd (span_digits s)) <= List.length s.
Proof. apply suffix_length, span_digits_suffix. Qed.

Lemma scan_number_shorter s v t :
  scan_number s = Some (v, t) -> List.length t < List.length s.
Proof.
  unfold scan_number.
  assert (H1 : List.length (snd (sign_part s)) <= List.length s).
  { destruct s as [|c r]; [apply Nat.le_refl|]. cbn [sign_part].
    destruct (c =? 45)%N; cbn [snd List.length]; lia. }
  destruct (sign_part s) as [neg s1]. cbn [snd] in H1.
  destruct (int_part s1) as [[ip s2]|] eqn:Ei; [|discriminate].
  assert (H2 : List.length s2 < List.length s1).
  { destruct s1 as [|c r]; [discriminate|]. cbn [int_part] in Ei.
    destruct (c =? 48)%N; [injection Ei as _ <-; simpl; lia|].
    destruct (is_digit c) eqn:Ed; [|discriminate].
    pose proof (span_digits_length r) as Hs. cbn [span_digits] in Ei.
    rewrite Ed in Ei. destruct (span_digits r) as [d t'].
    injection Ei as _ <-. cbn [snd List.length] in *. lia. }
  assert (H3 : List.length (snd (frac_part s2)) <= List.length s2).
  { destruct s2 as [|c [|d r]]; try apply Nat.le_refl. cbn [frac_part].
    destruct ((c =? 46)%N && is_digit d); [|apply Nat.le_refl].
    pose proof (span_digits_length (d :: r)) as Hs.
    destruct (span_digits (d :: r)) as [f t']. cbn [snd List.length] in *. lia. }
  destruct (frac_part s2) as [frac s3]. cbn [snd] in H3.
  assert (H4 : List.length (snd (exp_part s3)) <= List.length s3).
  { destruct s3 as [|e r]; [apply Nat.le_refl|]. cbn [exp_part].
    destruct ((e =? 101)%N || (e =? 69)%N); [|apply Nat.le_refl].
    assert (Hs : List.length (snd (exp_sign r)) <= List.length r).
    { destruct r as [|c t']; [apply Nat.le_refl|]. cbn [exp_sign].
      destruct (c =? 45)%N; [simpl; lia|].
      destruct (c =? 43)%N; simpl; lia. }
    destruct (exp_sign r) as [eneg r1]. cbn [snd] in Hs.
    pose proof (span_digits_length r1) as Hd.
    destruct (span_digits r1) as [[|d ds] t']; cbn [snd List.length] in *; lia. }
  destruct (exp_part s3) as [ex s4]. cbn [snd] in H4.
  intros [= _ <-]. lia.
Qed.

(** What the parser reads it reads with any bound that is at least the
    number of characters read. *)
Lemma parse_fuel k :
  (forall s v t, parse_value k s = Some (v, t) ->
     List.length t < List.length s
     /\ forall k', List.length s - List.length t <= k' ->
                   parse_value k' s = Some (v, t))
  /\ (forall s acc v t, parse_elements k s acc = Some (v, t) ->
        List.length t < List.length s
        /\ forall k', List.length s - List.length t <= k' ->
                      parse_elements k' s acc = Some (v, t))
  /\ (forall s acc v t, parse_members k s acc = Some (v, t) ->
        List.length t < List.length s
        /\ forall k', List.length s - List.length t <= k' ->
                      parse_members k' s acc = Some (v, t)).
Proof.
  induction k as [|k [IHv [IHe IHm]]].
  { repeat split; discriminate. }
  split; [|split].
  - intros s v t H. destruct s as [|c r]; [discriminate|].
    assert (Hleaf : (forall k', parse_value (S k') (c :: r) = parse_value (S k) (c :: r)) ->
                    List.length t < List.length (c :: r) ->
                    List.length t < List.length (c :: r)
                    /\ forall k', List.length (c :: r) - List.length t <= k' ->
                                  parse_value k' (c :: r) = Some (v, t)).
    { intros Hsame Hlt. split; [exact Hlt|].
      intros [|k'] Hk; [lia|]. now rewrite Hsame. }
    cbn [parse_value] in H.
    destruct (c =? 34)%N eqn:E34.
    { destruct (scan_string r []) as [[y t']|] eqn:E; [|discriminate].
      injection H as <- <-. apply Hleaf.
      - intros k'. cbn [parse_value]. now rewrite E34.
      - apply scan_string_shorter with (n := List.length r) in E; [|apply le_n].
        simpl. lia. }
    destruct (c =? 123)%N eqn:E123.
    { cbv zeta in H. pose proof (skip_ws_length r) as Hs.
      destruct (head_is 125 (skip_ws r)) eqn:Eh.
      - injection H as <- <-. pose proof (tl_length (skip_ws r)).
        apply Hleaf; [|simpl; lia].
        intros k'. cbn [parse_value]. now rewrite E34, E123, Eh.
      - apply IHm in H. destruct H as [Hlt Hk]. split; [simpl; lia|].
        intros [|k'] Hk'; [cbn [List.length] in Hk'; lia|].
        cbn [parse_value]. rewrite E34, E123. cbv zeta. rewrite Eh.
        apply Hk. cbn [List.length] in Hk'. lia. }
    destruct (c =? 91)%N eqn:E91.
    { cbv zeta in H. pose proof (skip_ws_length r) as Hs.
      destruct (head_is 93 (skip_ws r)) eqn:Eh.
      - injection H as <- <-. pose proof (tl_length (skip_ws r)).
        apply Hleaf; [|simpl; lia].
        intros k'. cbn [parse_value]. now rewrite E34, E123, E91, Eh.
      - apply IHe in H. destruct H as [Hlt Hk]. split; [simpl; lia|].
        intros [|k'] Hk'; [cbn [List.length] in Hk'; lia|].
        cbn [parse_value]. rewrite E34, E123, E91. cbv zeta. rewrite Eh.
        apply Hk. cbn [List.length] in Hk'. lia. }
    apply Hleaf.
    { intros k'. cbn [parse_value]. now rewrite E34, E123, E91. }
    destruct (c =? 110)%N; [eapply expect_shorter; [|exact H]; discriminate|].
    destruct (c =? 116)%N; [eapply expect_shorter; [|exact H]; discriminate|].
    destruct (c =? 102)%N; [eapply expect_shorter; [|exact H]; discriminate|].
    destruct (c =? 78)%N; [eapply expect_shorter; [|exact H]; discriminate|].
    destruct (c =? 73)%N; [eapply expect_shorter; [|exact H]; discriminate|].
    destruct ((c =? 45)%N && startswith (u "-Infinity") (c :: r));
      [eapply expect_shorter; [|exact H]; discriminate|].
    now apply scan_number_shorter in H.
  - intros s acc v t H. cbn [parse_elements] in H.
    destruct (parse_value k s) as [[y t1]|] eqn:E; [|discriminate].
    destruct (IHv _ _ _ E) as [Hlt1 Hk1]. cbv zeta in H.
    pose proof (skip_ws_length t1) as Hs1.
    destruct (head_is 93 (skip_ws t1)) eqn:Eh.
    + injection H as <- <-. pose proof (head_is_tl_length _ _ Eh) as Htl.
      split; [lia|].
      intros [|k'] Hk'; [lia|].
      cbn [parse_elements]. rewrite Hk1 by lia. cbv zeta. now rewrite Eh.
    + destruct (head_is 44 (skip_ws t1)) eqn:Ec; [|discriminate].
      pose proof (head_is_tl_length _ _ Ec) as Htl.
      pose proof (skip_ws_length (tl (skip_ws t1))) as Hs2.
      apply IHe in H. destruct H as [Hlt Hk]. split; [lia|].
      intros [|k'] Hk'; [lia|].
      cbn [parse_elements]. rewrite Hk1 by lia. cbv zeta. rewrite Eh, Ec.
      apply Hk. lia.
  - intros s acc v t H. cbn [parse_members] in H.
    destruct (head_is 34 s) eqn:Eq; [|discriminate].
    pose proof (head_is_tl_length _ _ Eq) as Htl0.
    destruct (scan_string (tl s) []) as [[key t1]|] eqn:E; [|discriminate].
    pose proof (scan_string_shorter _ _ _ _ _ (le_n _) E) as Hlt1.
    cbv zeta in H. pose proof (skip_ws_length t1) as Hs1.
    destruct (head_is 58 (skip_ws t1)) eqn:Ec; [|discriminate].
    pose proof (head_is_tl_length _ _ Ec) as Htl1.
    pose proof (skip_ws_length (tl (skip_ws t1))) as Hs2.
    destruct (parse_value k (skip_ws (tl (skip_ws t1)))) as [[y t2]|] eqn:Ev;
      [|discriminate].
    destruct (IHv _ _ _ Ev) as [Hlt2 Hk2].
    pose proof (skip_ws_length t2) as Hs3.
    destruct (head_is 125 (skip_ws t2)) eqn:Eh.
    + injection H as <- <-. pose proof (head_is_tl_length _ _ Eh) as Htl2.
      split; [lia|].
      intros [|k'] Hk'; [lia|].
      cbn [parse_members]. rewrite Eq, E. cbv zeta. rewrite Ec.
      rewrite Hk2 by lia. now rewrite Eh.
    + destruct (head_is 44 (skip_ws t2)) eqn:Ec2; [|discriminate].
      pose proof (head_is_tl_length _ _ Ec2) as Htl2.
      pose proof (skip_ws_length (tl (skip_ws t2))) as Hs4.
      apply IHm in H. destruct H as [Hlt Hk]. split; [lia|].
      intros [|k'] Hk'; [lia|].
      cbn [parse_members]. rewrite Eq, E. cbv zeta. rewrite Ec.
      rewrite Hk2 by lia. rewrite Eh, Ec2.
      apply Hk. lia.
Qed.

(** ** Documents that do not parse, with white space behind *)

Lemma skip_ws_app_blank s x :
  blank x ->
  skip_ws (s ++ x) = match skip_ws s with [] => [] | _ :: _ => skip_ws s ++ x end.
Proof.
  intros Hx. destruct (skip_ws s) as [|c t] eqn:E.
  - apply skip_ws_nil_blank. apply blank_app; [now apply skip_ws_nil_blank | exact Hx].
  - rewrite <- E. apply skip_ws_app. rewrite E. discriminate.
Qed.

Lemma scan_string_of_blank x : forall acc, blank x -> scan_string x acc = None.
Proof.
  induction x as [|c x IH]; intros acc Hx; [reflexivity|].
  apply blank_cons in Hx. destruct Hx as [Hc Hx]. cbn [scan_string].
  unfold is_ws in Hc.
  repeat (apply orb_true_iff in Hc; destruct Hc as [Hc|Hc]);
    apply N.eqb_eq in Hc; subst c; try reflexivity.
  change (32 =? 34)%N with false. change (32 =? 92)%N with false.
  change (32 <? 32)%N with false. cbv iota. now apply IH.
Qed.

Lemma fourth_is_blank (p x : pystr) h1 h2 h3 h4 r :
  List.length p < 4 -> blank x ->
  p ++ x = h1 :: h2 :: h3 :: h4 :: r -> is_ws h4 = true.
Proof.
  intros Hp Hx E.
  assert (Hn : nth 3 (p ++ x) 32%N = h4) by (now rewrite E).
  rewrite <- Hn. unfold blank in Hx. rewrite forallb_forall in Hx.
  destruct (Nat.lt_ge_cases 3 (List.length (p ++ x))) as [Hl|Hl].
  - rewrite app_nth2 by lia. apply Hx. apply nth_In.
    rewrite length_app in Hl. lia.
  - rewrite E in Hl. cbn [List.length] in Hl. lia.
Qed.

Lemma scan_u_short r1 acc :
  List.length r1 < 4 -> scan_string (92%N :: 117%N :: r1) acc = None.
Proof.
  intros H. cbn [scan_string].
  change (92 =? 34)%N with false. change (92 =? 92)%N with true.
  change (117 =? 117)%N with true. cbv iota.
  destruct r1 as [|h1 [|h2 [|h3 [|h4 r2]]]]; try reflexivity.
  cbn [List.length] in H. lia.
Qed.

Lemma scan_u_bad h1 h2 h3 h4 r2 acc :
  hex4_val h1 h2 h3 h4 = None ->
  scan_string (92%N :: 117%N :: h1 :: h2 :: h3 :: h4 :: r2) acc = None.
Proof.
  intros H. cbn [scan_string].
  change (92 =? 34)%N with false. change (92 =? 92)%N with true.
  change (117 =? 117)%N with true. cbv iota. now rewrite H.
Qed.

Lemma scan_string_blank_none x n : forall s acc,
  List.length s <= n -> blank x ->
  scan_string s acc = None -> scan_string (s ++ x) acc = None.
Proof.
  induction n as [|n IH]; intros s acc Hlen Hx H.
  { destruct s; [now apply scan_string_of_blank | cbn in Hlen; lia]. }
  destruct s as [|c r]; [now apply scan_string_of_blank|].
  cbn [List.length] in Hlen. cbn [app].
  destruct (N.eqb_spec c 34) as [->|H34].
  { rewrite scan_quote in H. discriminate. }
  destruct (N.eqb_spec c 92) as [->|H92].
  - destruct r as [|e r1].
    { cbn [app]. destruct x as [|a x']; [reflexivity|].
      pose proof (blank_cons _ _ Hx) as [Ha _]. cbn [scan_string].
      change (92 =? 34)%N with false. change (92 =? 92)%N with true. cbv iota.
      rewrite (is_ws_neq a 117 Ha eq_refl).
      unfold is_ws in Ha.
      repeat (apply orb_true_iff in Ha; destruct Ha as [Ha|Ha]);
        apply N.eqb_eq in Ha; subst a; reflexivity. }
    cbn [app]. destruct (N.eqb_spec e 117) as [->|H117].
    + destruct (Nat.lt_ge_cases (List.length r1) 4) as [Hs|Hs].
      * destruct (r1 ++ x) as [|h1 [|h2 [|h3 [|h4 r2]]]] eqn:E;
          try (apply scan_u_short; cbn [List.length]; lia).
        apply scan_u_bad. apply hex4_val_ws.
        now apply (fourth_is_blank r1 x h1 h2 h3 h4 r2).
      * destruct r1 as [|h1 [|h2 [|h3 [|h4 r2]]]]; cbn [List.length] in Hs; try lia.
        cbn [app].
        destruct (hex4_val h1 h2 h3 h4) as [c1|] eqn:Hh; [|now apply scan_u_bad].
        destruct (scan_u_step h1 h2 h3 h4 r2 acc c1 Hh)
          as [[E Hnj] | [l1 [l2 [l3 [l4 [r3 [c2 [-> [Hl [Hhi [Hlo E]]]]]]]]]]];
          rewrite E in H.
        -- rewrite (scan_u_single h1 h2 h3 h4 c1);
             [|exact Hh | now apply no_join_blank_app].
           apply IH; trivial. cbn [List.length] in Hlen. lia.
        -- cbn [app]. rewrite (scan_u_pair _ _ _ _ _ _ _ _ c1 c2) by assumption.
           apply IH; trivial. cbn [List.length] in Hlen. lia.
    + destruct (simple_escape e) as [y|] eqn:Ee.
      * rewrite (scan_simple e y) in * by assumption.
        apply IH; trivial. cbn [List.length] in Hlen. lia.
      * cbn [scan_string].
        change (92 =? 34)%N with false. change (92 =? 92)%N with true.
        apply N.eqb_neq in H117. now rewrite H117, Ee.
  - destruct (N.ltb_spec c 32) as [Hlt|Hge].
    { cbn [scan_string]. apply N.eqb_neq in H34, H92.
      rewrite H34, H92. apply N.ltb_lt in Hlt. now rewrite Hlt. }
    rewrite scan_plain in * by assumption.
    apply IH; trivial. lia.
Qed.

Lemma int_part_of_blank x : blank x -> int_part x = None.
Proof.
  destruct x as [|a x]; [reflexivity|]. intros Hx.
  apply blank_cons in Hx. destruct Hx as [Ha _]. cbn [int_part].
  now rewrite (is_ws_neq a 48 Ha eq_refl), (is_ws_not_digit a Ha).
Qed.

Lemma scan_number_blank_none s x :
  blank x -> scan_number s = None -> scan_number (s ++ x) = None.
Proof.
  intros Hx H. unfold scan_number in *.
  destruct s as [|c r].
  - cbn [app]. destruct x as [|a x']; [reflexivity|].
    pose proof (blank_cons _ _ Hx) as [Ha _]. cbn [sign_part].
    rewrite (is_ws_neq a 45 Ha eq_refl). now rewrite int_part_of_blank.
  - rewrite sign_part_app by discriminate.
    destruct (sign_part (c :: r)) as [neg s1]. cbn [fst snd].
    destruct (int_part s1) as [[ip s2]|] eqn:Ei.
    + destruct (frac_part s2) as [frac s3]. destruct (exp_part s3). discriminate.
    + destruct s1 as [|d r1]; [cbn [app]; now rewrite int_part_of_blank|].
      cbn [app int_part] in *. destruct (d =? 48)%N; [discriminate|].
      destruct (is_digit d); [discriminate | reflexivity].
Qed.

Lemma expect_blank_none lit v s x :
  blank x -> forallb (fun c => negb (is_ws c)) lit = true ->
  expect lit v s = None -> expect lit v (s ++ x) = None.
Proof.
  intros Hx Hl. unfold expect. rewrite startswith_blank by assumption.
  now destruct (startswith lit s).
Qed.

Lemma parse_value_of_blank k x : blank x -> parse_value k x = None.
Proof.
  intros Hx. destruct k as [|k]; [reflexivity|].
  destruct x as [|a x']; [reflexivity|].
  pose proof (blank_cons _ _ Hx) as [Ha _]. cbn [parse_value].
  rewrite (is_ws_neq a 34 Ha eq_refl), (is_ws_neq a 123 Ha eq_refl),
    (is_ws_neq a 91 Ha eq_refl), (is_ws_neq a 110 Ha eq_refl),
    (is_ws_neq a 116 Ha eq_refl), (is_ws_neq a 102 Ha eq_refl),
    (is_ws_neq a 78 Ha eq_refl), (is_ws_neq a 73 Ha eq_refl),
    (is_ws_neq a 45 Ha eq_refl).
  cbn [andb]. apply (scan_number_blank_none [] (a :: x') Hx). reflexivity.
Qed.

(** What does not parse does not parse with white space behind it. *)
Lemma parse_blank_none x k :
  blank x ->
  (forall s, parse_value k s = None -> parse_value k (s ++ x) = None)
  /\ (forall s acc, parse_elements k s acc = None ->
                    parse_elements k (s ++ x) acc = None)
  /\ (forall s acc, parse_members k s acc = None ->
                    parse_members k (s ++ x) acc = None).
Proof.
  intros Hx. induction k as [|k [IHv [IHe IHm]]].
  { repeat split; reflexivity. }
  pose proof (parse_blank x k Hx) as [Fv [Fe Fm]].
  assert (Hskip : forall s, skip_ws (s ++ x)
                            = match skip_ws s with
                              | [] => []
                              | _ :: _ => skip_ws s ++ x
                              end)
    by (intros; now apply skip_ws_app_blank).
  split; [|split].
  - intros s H. destruct s as [|c r]; [now apply parse_value_of_blank|].
    cbn [app parse_value] in *.
    destruct (c =? 34)%N.
    { destruct (scan_string r []) as [[y t']|] eqn:E; [discriminate|].
      now rewrite (scan_string_blank_none x _ r [] (le_n _) Hx E). }
    destruct (c =? 123)%N.
    { cbv zeta in *. rewrite Hskip. destruct (skip_ws r) as [|c0 t0] eqn:Es.
      - cbn [head_is]. apply parse_members_nil.
      - cbn [app head_is tl] in *. destruct (c0 =? 125)%N; [discriminate|].
        now apply (IHm (c0 :: t0)). }
    destruct (c =? 91)%N.
    { cbv zeta in *. rewrite Hskip. destruct (skip_ws r) as [|c0 t0] eqn:Es.
      - cbn [head_is]. apply parse_elements_nil.
      - cbn [app head_is tl] in *. destruct (c0 =? 93)%N; [discriminate|].
        now apply (IHe (c0 :: t0)). }
    change (c :: r ++ x) with ((c :: r) ++ x).
    destruct (c =? 110)%N; [now apply expect_blank_none|].
    destruct (c =? 116)%N; [now apply expect_blank_none|].
    destruct (c =? 102)%N; [now apply expect_blank_none|].
    destruct (c =? 78)%N; [now apply expect_blank_none|].
    destruct (c =? 73)%N; [now apply expect_blank_none|].
    rewrite startswith_blank by (assumption || reflexivity).
    destruct ((c =? 45)%N && startswith (u "-Infinity") (c :: r));
      [now apply expect_blank_none|].
    now apply scan_number_blank_none.
  - intros s acc H. cbn [parse_elements] in *.
    destruct (parse_value k s) as [[y t1]|] eqn:E.
    2:{ now rewrite (IHv _ E). }
    rewrite (Fv _ _ _ E). cbv zeta in *. rewrite Hskip.
    destruct (skip_ws t1) as [|c0 t0] eqn:Es; [reflexivity|].
    cbn [app head_is tl] in *. destruct (c0 =? 93)%N; [discriminate|].
    destruct (c0 =? 44)%N; [|reflexivity].
    rewrite Hskip. destruct (skip_ws t0) as [|c1 t2] eqn:Es2.
    + apply parse_elements_nil.
    + now apply (IHe (c1 :: t2)).
  - intros s acc H. cbn [parse_members] in *.
    destruct s as [|c r].
    { cbn [app]. destruct x as [|a x']; [reflexivity|].
      pose proof (blank_cons _ _ Hx) as [Ha _]. cbn [head_is].
      now rewrite (is_ws_neq a 34 Ha eq_refl). }
    cbn [app head_is tl] in *. destruct (c =? 34)%N; [|reflexivity].
    destruct (scan_string r []) as [[key t1]|] eqn:E.
    2:{ now rewrite (scan_string_blank_none x _ r [] (le_n _) Hx E). }
    rewrite (scan_string_blank x _ r [] key t1 (le_n _) Hx E). cbv zeta in *.
    rewrite Hskip. destruct (skip_ws t1) as [|c0 t0] eqn:Es; [reflexivity|].
    cbn [app head_is tl] in *. destruct (c0 =? 58)%N; [|reflexivity].
    rewrite Hskip. destruct (skip_ws t0) as [|c1 t2] eqn:Es2.
    { now rewrite parse_value_nil. }
    destruct (parse_value k (c1 :: t2)) as [[y t3]|] eqn:Ev.
    2:{ now rewrite (IHv (c1 :: t2) Ev). }
    rewrite (Fv (c1 :: t2) _ _ Ev). rewrite Hskip.
    destruct (skip_ws t3) as [|c2 t4] eqn:Es3; [reflexivity|].
    cbn [app head_is tl] in *. destruct (c2 =? 125)%N; [discriminate|].
    destruct (c2 =? 44)%N; [|reflexivity].
    rewrite Hskip. destruct (skip_ws t4) as [|c3 t5] eqn:Es4.
    + apply parse_members_nil.
    + now apply (IHm (c3 :: t5)).
Qed.

(** The bound [loads] gives the parser is never the reason why a
    document does not parse: any larger bound gives the same answer. *)
Lemma parse_value_any_fuel s k :
  S (List.length s) <= k -> parse_value k s = parse_value (S (List.length s)) s.
Proof.
  intros Hk.
  destruct (parse_value (S (List.length s)) s) as [[v t]|] eqn:E.
  - apply (proj1 (parse_fuel _)) in E. destruct E as [_ E]. apply E. lia.
  - destruct (parse_value k s) as [[v t]|] eqn:E'; [|reflexivity].
    apply (proj1 (parse_fuel _)) in E'. destruct E' as [_ E'].
    rewrite E' in E by lia. discriminate.
Qed.

Lemma loads_as_parsed body :
  loads body
  = match parse_value (S (List.length (skip_ws body))) (skip_ws body) with
    | Some (v, t) => match skip_ws t with [] => Some v | _ => None end
    | None => None
    end.
Proof.
  unfold loads. rewrite (parse_value_any_fuel (skip_ws body)); [reflexivity|].
  pose proof (skip_ws_length body). lia.
Qed.

Lemma loads_blank_front a body : blank a -> loads (a ++ body) = loads body.
Proof. intros Ha. rewrite !loads_as_parsed. now rewrite skip_ws_blank_app. Qed.

Lemma loads_blank_behind body b : blank b -> loads (body ++ b) = loads body.
Proof.
  intros Hb. rewrite !loads_as_parsed. rewrite skip_ws_app_blank by assumption.
  destruct (skip_ws body) as [|c s] eqn:Es; [reflexivity|].
  rewrite <- (parse_value_any_fuel (c :: s) (S (List.length ((c :: s) ++ b))))
    by (rewrite length_app; lia).
  destruct (parse_value (S (List.length ((c :: s) ++ b))) (c :: s))
    as [[v t]|] eqn:E.
  - rewrite (proj1 (parse_blank b _ Hb) _ _ _ E).
    rewrite skip_ws_app_blank by assumption.
    now destruct (skip_ws t).
  - now rewrite (proj1 (parse_blank_none b _ Hb) _ E).
Qed.

(** White space in front of a document and behind it is not part of
    it. *)
Lemma loads_padded a body b :
  blank a -> blank b -> loads (a ++ body ++ b) = loads body.
Proof.
  intros Ha Hb. now rewrite loads_blank_front, loads_blank_behind.
Qed.

Section Padded.

Variables (response_format api_response_format : pystr).

(** X25. With every format but text, white space before and after the body
    of a 200 answer has no effect: the answer is shaped, or fails to
    parse, or raises, as the body alone does, with the same triple. *)
Theorem padded_body_shaped_alike a body b :
  wire_format response_format = Some api_response_format ->
  response_format <> u "text" ->
  blank a -> blank b ->
  shape_response response_format api_response_format (a ++ body ++ b)
  = shape_response response_format api_response_format body.
Proof.
  intros Hw Hf Ha Hb. apply wire_format_cases in Hw.
  destruct Hw as [[-> H] | [-> H]]; simpl in H;
    decompose [or] H; try contradiction; subst;
    try congruence;
    unfold shape_response; eval_tests; now rewrite loads_padded.
Qed.

End Padded.

Lemma padded_body_shaped_alike_witness :
  shape_response (u "text_with_linebreaks") (u "verbose_json")
    ([10; 32]%N ++ body_segments ++ [13; 10; 9]%N)
  = shape_response (u "text_with_linebreaks") (u "verbose_json") body_segments.
Proof.
  apply (padded_body_shaped_alike (u "text_with_linebreaks") (u "verbose_json")
           [10; 32]%N body_segments [13; 10; 9]%N).
  - reflexivity.
  - vm_compute. discriminate.
  - reflexivity.
  - reflexivity.
Defined.

(** ** The two formats made from the segments, side by side *)

Lemma stamped_is_text_segment seg mi se ms t :
  stamped_segment seg (mi, se, ms, t) -> text_segment seg t.
Proof. now intros [H _]. Qed.

(** X26. A body that text_with_timestamps can shape, text_with_linebreaks
    can shape as well: the same segments give the same trimmed texts,
    line by line, with the stamp in front of each for the former. *)
Theorem stamped_body_has_linebreaks body t st :
  shape_response (u "text_with_timestamps") (u "verbose_json") body
  = ShReturn t true st ->
  exists views,
    t = strip (concat (map (fun '(mi, se, ms, txt) =>
                              timestamp mi se ms ++ strip txt ++ [10%N]) views))
    /\ shape_response (u "text_with_linebreaks") (u "verbose_json") body
       = ShReturn
           (strip (concat (map (fun '(mi, se, ms, txt) => strip txt ++ [10%N])
                             views)))
           true (u "200 OK").
Proof.
  unfold shape_response. eval_tests.
  destruct (loads body) as [j|]; [|discriminate].
  destruct (segments_text timestamp_line j) as [t'|] eqn:E; [|discriminate].
  intros [= <- <-]. apply segments_text_inv in E.
  destruct E as [segs [ls [Hi [Hl ->]]]].
  assert (Hv : exists views,
             Forall2 stamped_segment segs views
             /\ ls = map (fun '(mi, se, ms, txt) =>
                            timestamp mi se ms ++ strip txt ++ [10%N]) views).
  { clear -Hl. induction Hl as [|seg l segs ls H _ [views [IH ->]]].
    - exists []. split; [constructor | reflexivity].
    - apply timestamp_line_inv in H. destruct H as [mi [se [ms [txt [Hs ->]]]]].
      exists ((mi, se, ms, txt) :: views). split; [now constructor | reflexivity]. }
  destruct Hv as [views [Hv ->]]. exists views. split; [reflexivity|].
  rewrite (segments_text_iterated _ _ segs
             (map (fun '(mi, se, ms, txt) => strip txt ++ [10%N]) views));
    [reflexivity | exact Hi |].
  clear -Hv. induction Hv as [|seg [[[mi se] ms] txt] segs views H _ IH];
    simpl; constructor; auto.
  apply linebreak_line_text. now apply stamped_is_text_segment in H.
Qed.

Lemma stamped_body_has_linebreaks_witness :
  exists views,
    u "[01:05.250]hi
[00:00.000]bye"
    = strip (concat (map (fun '(mi, se, ms, txt) =>
                            timestamp mi se ms ++ strip txt ++ [10%N]) views))
    /\ shape_response (u "text_with_linebreaks") (u "verbose_json") body_segments
       = ShReturn
           (strip (concat (map (fun '(mi, se, ms, txt) => strip txt ++ [10%N])
                             views)))
           true (u "200 OK").
Proof.
  apply (stamped_body_has_linebreaks body_segments _ (u "200 OK")).
  vm_compute. reflexivity.
Defined.

(** ** The lines of the encoded text *)

Lemma split_cat c a b : split c (a ++ c :: b) = split c a ++ split c b.
Proof.
  induction a as [|x a IH]; cbn [app split].
  - now rewrite N.eqb_refl.
  - rewrite IH. destruct (N.eqb x c); [reflexivity|].
    pose proof (split_nonempty c a) as Hne.
    destruct (split c a) as [|p ps]; [contradiction | reflexivity].
Qed.

Lemma split_app_first c pre b :
  ~ In c pre ->
  split c (pre ++ b) = (pre ++ hd [] (split c b)) :: tl (split c b).
Proof.
  intros Hn. induction pre as [|x pre IH]; cbn [app].
  - pose proof (split_nonempty c b) as Hne.
    destruct (split c b); [contradiction | reflexivity].
  - cbn [split]. destruct (N.eqb_spec x c) as [->|_].
    + exfalso. apply Hn. now left.
    + rewrite IH by (intros H; apply Hn; now right). reflexivity.
Qed.

Lemma indented_spaces k line : indented line -> indented (repeat 32%N (4 * k) ++ line).
Proof.
  intros [j [c [r [-> Hc]]]]. exists (k + j), c, r. split; [|exact Hc].
  rewrite app_assoc, <- repeat_app. do 2 f_equal. lia.
Qed.

Lemma indented_app line suf : indented line -> indented (line ++ suf).
Proof.
  intros [j [c [r [-> Hc]]]]. exists j, c, (r ++ suf). split; [|exact Hc].
  now rewrite <- app_assoc.
Qed.

Lemma indented_solid c r : c <> 32%N -> indented (c :: r).
Proof. intros Hc. now exists 0, c, r. Qed.

Lemma visible_no_newline s : Forall (fun c => visible c = true) s -> ~ In 10%N s.
Proof.
  intros H Hin. rewrite Forall_forall in H. now apply H in Hin.
Qed.

(** A text of one line that starts with a character that is no space. *)
Lemma indented_line c r : c <> 32%N -> ~ In 10%N (c :: r) -> lines_indented (c :: r).
Proof.
  intros Hc Hn. unfold lines_indented. rewrite split_without by assumption.
  constructor; [now apply indented_solid | constructor].
Qed.

Lemma indented_newline a b : lines_indented a -> lines_indented b -> lines_indented (a ++ 10%N :: b).
Proof.
  unfold lines_indented. intros Ha Hb. rewrite split_cat. apply Forall_app. now split.
Qed.

Lemma indented_text_spaces k b : lines_indented b -> lines_indented (repeat 32%N (4 * k) ++ b).
Proof.
  unfold lines_indented. intros Hb.
  rewrite split_app_first.
  2:{ intros H. apply repeat_spec in H. discriminate. }
  pose proof (split_nonempty 10 b) as Hne.
  destruct (split 10 b) as [|l ls]; [contradiction|].
  inversion Hb; subst. cbn [hd tl]. constructor; [now apply indented_spaces | assumption].
Qed.

Lemma indented_suffix a suf : lines_indented a -> ~ In 10%N suf -> lines_indented (a ++ suf).
Proof.
  unfold lines_indented. intros Ha Hn. rewrite split_app_last by assumption.
  pose proof (split_nonempty 10 a) as Hne.
  rewrite (app_removelast_last [] Hne) in Ha.
  apply Forall_app in Ha. destruct Ha as [Hi Hl].
  apply Forall_app. split; [exact Hi|].
  inversion Hl; subst. constructor; [now apply indented_app | constructor].
Qed.

Lemma indented_prefix c r b :
  c <> 32%N -> ~ In 10%N (c :: r) -> lines_indented b -> lines_indented ((c :: r) ++ b).
Proof.
  unfold lines_indented. intros Hc Hn Hb. rewrite split_app_first by assumption.
  pose proof (split_nonempty 10 b) as Hne.
  destruct (split 10 b) as [|l ls]; [contradiction|].
  inversion Hb; subst. cbn [hd tl app].
  constructor; [now apply indented_solid | assumption].
Qed.

Lemma indented_graphic s :
  s <> [] -> Forall (fun c => graphic c = true) s -> lines_indented s.
Proof.
  intros Hne Hg. destruct s as [|c r]; [contradiction|].
  apply indented_line.
  - inversion Hg; subst. intros ->. discriminate.
  - now apply visible_no_newline, all_graphic_visible.
Qed.

Lemma indented_dump_string s : lines_indented (dump_string s).
Proof.
  unfold dump_string. apply indented_line; [discriminate|].
  apply (visible_no_newline (dump_string s)), visible_dump_string.
Qed.

(** The items of a container, each on lines of its own. *)
Lemma indented_join level parts :
  parts <> [] -> Forall lines_indented parts ->
  lines_indented (join (44%N :: newline_indent (S level)) parts).
Proof.
  intros Hne Hp. induction Hp as [|p r Hp Hr IH]; [contradiction|].
  destruct r as [|q r]; [exact Hp|].
  rewrite join_cons2.
  assert (E : forall J, p ++ (44%N :: newline_indent (S level)) ++ J
                        = (p ++ [44%N]) ++ 10%N :: (repeat 32%N (4 * S level) ++ J)).
  { intros J. unfold newline_indent. now rewrite <- app_assoc. }
  rewrite E. apply indented_newline.
  - apply indented_suffix; [exact Hp|]. intros [H|[]]. discriminate.
  - apply indented_text_spaces. apply IH. discriminate.
Qed.

Lemma indented_container (open close : N) level parts :
  open <> 32%N -> open <> 10%N -> close <> 32%N -> close <> 10%N ->
  parts <> [] -> Forall lines_indented parts ->
  lines_indented ([open] ++ newline_indent (S level)
             ++ join (44%N :: newline_indent (S level)) parts
             ++ newline_indent level ++ [close]).
Proof.
  intros Ho Ho' Hc Hc' Hne Hp.
  assert (E : forall J, [open] ++ newline_indent (S level) ++ J
                          ++ newline_indent level ++ [close]
                        = [open] ++ 10%N :: (repeat 32%N (4 * S level) ++ J)
                            ++ 10%N :: (repeat 32%N (4 * level) ++ [close])).
  { intros J. unfold newline_indent. cbn [app]. now rewrite <- app_assoc. }
  rewrite E. apply indented_newline.
  - apply indented_line; [exact Ho|]. intros [H|[]]. congruence.
  - apply indented_newline.
    + apply indented_text_spaces. now apply indented_join.
    + apply indented_text_spaces. apply indented_line; [exact Hc|].
      intros [H|[]]. congruence.
Qed.

(** Every line of the encoded text starts with a multiple of four
    spaces, none for the first, and a character that is no space. *)
Lemma indented_dumps_at v : forall level, lines_indented (dumps_at level v).
Proof.
  induction v as [| b | z | f | s | l IH | kvs IH] using json_induction;
    intros level.
  - apply indented_line; [discriminate|]. not_in_literal.
  - destruct b; (apply indented_line; [discriminate|]; not_in_literal).
  - cbn [dumps_at]. apply indented_graphic; [|apply graphic_str_of_Z].
    unfold str_of_Z. destruct (z <? 0)%Z; [discriminate | apply str_of_N_nonempty].
  - cbn [dumps_at]. apply indented_graphic; [|apply graphic_dump_float].
    unfold dump_float. destruct (is_nan f); [discriminate|].
    destruct (f =? infinity)%float; [discriminate|].
    destruct (f =? neg_infinity)%float; [discriminate|].
    apply float_repr_nonempty.
  - apply indented_dump_string.
  - destruct l as [|x l]; [apply indented_line; [discriminate | not_in_literal]|].
    cbn [dumps_at]. apply indented_container; try discriminate.
    apply Forall_forall. intros p Hp. apply in_map_iff in Hp.
    destruct Hp as [y [<- Hy]]. rewrite Forall_forall in IH. now apply IH.
  - destruct kvs as [|kv kvs]; [apply indented_line; [discriminate | not_in_literal]|].
    cbn [dumps_at]. apply indented_container; try discriminate.
    apply Forall_forall. intros p Hp. apply in_map_iff in Hp.
    destruct Hp as [[k y] [<- Hy]].
    rewrite app_assoc.
    assert (Hk : exists c r, dump_string k ++ [58%N; 32%N] = c :: r
                             /\ c <> 32%N /\ ~ In 10%N (c :: r)).
    { exists 34%N, ((flat_map escape_char k ++ [34%N]) ++ [58%N; 32%N]).
      split; [reflexivity|]. split; [discriminate|].
      intros H.
      assert (H' : In 10%N (dump_string k ++ [58%N; 32%N])) by exact H.
      apply in_app_or in H'. destruct H' as [H'|H'].
      - revert H'. apply (visible_no_newline (dump_string k)), visible_dump_string.
      - revert H'. not_in_literal. }
    destruct Hk as [c [r [-> [Hc Hn]]]].
    apply indented_prefix; [exact Hc | exact Hn|].
    rewrite Forall_forall in IH. now apply (IH (k, y)).
Qed.


Lemma dumps_at_head v level :
  exists c r, dumps_at level v = c :: r /\ c <> 32%N.
Proof.
  assert (Hg : forall s, s <> [] -> Forall (fun c => graphic c = true) s ->
                         exists c r, s = c :: r /\ c <> 32%N).
  { intros [|c r] Hne Hs; [contradiction|]. exists c, r. split; [reflexivity|].
    inversion Hs; subst. intros ->. discriminate. }
  destruct v as [| b | z | f | s | l | kvs]; cbn [dumps_at].
  - eexists _, _. split; [reflexivity | discriminate].
  - destruct b; (eexists _, _; split; [reflexivity | discriminate]).
  - apply Hg; [|apply graphic_str_of_Z].
    unfold str_of_Z. destruct (z <? 0)%Z; [discriminate | apply str_of_N_nonempty].
  - apply Hg; [|apply graphic_dump_float].
    unfold dump_float. destruct (is_nan f); [discriminate|].
    destruct (f =? infinity)%float; [discriminate|].
    destruct (f =? neg_infinity)%float; [discriminate|].
    apply float_repr_nonempty.
  - eexists _, _. split; [reflexivity | discriminate].
  - destruct l; (eexists _, _; split; [reflexivity | discriminate]).
  - destruct kvs; (eexists _, _; split; [reflexivity | discriminate]).
Qed.

Section Indented.

Variable get_prompt_content : list (pystr * pystr) -> pystr -> option pystr.
Variables (self : self_t) (w : world).
Variables (model file_path preset user_input response_format : pystr).
Variables (temperature : float) (max_retries : Z).

Let result : list event * outcome :=
  process_translation_request get_prompt_content self w model file_path
    preset user_input response_format temperature max_retries.

(** X27. With json and verbose_json, the text of a success is set in
    lines each of which starts with a multiple of four spaces followed by
    a character that is no space; the first line starts with no space. *)
Theorem json_text_lines_indented t st :
  snd result = Returned t true st ->
  response_format = u "json" \/ response_format = u "verbose_json" ->
  lines_indented t /\ exists c r, t = c :: r /\ c <> 32%N.
Proof.
  intros H Hf.
  apply (success_shaped get_prompt_content self w model file_path preset
           user_input response_format temperature max_retries) in H.
  destruct H as [api [body [Hw Hs]]].
  destruct Hf as [Hf|Hf]; rewrite Hf in Hw, Hs; vm_compute in Hw;
    injection Hw as <-; unfold shape_response in Hs; revert Hs; eval_tests;
    (destruct (loads body) as [j|]; [|discriminate]);
    intros [= <- <-]; (split; [apply indented_dumps_at | apply dumps_at_head]).
Qed.

End Indented.

Lemma json_text_lines_indented_witness :
  lines_indented (dumps parsed_json)
  /\ exists c r, dumps parsed_json = c :: r /\ c <> 32%N.
Proof.
  apply (json_text_lines_indented lookup0 self0
           (world_of [ok200 body_json]) (u "whisper-large-v3")
           (u "/tmp/a.b/clip.WAV") DEFAULT_PROMPT [] (u "json") 0 2
           (dumps parsed_json) (u "200 OK")).
  - vm_compute. reflexivity.
  - left. reflexivity.
Defined.

(** ** White space around the user input *)

Lemma lstrip_spaces a s : forallb isspace a = true -> lstrip (a ++ s) = lstrip s.
Proof.
  induction a as [|c a IH]; [reflexivity|]. cbn [forallb app lstrip].
  rewrite andb_true_iff. intros [-> H]. now apply IH.
Qed.

Lemma rstrip_spaces s b : forallb isspace b = true -> rstrip (s ++ b) = rstrip s.
Proof.
  intros H. unfold rstrip. rewrite rev_app_distr, lstrip_spaces; [reflexivity|].
  rewrite forallb_forall in *. intros c Hc. apply H. now apply in_rev.
Qed.

Lemma lstrip_nil_iff s : lstrip s = [] <-> forallb isspace s = true.
Proof.
  induction s as [|c s IH]; [split; reflexivity|]. cbn [lstrip forallb].
  destruct (isspace c); cbn [andb]; [exact IH | split; discriminate].
Qed.

Lemma rstrip_space_cons c r :
  isspace c = true ->
  rstrip (c :: r) = match rstrip r with [] => [] | _ :: _ => c :: rstrip r end.
Proof.
  intros Hc. unfold rstrip. cbn [rev].
  destruct (lstrip (rev r)) as [|d t] eqn:E.
  - cbn [rev]. apply lstrip_nil_iff in E.
    replace (lstrip (rev r ++ [c])) with (@nil N); [reflexivity|].
    symmetry. apply lstrip_nil_iff. rewrite forallb_app, E. cbn. now rewrite Hc.
  - destruct (lstrip_suffix (rev r)) as [p Hp]. rewrite E in Hp.
    assert (El : lstrip (rev r ++ [c]) = (d :: t) ++ [c]).
    { rewrite Hp. rewrite <- app_assoc.
      assert (Hsp : forallb isspace p = true).
      { apply lstrip_nil_iff.
        assert (H : lstrip (p ++ d :: t) = d :: t) by (now rewrite <- Hp).
        clear -H E. apply lstrip_head in E.
        induction p as [|x p IH]; [reflexivity|].
        cbn [app lstrip] in *. destruct (isspace x) eqn:Ex; [now apply IH|].
        exfalso. injection H as -> H.
        apply (f_equal (@List.length N)) in H. rewrite length_app in H.
        cbn [List.length] in H. lia. }
      rewrite lstrip_spaces by exact Hsp. cbn [app lstrip].
      apply lstrip_head in E. rewrite E. reflexivity. }
    rewrite El. rewrite rev_app_distr. cbn [rev app].
    destruct (rev t ++ [d]) eqn:Er; [|reflexivity].
    apply (f_equal (@List.length N)) in Er. rewrite length_app in Er.
    cbn [List.length] in Er. lia.
Qed.

(** Trimming the one end and then the other, in either order. *)
Lemma lstrip_rstrip s : lstrip (rstrip s) = rstrip (lstrip s).
Proof.
  induction s as [|c s IH]; [reflexivity|].
  cbn [lstrip]. destruct (isspace c) eqn:Ec.
  - rewrite rstrip_space_cons by assumption. rewrite <- IH.
    destruct (rstrip s) as [|d t]; [reflexivity|]. cbn [lstrip]. now rewrite Ec.
  - rewrite rstrip_cons by assumption. cbn [lstrip]. now rewrite Ec.
Qed.

Lemma strip_padded a s b :
  forallb isspace a = true -> forallb isspace b = true ->
  strip (a ++ s ++ b) = strip s.
Proof.
  intros Ha Hb. unfold strip.
  rewrite app_assoc, rstrip_spaces by assumption.
  rewrite lstrip_rstrip, lstrip_spaces by assumption.
  now rewrite <- lstrip_rstrip.
Qed.

Section PaddedInput.

Variable get_prompt_content : list (pystr * pystr) -> pystr -> option pystr.
Variables (self : self_t) (w : world).
Variables (model file_path preset user_input response_format : pystr).
Variables (temperature : float) (max_retries : Z).

(** X28. White space around a user input that is not empty makes no
    difference: the same prompt is sent and the call does and answers the
    same. *)
Theorem padded_user_input_alike a b :
  user_input <> [] ->
  forallb isspace a = true -> forallb isspace b = true ->
  build_prompt get_prompt_content self preset (a ++ user_input ++ b)
  = build_prompt get_prompt_content self preset user_input
  /\ process_translation_request get_prompt_content self w model file_path
       preset (a ++ user_input ++ b) response_format temperature max_retries
     = process_translation_request get_prompt_content self w model file_path
         preset user_input response_format temperature max_retries.
Proof.
  intros Hne Ha Hb.
  assert (E : build_prompt get_prompt_content self preset (a ++ user_input ++ b)
              = build_prompt get_prompt_content self preset user_input).
  { unfold build_prompt. rewrite strip_padded by assumption.
    destruct (PyStr.eqb preset DEFAULT_PROMPT); [|reflexivity].
    destruct user_input as [|c r]; [contradiction|].
    destruct a; reflexivity. }
  split; [exact E|].
  unfold process_translation_request. now rewrite E.
Qed.

End PaddedInput.

Lemma padded_user_input_alike_witness :
  build_prompt lookup0 self0 (u "Formal") (u "  " ++ u "now" ++ [9; 10]%N)
  = build_prompt lookup0 self0 (u "Formal") (u "now")
  /\ run [PostRaises] (u "Formal") (u "  " ++ u "now" ++ [9; 10]%N) (u "json") 1
     = run [PostRaises] (u "Formal") (u "now") (u "json") 1.
Proof.
  apply (padded_user_input_alike lookup0 self0 (world_of [PostRaises])
           (u "whisper-large-v3") (u "/tmp/a.b/clip.WAV") (u "Formal") (u "now")
           (u "json") 0 1 (u "  ") [9; 10]%N).
  - discriminate.
  - reflexivity.
  - reflexivity.
Defined.

